(** * NSE trend-stock screener: indicator engine and 120-point scoring engine

    Shallow embedding of [backend/main.py] ([TechnicalEngine] and
    [ScoringEngine], the result cache, the signal and trend-strength
    helpers, and the filter-and-sort step of [screen_stocks]) and the
    properties of its specification.

    Numbers.  The source computes on pandas [float64] columns.  A column
    value is modelled by [num]: an exact rational, one of the two
    infinities, or [NaN] (pandas' missing value).  Arithmetic follows
    IEEE 754 on the special values (a non-zero value divided by zero is an
    infinity, zero divided by zero is [NaN], every comparison with [NaN]
    is false); rounding and overflow of finite values are not modelled,
    and zero carries no sign (it divides like [+0.0]). *)

From Stdlib Require Import ZArith QArith Qcanon Lia Lqa String.
From stdpp Require Import base decidable option numbers list strings gmap
  sorting.

Local Open Scope Z_scope.

(** ** Numbers *)

Inductive num : Type :=
| NaN : num
| Inf (neg : bool) : num
| Fin (q : Qc) : num.

Global Instance num_eq_dec : EqDecision num.
Proof. solve_decision. Defined.

Definition Z2num (z : Z) : num := Fin (Q2Qc (inject_Z z)).
Definition dec (n : Z) (d : positive) : num := Fin (Q2Qc (n # d)).

Definition notna (a : num) : bool :=
  match a with NaN => false | _ => true end.

Definition is_fin (a : num) : bool :=
  match a with Fin _ => true | _ => false end.

Definition qneg (q : Qc) : bool := bool_decide (q < 0)%Qc.

Definition nneg (a : num) : num :=
  match a with
  | NaN => NaN
  | Inf s => Inf (negb s)
  | Fin q => Fin (- q)%Qc
  end.

Definition nadd (a b : num) : num :=
  match a, b with
  | NaN, _ | _, NaN => NaN
  | Inf s, Inf t => if Bool.eqb s t then Inf s else NaN
  | Inf s, Fin _ | Fin _, Inf s => Inf s
  | Fin p, Fin q => Fin (p + q)%Qc
  end.

Definition nsub (a b : num) : num := nadd a (nneg b).

Definition nmul (a b : num) : num :=
  match a, b with
  | NaN, _ | _, NaN => NaN
  | Inf s, Inf t => Inf (xorb s t)
  | Inf s, Fin q | Fin q, Inf s =>
      if decide (q = 0%Qc) then NaN else Inf (xorb s (qneg q))
  | Fin p, Fin q => Fin (p * q)%Qc
  end.

Definition ndiv (a b : num) : num :=
  match a, b with
  | NaN, _ | _, NaN => NaN
  | Inf _, Inf _ => NaN
  | Inf s, Fin q => Inf (xorb s (qneg q))
  | Fin _, Inf _ => Fin 0%Qc
  | Fin p, Fin q =>
      if decide (q = 0%Qc)
      then (if decide (p = 0%Qc) then NaN else Inf (qneg p))
      else Fin (p / q)%Qc
  end.

Definition nabs (a : num) : num :=
  match a with
  | NaN => NaN
  | Inf _ => Inf false
  | Fin q => Fin (if qneg q then - q else q)%Qc
  end.

(** [a < b] and [a <= b] on floats: false as soon as one side is [NaN]. *)
Definition nlt (a b : num) : bool :=
  match a, b with
  | NaN, _ | _, NaN => false
  | Inf s, Inf t => s && negb t
  | Inf s, Fin _ => s
  | Fin _, Inf t => negb t
  | Fin p, Fin q => bool_decide (p < q)%Qc
  end.

Definition nle (a b : num) : bool :=
  match a, b with
  | NaN, _ | _, NaN => false
  | Inf s, Inf t => s || negb t
  | Inf s, Fin _ => s
  | Fin _, Inf t => negb t
  | Fin p, Fin q => bool_decide (p <= q)%Qc
  end.

Definition ngt (a b : num) : bool := nlt b a.
Definition nge (a b : num) : bool := nle b a.

(** [np.sign] *)
Definition nsign (a : num) : num :=
  match a with
  | NaN => NaN
  | Inf s => if s then Z2num (-1) else Z2num 1
  | Fin q => if qneg q then Z2num (-1)
             else if decide (q = 0%Qc) then Fin 0%Qc else Z2num 1
  end.

(** Larger of two values, a missing one being skipped ([skipna=True]). *)
Definition nanmax2 (a b : num) : num :=
  match a, b with
  | NaN, x | x, NaN => x
  | _, _ => if nlt a b then b else a
  end.

(** Larger of two values, a missing one making the result missing. *)
Definition nmax2 (a b : num) : num :=
  match a, b with
  | NaN, _ | _, NaN => NaN
  | _, _ => if nlt a b then b else a
  end.

(** ** pandas Series operations

    A Series is the list of its values in index order. *)

Module pd.

Abbreviation Series := (list num).

(** [s.shift(k)], [k >= 0]: values move [k] places down, the first [k]
    entries are missing, the length is kept. *)
Definition shift (k : nat) (xs : Series) : Series :=
  take (length xs) (replicate k NaN ++ xs).

(** [s.diff(k)] is [s - s.shift(k)]. *)
Definition diff (k : nat) (xs : Series) : Series :=
  zip_with nsub xs (shift k xs).

(** [s.pct_change(k)] is [s / s.shift(k) - 1] (the columns it is applied to
    have missing values at their head only, which forward filling leaves
    alone). *)
Definition pct_change (k : nat) (xs : Series) : Series :=
  zip_with (λ x p, nsub (ndiv x p) (Fin 1%Qc)) xs (shift k xs).

(** [s.fillna(v)] *)
Definition fillna (v : num) (xs : Series) : Series :=
  (λ x, if notna x then x else v) <$> xs.

Definition nsum (xs : list num) : num := foldr nadd (Fin 0%Qc) xs.

Definition count (xs : list num) : num := Z2num (Z.of_nat (length xs)).

(** [s.cumsum()] on a series without missing values. *)
Fixpoint cumsum_from (acc : num) (xs : Series) : Series :=
  match xs with
  | [] => []
  | x :: r => let y := nadd acc x in y :: cumsum_from y r
  end.
Definition cumsum (xs : Series) : Series := cumsum_from (Fin 0%Qc) xs.

(** The trailing window of size [w] that ends at index [i]: indices
    [i-w+1 .. i]. *)
Definition window {A} (w i : nat) (xs : list A) : list A :=
  take w (drop (S i - w) xs).

(** [s.rolling(window=w).agg()]: [min_periods] defaults to [w], so the entry
    is missing until [w] values are there, and [agg] returns [NaN] when a
    value of the window is missing. *)
Definition rolling (w : nat) (agg : list num → num) (xs : Series) : Series :=
  (λ i, if decide (w ≤ S i)%nat then agg (window w i xs) else NaN)
    <$> seq 0 (length xs).

Definition win_mean (ws : list num) : num := ndiv (nsum ws) (count ws).

Definition win_max (ws : list num) : num :=
  match ws with
  | [] => NaN
  | x :: r => foldl nmax2 x r
  end.

(** Sample variance ([ddof=1], the default of [rolling.std]). *)
Definition win_var (ws : list num) : num :=
  let m := win_mean ws in
  ndiv (nsum ((λ x, nmul (nsub x m) (nsub x m)) <$> ws))
       (nsub (count ws) (Fin 1%Qc)).

(** [s.mean()] and [s.max()] of a slice: missing values are skipped, and the
    result is missing when nothing is left. *)
Definition mean (xs : Series) : num :=
  let ys := filter (λ x, notna x = true) xs in
  ndiv (nsum ys) (count ys).

Definition max (xs : Series) : num := foldr nanmax2 NaN xs.

(** [s.ewm(span=span, adjust=False).mean()] on a series without missing
    values: [y0 = x0] and [y_i = (1 - alpha) * y_(i-1) + alpha * x_i] with
    [alpha = 2 / (span + 1)]. *)
Definition ewm_alpha (span : nat) : num :=
  ndiv (Z2num 2) (Z2num (Z.of_nat span + 1)).

Fixpoint ewm_from (alpha prev : num) (xs : Series) : Series :=
  match xs with
  | [] => []
  | x :: r =>
      let y := nadd (nmul (nsub (Fin 1%Qc) alpha) prev) (nmul alpha x) in
      y :: ewm_from alpha y r
  end.

Definition ewm_mean (span : nat) (xs : Series) : Series :=
  match xs with
  | [] => []
  | x :: r => x :: ewm_from (ewm_alpha span) x r
  end.

(** [s.iloc[k]]: a negative [k] counts from the end; [None] stands for the
    [IndexError] of a position outside the series. *)
Definition iloc {A} (xs : list A) (k : Z) : option A :=
  let n := Z.of_nat (length xs) in
  let i := if decide (k < 0) then n + k else k in
  if decide (0 ≤ i < n) then xs !! Z.to_nat i else None.

(** Slice bounds are clamped as Python does. *)
Definition clamp (n : nat) (k : Z) : nat :=
  if decide (k < 0) then Z.to_nat (Z.of_nat n + k)
  else Nat.min (Z.to_nat k) n.

(** [s.iloc[start:]] and [s.iloc[start:stop]] *)
Definition iloc_from {A} (xs : list A) (start : Z) : list A :=
  drop (clamp (length xs) start) xs.

Definition iloc_range {A} (xs : list A) (start stop : Z) : list A :=
  let a := clamp (length xs) start in
  let b := clamp (length xs) stop in
  take (b - a) (drop a xs).

(** [xs[::step]]: every [step]-th element, the first one included. *)
Fixpoint every_aux {A} (fuel step : nat) (xs : list A) : list A :=
  match fuel, xs with
  | S f, x :: _ => x :: every_aux f step (drop step xs)
  | _, _ => []
  end.
Definition every {A} (step : nat) (xs : list A) : list A :=
  every_aux (length xs) step xs.

End pd.

(** ** Data model *)

(** One trading day.  Prices are reals, the volume an integer. *)
Record Bar : Type := {
  date : Z;
  open : Qc;
  high : Qc;
  low : Qc;
  close : Qc;
  volume : Z
}.

Definition PriceSeries : Type := list Bar.

(** The invariants of a PriceSeries: positive prices, a non-negative volume,
    [low <= min(open, close) <= max(open, close) <= high], and strictly
    increasing dates. *)
Definition valid_bar (b : Bar) : bool :=
  bool_decide (0 < open b)%Qc && bool_decide (0 < high b)%Qc &&
  bool_decide (0 < low b)%Qc && bool_decide (0 < close b)%Qc &&
  bool_decide (0 ≤ volume b) &&
  bool_decide (low b <= open b)%Qc && bool_decide (low b <= close b)%Qc &&
  bool_decide (open b <= high b)%Qc && bool_decide (close b <= high b)%Qc.

Fixpoint increasing (ds : list Z) : bool :=
  match ds with
  | d :: (e :: _) as r => bool_decide (d < e) && increasing r
  | _ => true
  end.

Definition valid_series (s : PriceSeries) : bool :=
  forallb valid_bar s && increasing (date <$> s).

(** The data frame the engine fills and the scoring engine reads: the raw
    columns and one aligned column per indicator. *)
Record AugmentedSeries : Type := {
  Open : pd.Series;
  High : pd.Series;
  Low : pd.Series;
  Close : pd.Series;
  Volume : pd.Series;
  EMA_20 : pd.Series;
  SMA_50 : pd.Series;
  SMA_200 : pd.Series;
  EMA_20_slope : pd.Series;
  SMA_50_slope : pd.Series;
  SMA_200_slope : pd.Series;
  RSI : pd.Series;
  ROC : pd.Series;
  MACD : pd.Series;
  MACD_Signal : pd.Series;
  MACD_Hist : pd.Series;
  Hist_Momentum : pd.Series;
  ADX : pd.Series;
  Plus_DI : pd.Series;
  Minus_DI : pd.Series;
  DI_Spread : pd.Series;
  ADX_Rising : list bool;
  Vol_SMA_20 : pd.Series;
  Vol_SMA_50 : pd.Series;
  Vol_Ratio : pd.Series;
  OBV : pd.Series;
  OBV_EMA : pd.Series;
  BB_Upper : pd.Series;
  BB_Middle : pd.Series;
  BB_Lower : pd.Series;
  BB_Position : pd.Series;
  ATR : pd.Series;
  ATR_Percent : pd.Series;
  High_52W : pd.Series;
  High_4W : pd.Series;
  High_2W : pd.Series
}.

(** ** Technical indicators engine *)

Section TechnicalEngine.

(** The floating-point square root used by [rolling.std], kept abstract. *)
Variable fsqrt : Qc → Qc.

(** [rolling.std] takes the root of the variance with a negative variance
    read as zero. *)
Definition nsqrt (a : num) : num :=
  match a with
  | Fin q => if qneg q then Fin 0%Qc else Fin (fsqrt q)
  | Inf false => Inf false
  | _ => NaN
  end.

Definition rolling_mean (w : nat) (xs : pd.Series) : pd.Series :=
  pd.rolling w pd.win_mean xs.
Definition rolling_max (w : nat) (xs : pd.Series) : pd.Series :=
  pd.rolling w pd.win_max xs.
Definition rolling_std (w : nat) (xs : pd.Series) : pd.Series :=
  pd.rolling w (λ ws, nsqrt (pd.win_var ws)) xs.

(** The columns [self.close], [self.high], [self.low], [self.volume]. *)
Definition col (f : Bar → Qc) (s : PriceSeries) : pd.Series := (Fin ∘ f) <$> s.
Definition col_volume (s : PriceSeries) : pd.Series := (Z2num ∘ volume) <$> s.

Definition calculate_ema (close : pd.Series) (period : nat) : pd.Series :=
  pd.ewm_mean period close.

Definition calculate_sma (close : pd.Series) (period : nat) : pd.Series :=
  rolling_mean period close.

(** The [gain] and [loss] series of [calculate_rsi]. *)
Definition rsi_gain (close : pd.Series) (period : nat) : pd.Series :=
  let delta := pd.diff 1 close in
  rolling_mean period
    ((λ d, if ngt d (Z2num 0) then d else Z2num 0) <$> delta).

Definition rsi_loss (close : pd.Series) (period : nat) : pd.Series :=
  let delta := pd.diff 1 close in
  rolling_mean period
    (nneg <$> ((λ d, if nlt d (Z2num 0) then d else Z2num 0) <$> delta)).

Definition calculate_rsi (close : pd.Series) (period : nat) : pd.Series :=
  let gain := rsi_gain close period in
  let loss := rsi_loss close period in
  let rs := zip_with ndiv gain loss in
  (λ r, nsub (Z2num 100) (ndiv (Z2num 100) (nadd (Z2num 1) r))) <$> rs.

Definition calculate_macd (close : pd.Series)
  : pd.Series * pd.Series * pd.Series :=
  let ema12 := calculate_ema close 12 in
  let ema26 := calculate_ema close 26 in
  let macd := zip_with nsub ema12 ema26 in
  let signal := pd.ewm_mean 9 macd in
  let histogram := zip_with nsub macd signal in
  (macd, signal, histogram).

(** [pd.concat([tr1, tr2, tr3], axis=1).max(axis=1)]: the row maximum skips
    the missing entries. *)
Definition true_range (high low close : pd.Series) : pd.Series :=
  let tr1 := zip_with nsub high low in
  let tr2 := nabs <$> zip_with nsub high (pd.shift 1 close) in
  let tr3 := nabs <$> zip_with nsub low (pd.shift 1 close) in
  zip_with nanmax2 (zip_with nanmax2 tr1 tr2) tr3.

Definition calculate_adx (high low close : pd.Series) (period : nat)
  : pd.Series * pd.Series * pd.Series :=
  let high_diff := pd.diff 1 high in
  let low_diff := nneg <$> pd.diff 1 low in
  let plus_dm :=
    zip_with (λ h l, if ngt h l && ngt h (Z2num 0) then h else Z2num 0)
             high_diff low_diff in
  let minus_dm :=
    zip_with (λ h l, if ngt l h && ngt l (Z2num 0) then l else Z2num 0)
             high_diff low_diff in
  let tr := true_range high low close in
  let atr := rolling_mean period tr in
  let plus_di :=
    (nmul (Z2num 100)) <$> zip_with ndiv (rolling_mean period plus_dm) atr in
  let minus_di :=
    (nmul (Z2num 100)) <$> zip_with ndiv (rolling_mean period minus_dm) atr in
  let dx :=
    zip_with (λ p m, ndiv (nmul (Z2num 100) (nabs (nsub p m))) (nadd p m))
             plus_di minus_di in
  let adx := rolling_mean period dx in
  (adx, plus_di, minus_di).

Definition calculate_bollinger_bands (close : pd.Series) (period : nat)
    (std_dev : Z) : pd.Series * pd.Series * pd.Series :=
  let middle := calculate_sma close period in
  let std := rolling_std period close in
  let upper := zip_with (λ m s, nadd m (nmul s (Z2num std_dev))) middle std in
  let lower := zip_with (λ m s, nsub m (nmul s (Z2num std_dev))) middle std in
  (upper, middle, lower).

Definition calculate_atr (high low close : pd.Series) (period : nat)
  : pd.Series :=
  rolling_mean period (true_range high low close).

Definition calculate_obv (close volume : pd.Series) : pd.Series :=
  pd.cumsum
    (pd.fillna (Z2num 0) (zip_with nmul (nsign <$> pd.diff 1 close) volume)).

Definition calculate_roc (close : pd.Series) (period : nat) : pd.Series :=
  zip_with (λ c p, nmul (ndiv (nsub c p) p) (Z2num 100))
           close (pd.shift period close).

Definition slope (xs : pd.Series) : pd.Series :=
  (λ x, nmul x (Z2num 100)) <$> pd.pct_change 5 xs.

Definition calculate_all_indicators (s : PriceSeries) : AugmentedSeries :=
  let close := col close s in
  let high := col high s in
  let low := col low s in
  let volume := col_volume s in
  let ema_20 := calculate_ema close 20 in
  let sma_50 := calculate_sma close 50 in
  let sma_200 := calculate_sma close 200 in
  let '(macd, signal, histogram) := calculate_macd close in
  let '(adx, plus_di, minus_di) := calculate_adx high low close 14 in
  let vol_sma_20 := rolling_mean 20 volume in
  let obv := calculate_obv close volume in
  let '(bb_upper, bb_middle, bb_lower) :=
    calculate_bollinger_bands close 20 2 in
  let atr := calculate_atr high low close 14 in
  {| Open := col open s;
     High := high;
     Low := low;
     Close := close;
     Volume := volume;
     EMA_20 := ema_20;
     SMA_50 := sma_50;
     SMA_200 := sma_200;
     EMA_20_slope := slope ema_20;
     SMA_50_slope := slope sma_50;
     SMA_200_slope := slope sma_200;
     RSI := calculate_rsi close 14;
     ROC := calculate_roc close 10;
     MACD := macd;
     MACD_Signal := signal;
     MACD_Hist := histogram;
     Hist_Momentum := pd.diff 3 histogram;
     ADX := adx;
     Plus_DI := plus_di;
     Minus_DI := minus_di;
     DI_Spread := zip_with nsub plus_di minus_di;
     ADX_Rising := (λ d, ngt d (Z2num 0)) <$> pd.diff 3 adx;
     Vol_SMA_20 := vol_sma_20;
     Vol_SMA_50 := rolling_mean 50 volume;
     Vol_Ratio :=
       (λ x, nmul x (Z2num 100)) <$> zip_with ndiv volume vol_sma_20;
     OBV := obv;
     OBV_EMA := pd.ewm_mean 20 obv;
     BB_Upper := bb_upper;
     BB_Middle := bb_middle;
     BB_Lower := bb_lower;
     BB_Position :=
       (λ x, nmul x (Z2num 100)) <$>
         zip_with ndiv (zip_with nsub close bb_lower)
                       (zip_with nsub bb_upper bb_lower);
     ATR := atr;
     ATR_Percent := (λ x, nmul x (Z2num 100)) <$> zip_with ndiv atr close;
     High_52W := rolling_max 252 high;
     High_4W := rolling_max 20 high;
     High_2W := rolling_max 10 high |}.

End TechnicalEngine.

(** ** Scoring engine *)

(** A scoring method runs its body inside [try: ... except Exception:] with
    the local [score] as state: an exception ends the body and the points
    added so far are kept. *)
Definition Score (A : Type) : Type := Z → option A * Z.

Global Instance Score_ret : MRet Score := λ A a s, (Some a, s).
Global Instance Score_bind : MBind Score := λ A B k m s,
  match m s with
  | (Some a, s') => k a s'
  | (None, s') => (None, s')
  end.

(** A lookup that raises when there is no value. *)
Definition get {A} (o : option A) : Score A := λ s, (o, s).
(** [score += k] *)
Definition add (k : Z) : Score unit := λ s, (Some tt, s + k).
(** [score = 0; try: body; except Exception: log]; the value of [score]. *)
Definition try_except (body : Score unit) : Z := (body 0).2.

Record ScoreResult : Type := {
  total_score : Z;
  classification : string;
  color : string;
  category_scores : gmap string Z
}.

Section ScoringEngine.

(** [np.polyfit(range(len(ys)), ys, 1)[0]], the slope of the least-squares
    line through [ys]; [None] when numpy raises. *)
Variable polyfit : list num → option num.

(** *** A. Trend alignment (25 points) *)

Definition price_position (current ema20 sma50 sma200 : num) : Z :=
  if notna ema20 && notna sma50 && notna sma200 then
    if ngt current ema20 && ngt ema20 sma50 && ngt sma50 sma200 then 12
    else if ngt current sma50 && ngt sma50 sma200 then 10
    else if ngt current sma50 then 7
    else if ngt current (nmul sma50 (dec 97 100)) then 4
    else 0
  else 0.

Definition ma_slopes (ema20 sma50 sma200 : num) : Z :=
  if forallb (λ s, notna s && ngt s (Z2num 2)) [ema20; sma50; sma200] then 8
  else if ngt ema20 (Z2num 2) && ngt sma50 (Z2num 2) then 6
  else if ngt ema20 (Z2num 2) then 3
  else 0.

Definition ma_divergence (ema20 sma50 sma200 : num) : Z :=
  if notna ema20 && notna sma50 && notna sma200 then
    if ngt ema20 sma50 && ngt sma50 sma200 then
      let spacing := nmul (ndiv (nsub ema20 sma50) sma50) (Z2num 100) in
      if ngt spacing (Z2num 2) then 5
      else if ngt spacing (Z2num 0) then 3
      else 0
    else 0
  else 0.

Definition trend_alignment (df : AugmentedSeries) : Score unit :=
  current ← get (pd.iloc (Close df) (-1));
  ema20 ← get (pd.iloc (EMA_20 df) (-1));
  sma50 ← get (pd.iloc (SMA_50 df) (-1));
  sma200 ← get (pd.iloc (SMA_200 df) (-1));
  add (price_position current ema20 sma50 sma200);;
  s_ema20 ← get (pd.iloc (EMA_20_slope df) (-1));
  s_sma50 ← get (pd.iloc (SMA_50_slope df) (-1));
  s_sma200 ← get (pd.iloc (SMA_200_slope df) (-1));
  add (ma_slopes s_ema20 s_sma50 s_sma200);;
  add (ma_divergence ema20 sma50 sma200).

Definition score_trend_alignment (df : AugmentedSeries) : Z :=
  try_except (trend_alignment df).

(** *** B. Momentum and strength (35 points) *)

Definition adx_points (adx : num) : Z :=
  if notna adx then
    if ngt adx (Z2num 40) then 10
    else if ngt adx (Z2num 30) then 8
    else if ngt adx (Z2num 25) then 6
    else if ngt adx (Z2num 20) then 4
    else 0
  else 0.

Definition di_spread_points (di_spread : num) (adx_rising : bool) : Z :=
  if notna di_spread then
    if ngt di_spread (Z2num 10) && adx_rising then 5
    else if ngt di_spread (Z2num 5) then 3
    else if ngt di_spread (Z2num 0) then 1
    else 0
  else 0.

Definition between (lo x hi : num) : bool := nle lo x && nle x hi.

Definition rsi_points (rsi : num) : Z :=
  if notna rsi then
    if between (Z2num 60) rsi (Z2num 70) then 8
    else if between (Z2num 55) rsi (Z2num 65) then 6
    else if between (Z2num 50) rsi (Z2num 60) then 4
    else if between (Z2num 45) rsi (Z2num 55) then 2
    else 0
  else 0.

Definition roc_points (roc : num) : Z :=
  if notna roc then
    if ngt roc (Z2num 8) then 4
    else if ngt roc (Z2num 4) then 3
    else if ngt roc (Z2num 2) then 2
    else if ngt roc (Z2num 0) then 1
    else 0
  else 0.

Definition macd_points (macd signal hist hist_mom : num) : Z :=
  if notna macd && notna signal then
    if ngt macd signal && ngt hist (Z2num 0) && ngt hist_mom (Z2num 0) then 8
    else if ngt macd signal && ngt hist (Z2num 0) then 6
    else if ngt macd signal then 4
    else 0
  else 0.

Definition momentum_strength (df : AugmentedSeries) : Score unit :=
  adx ← get (pd.iloc (ADX df) (-1));
  add (adx_points adx);;
  di_spread ← get (pd.iloc (DI_Spread df) (-1));
  adx_rising ← get (pd.iloc (ADX_Rising df) (-1));
  add (di_spread_points di_spread adx_rising);;
  rsi ← get (pd.iloc (RSI df) (-1));
  add (rsi_points rsi);;
  roc ← get (pd.iloc (ROC df) (-1));
  add (roc_points roc);;
  macd ← get (pd.iloc (MACD df) (-1));
  signal ← get (pd.iloc (MACD_Signal df) (-1));
  hist ← get (pd.iloc (MACD_Hist df) (-1));
  hist_mom ← get (pd.iloc (Hist_Momentum df) (-1));
  add (macd_points macd signal hist hist_mom).

Definition score_momentum_strength (df : AugmentedSeries) : Z :=
  try_except (momentum_strength df).

(** *** C. Volume and liquidity (20 points) *)

Definition volume_surge (vol_ratio : num) : Z :=
  if notna vol_ratio then
    if ngt vol_ratio (Z2num 200) then 8
    else if ngt vol_ratio (Z2num 150) then 6
    else if ngt vol_ratio (Z2num 120) then 4
    else if ngt vol_ratio (Z2num 100) then 2
    else 0
  else 0.

Definition obv_points (obv obv_ema obv_high : num) : Z :=
  if notna obv && notna obv_ema then
    if nge obv obv_high then 6
    else if ngt obv obv_ema then 4
    else 2
  else 0.

(** The ratio of the mean of the last ten values to the mean of the ten
    before them. *)
Definition trend_ratio (xs : pd.Series) : num :=
  ndiv (pd.mean (pd.iloc_from xs (-10)))
       (pd.mean (pd.iloc_range xs (-20) (-10))).

Definition volume_price_confirmation (vol_trend price_trend : num) : Z :=
  if ngt vol_trend (Z2num 1) && ngt price_trend (Z2num 1) then 6
  else if ngt vol_trend (Z2num 1) || ngt price_trend (Z2num 1) then 3
  else 0.

Definition volume_liquidity (df : AugmentedSeries) : Score unit :=
  vol_ratio ← get (pd.iloc (Vol_Ratio df) (-1));
  add (volume_surge vol_ratio);;
  obv ← get (pd.iloc (OBV df) (-1));
  obv_ema ← get (pd.iloc (OBV_EMA df) (-1));
  let obv_high := pd.max (pd.iloc_from (OBV df) (-50)) in
  add (obv_points obv obv_ema obv_high);;
  let vol_trend := trend_ratio (Volume df) in
  let price_trend := trend_ratio (Close df) in
  add (volume_price_confirmation vol_trend price_trend).

Definition score_volume_liquidity (df : AugmentedSeries) : Z :=
  try_except (volume_liquidity df).

(** *** D. Price action and breakouts (25 points) *)

(** The loop over [weekly_closes] from its end: the number of consecutive
    rises, read on the reversed list. *)
Fixpoint rises (rev_closes : list num) : Z :=
  match rev_closes with
  | a :: (b :: _) as r => if ngt a b then 1 + rises r else 0
  | _ => 0
  end.

Definition weekly_momentum (closes : pd.Series) : Z :=
  let weekly_closes := pd.every 5 (pd.iloc_from closes (-35)) in
  let consecutive := rises (reverse weekly_closes) in
  if decide (5 ≤ consecutive) then 10
  else if decide (3 ≤ consecutive) then 7
  else if decide (2 ≤ consecutive) then 4
  else if decide (1 ≤ consecutive) then 2
  else 0.

Definition breakout_quality
    (current high_52w high_4w high_2w vol_ratio : num) : Z :=
  if notna high_52w && nge current (nmul high_52w (dec 995 1000))
     && ngt vol_ratio (Z2num 150) then 8
  else if notna high_4w && nge current (nmul high_4w (dec 995 1000)) then 7
  else if notna high_2w && nge current (nmul high_2w (dec 995 1000)) then 5
  else 0.

Definition support_resistance (lows highs : pd.Series) : Score unit :=
  if decide (0 < length lows ∧ 0 < length highs)%nat then
    low_trend ← get (polyfit lows);
    if ngt low_trend (Z2num 0) then add 7 else add 3
  else mret tt.

Definition price_action_breakouts (df : AugmentedSeries) : Score unit :=
  current ← get (pd.iloc (Close df) (-1));
  add (weekly_momentum (Close df));;
  high_52w ← get (pd.iloc (High_52W df) (-2));
  high_4w ← get (pd.iloc (High_4W df) (-2));
  high_2w ← get (pd.iloc (High_2W df) (-2));
  vol_ratio ← get (pd.iloc (Vol_Ratio df) (-1));
  add (breakout_quality current high_52w high_4w high_2w vol_ratio);;
  support_resistance (pd.iloc_from (Low df) (-20))
                     (pd.iloc_from (High df) (-20)).

Definition score_price_action_breakouts (df : AugmentedSeries) : Z :=
  try_except (price_action_breakouts df).

(** *** E. Volatility and risk (10 points) *)

Definition bollinger_position (bb_position : num) : Z :=
  if notna bb_position then
    if ngt bb_position (Z2num 80) then 6
    else if ngt bb_position (Z2num 60) then 4
    else if ngt bb_position (Z2num 50) then 2
    else 0
  else 0.

Definition atr_points (atr_current atr_past : num) : Z :=
  if notna atr_current && notna atr_past then
    let atr_change :=
      nmul (ndiv (nsub atr_current atr_past) atr_past) (Z2num 100) in
    if between (Z2num 10) atr_change (Z2num 20) then 4
    else if between (Z2num (-5)) atr_change (Z2num 10) then 3
    else if nle (Z2num (-10)) atr_change && nlt atr_change (Z2num (-5)) then 2
    else 0
  else 0.

Definition volatility_risk (df : AugmentedSeries) : Score unit :=
  bb_position ← get (pd.iloc (BB_Position df) (-1));
  add (bollinger_position bb_position);;
  atr_current ← get (pd.iloc (ATR_Percent df) (-1));
  atr_past ← get (pd.iloc (ATR_Percent df) (-10));
  add (atr_points atr_current atr_past).

Definition score_volatility_risk (df : AugmentedSeries) : Z :=
  try_except (volatility_risk df).

(** *** F. Ichimoku cloud, simplified (5 points) *)

Definition ichimoku_points (current tenkan kijun : num) : Z :=
  if notna tenkan && notna kijun then
    if ngt current kijun && ngt tenkan kijun then
      let distance := nmul (ndiv (nsub current kijun) kijun) (Z2num 100) in
      if ngt distance (Z2num 10) then 5
      else if ngt distance (Z2num 5) then 4
      else 2
    else 0
  else 0.

Definition ichimoku (df : AugmentedSeries) : Score unit :=
  tenkan ← get (pd.iloc (pd.rolling 9 pd.win_mean (Close df)) (-1));
  kijun ← get (pd.iloc (pd.rolling 26 pd.win_mean (Close df)) (-1));
  current ← get (pd.iloc (Close df) (-1));
  add (ichimoku_points current tenkan kijun).

Definition score_ichimoku (df : AugmentedSeries) : Z :=
  try_except (ichimoku df).

(** *** Total score and classification *)

Definition classify (total : Z) : string * string :=
  if decide (100 ≤ total) then ("Exceptional", "#047857")
  else if decide (85 ≤ total) then ("Very High", "#065f46")
  else if decide (70 ≤ total) then ("High", "#059669")
  else if decide (55 ≤ total) then ("Medium", "#d97706")
  else if decide (40 ≤ total) then ("Low", "#dc2626")
  else ("Weak", "#991b1b").

Definition calculate_total_score (df : AugmentedSeries) : ScoreResult :=
  let a := score_trend_alignment df in
  let b := score_momentum_strength df in
  let c := score_volume_liquidity df in
  let d := score_price_action_breakouts df in
  let e := score_volatility_risk df in
  let f := score_ichimoku df in
  let scores : gmap string Z :=
    <["Ichimoku Cloud" := f]>
      (<["Volatility & Risk" := e]>
        (<["Price Action & Breakouts" := d]>
          (<["Volume & Liquidity" := c]>
            (<["Momentum & Strength" := b]>
              (<["Trend Alignment" := a]> ∅))))) in
  let total := a + b + c + d + e + f in
  {| total_score := total;
     classification := (classify total).1;
     color := (classify total).2;
     category_scores := scores |}.

End ScoringEngine.

(** ** Running the model *)

(** The engine has no validation step and no [raise]: every pandas
    operation it uses is defined on any numeric column, so a run always
    returns the augmented frame. *)
Inductive result (A : Type) : Type :=
| Ok (a : A)
| InvalidInput.
Arguments Ok {A} a.
Arguments InvalidInput {A}.

Definition TechnicalEngine_run (fsqrt : Qc → Qc) (s : PriceSeries)
  : result AugmentedSeries :=
  Ok (calculate_all_indicators fsqrt s).


(** Instances of the two library functions left abstract above, to run the
    model: the exact least-squares slope over [x = 0, 1, ...] (numpy raises
    on an empty or non-finite input), and the square root truncated to six
    decimals. *)
Definition lstsq_slope (ys : list num) : option num :=
  if forallb is_fin ys && negb (bool_decide (ys = [])) then
    let xs := (λ i, Z2num (Z.of_nat i)) <$> seq 0 (length ys) in
    let n := pd.count ys in
    let sx := pd.nsum xs in
    let sy := pd.nsum ys in
    let sxx := pd.nsum (zip_with nmul xs xs) in
    let sxy := pd.nsum (zip_with nmul xs ys) in
    Some (ndiv (nsub (nmul n sxy) (nmul sx sy))
               (nsub (nmul n sxx) (nmul sx sx)))
  else None.

Definition sqrt6 (q : Qc) : Qc :=
  Q2Qc (Z.sqrt (Qnum q * 10 ^ 12 / Z.pos (Qden q)) # 10 ^ 6).

(** Sample series: [n] bars with the same price and volume on consecutive
    days. *)
Definition flat_series (n : nat) (c : Qc) (v : Z) : PriceSeries :=
  (λ i, {| date := Z.of_nat i; open := c; high := c; low := c;
           close := c; volume := v |}) <$> seq 0 n.

(** ** Definitions used in the statements *)

(** The smoothing factor of [ewm(span=p)] as a rational. *)
Definition alpha (p : nat) : Qc :=
  (Q2Qc (inject_Z 2) / Q2Qc (inject_Z (Z.of_nat p + 1)))%Qc.

(** The recursion of [ewm_mean] on finite values. *)
Fixpoint ewm_q (a prev : Qc) (xs : list Qc) : list Qc :=
  match xs with
  | [] => []
  | x :: r => let y := ((1 - a) * prev + a * x)%Qc in y :: ewm_q a y r
  end.

(** [const_from k v xs]: every entry of [xs] from index [k] on is [v]. *)
Definition const_from {A} (k : nat) (v : A) (xs : list A) : Prop :=
  ∀ j : nat, (k ≤ j)%nat → (j < length xs)%nat → xs !! j = Some v.

(** A flat series: the same close, high, low and volume on every bar. *)
Definition flat (c : Qc) (v : Z) (s : PriceSeries) : bool :=
  forallb (λ b, bool_decide
                  (close b = c ∧ high b = c ∧ low b = c ∧ volume b = v)) s.

(** The numeric columns of an augmented series, and alignment: every
    column has one entry per bar. *)
Definition columns (df : AugmentedSeries) : list pd.Series :=
  [Open df; High df; Low df; Close df; Volume df;
   EMA_20 df; SMA_50 df; SMA_200 df;
   EMA_20_slope df; SMA_50_slope df; SMA_200_slope df;
   RSI df; ROC df; MACD df; MACD_Signal df; MACD_Hist df; Hist_Momentum df;
   ADX df; Plus_DI df; Minus_DI df; DI_Spread df;
   Vol_SMA_20 df; Vol_SMA_50 df; Vol_Ratio df; OBV df; OBV_EMA df;
   BB_Upper df; BB_Middle df; BB_Lower df; BB_Position df;
   ATR df; ATR_Percent df; High_52W df; High_4W df; High_2W df].

Definition aligned (n : nat) (df : AugmentedSeries) : Prop :=
  Forall (λ xs, length xs = n) (columns df) ∧ length (ADX_Rising df) = n.

(** Values that are numbers: finite, positive, non-negative; and values
    that are not an infinity. *)
Definition finite (x : num) : Prop := ∃ q : Qc, x = Fin q.
Definition positive (x : num) : Prop := ∃ q : Qc, x = Fin q ∧ (0 < q)%Qc.
Definition nonneg (x : num) : Prop := ∃ q : Qc, x = Fin q ∧ (0 <= q)%Qc.
Definition no_inf (x : num) : Prop := x = NaN ∨ finite x.

(** The entry of [xs] at index [i] exists and satisfies [P]. *)
Definition holds_at (P : num → Prop) (xs : pd.Series) (i : nat) : Prop :=
  ∃ x : num, xs !! i = Some x ∧ P x.



(** Sample series: [n] flat bars at price [c] followed by one bar at price
    [d]. *)
Definition step_series (n : nat) (c d : Qc) (v : Z) : PriceSeries :=
  flat_series n c v ++
  [{| date := Z.of_nat n; open := d; high := d; low := d; close := d;
      volume := v |}].

(** [within h m]: running [m] adds between [0] and [h] points, whether it
    ends normally or by an exception. *)
Definition within {A} (h : Z) (m : Score A) : Prop :=
  ∀ s, s ≤ (m s).2 ≤ s + h.

(** ** Result cache

    [_cache] and [_cache_timestamps] with their two accessors.  The clock
    [datetime.now().timestamp()] is the argument [now], in seconds. *)

Module Cache.

Record state (V : Type) : Type := {
  cache : gmap string V;
  cache_timestamps : gmap string Qc
}.
Arguments cache {V} _.
Arguments cache_timestamps {V} _.

Definition CACHE_DURATION : Qc := Q2Qc (inject_Z 3600).

Definition empty {V} : state V :=
  {| cache := ∅; cache_timestamps := ∅ |}.

Definition get_cached_data {V} (now : Qc) (st : state V) (key : string)
  : option V :=
  match cache st !! key with
  | Some data =>
      let timestamp := default 0%Qc (cache_timestamps st !! key) in
      if bool_decide (now - timestamp < CACHE_DURATION)%Qc
      then Some data else None
  | None => None
  end.

Definition set_cached_data {V} (now : Qc) (st : state V) (key : string)
    (data : V) : state V :=
  {| cache := <[key := data]> (cache st);
     cache_timestamps := <[key := now]> (cache_timestamps st) |}.

End Cache.

(** ** Helper functions over the last row *)

(** [latest = df.iloc[-1]], with the fields the helpers read; [None] is the
    [IndexError] of a frame without rows. *)
Record LatestRow : Type := {
  row_Close : num;
  row_EMA_20 : num;
  row_SMA_50 : num;
  row_SMA_200 : num;
  row_RSI : num;
  row_MACD : num;
  row_MACD_Signal : num;
  row_MACD_Hist : num;
  row_ADX : num;
  row_Vol_Ratio : num;
  row_High_52W : num
}.

Definition last_row (df : AugmentedSeries) : option LatestRow :=
  c ← pd.iloc (Close df) (-1);
  e ← pd.iloc (EMA_20 df) (-1);
  m ← pd.iloc (SMA_50 df) (-1);
  l ← pd.iloc (SMA_200 df) (-1);
  r ← pd.iloc (RSI df) (-1);
  macd ← pd.iloc (MACD df) (-1);
  sig ← pd.iloc (MACD_Signal df) (-1);
  hist ← pd.iloc (MACD_Hist df) (-1);
  adx ← pd.iloc (ADX df) (-1);
  vr ← pd.iloc (Vol_Ratio df) (-1);
  h ← pd.iloc (High_52W df) (-1);
  Some {| row_Close := c; row_EMA_20 := e; row_SMA_50 := m;
          row_SMA_200 := l; row_RSI := r; row_MACD := macd;
          row_MACD_Signal := sig; row_MACD_Hist := hist; row_ADX := adx;
          row_Vol_Ratio := vr; row_High_52W := h |}.

(** The signals appended for one row, in the order of the source. *)
Definition row_signals (latest : LatestRow) : list string :=
  (if notna (row_MACD latest) && notna (row_MACD_Signal latest)
      && (ngt (row_MACD latest) (row_MACD_Signal latest)
          && ngt (row_MACD_Hist latest) (Z2num 0))
   then ["Bullish MACD crossover"] else []) ++
  (if notna (row_RSI latest) then
     if between (Z2num 60) (row_RSI latest) (Z2num 70)
     then ["RSI in strong momentum zone"]
     else if ngt (row_RSI latest) (Z2num 80)
     then ["RSI overbought - potential pullback"]
     else []
   else []) ++
  (if notna (row_SMA_50 latest) && notna (row_SMA_200 latest)
      && (ngt (row_Close latest) (row_SMA_50 latest)
          && ngt (row_SMA_50 latest) (row_SMA_200 latest))
   then ["Strong uptrend - all MAs aligned"] else []) ++
  (if notna (row_Vol_Ratio latest)
      && ngt (row_Vol_Ratio latest) (Z2num 150)
   then ["High volume surge detected"] else []) ++
  (if notna (row_High_52W latest)
      && nge (row_Close latest) (nmul (row_High_52W latest) (dec 995 1000))
   then ["Near 52-week high breakout"] else []).

Definition generate_trading_signals (df : AugmentedSeries) : list string :=
  let signals :=
    match last_row df with
    | Some latest => row_signals latest
    | None => []
    end in
  if bool_decide (signals = []) then ["No strong signals detected"]
  else signals.

(** The [factors] of [calculate_trend_strength]: a whole or half number per
    criterion. *)
Definition trend_factors (latest : LatestRow) : Qc :=
  ((if notna (row_EMA_20 latest) && notna (row_SMA_50 latest)
       && notna (row_SMA_200 latest) then
      if ngt (row_Close latest) (row_EMA_20 latest)
         && ngt (row_EMA_20 latest) (row_SMA_50 latest)
         && ngt (row_SMA_50 latest) (row_SMA_200 latest)
      then Q2Qc 2
      else if ngt (row_Close latest) (row_SMA_50 latest)
              && ngt (row_SMA_50 latest) (row_SMA_200 latest)
      then Q2Qc 1
      else 0
    else 0) +
   (if notna (row_ADX latest) then
      if ngt (row_ADX latest) (Z2num 30) then Q2Qc 1
      else if ngt (row_ADX latest) (Z2num 25) then Q2Qc (1 # 2)
      else 0
    else 0) +
   (if notna (row_RSI latest)
       && between (Z2num 55) (row_RSI latest) (Z2num 75)
    then Q2Qc 1 else 0) +
   (if notna (row_Vol_Ratio latest)
       && ngt (row_Vol_Ratio latest) (Z2num 120)
    then Q2Qc (1 # 2) else 0))%Qc.

Definition calculate_trend_strength (df : AugmentedSeries) : string :=
  match last_row df with
  | Some latest =>
      let max_factors := Q2Qc 5 in
      let strength_ratio := (trend_factors latest / max_factors)%Qc in
      if bool_decide (Q2Qc (8 # 10) <= strength_ratio)%Qc then "Very Strong"
      else if bool_decide (Q2Qc (6 # 10) <= strength_ratio)%Qc then "Strong"
      else if bool_decide (Q2Qc (4 # 10) <= strength_ratio)%Qc
      then "Moderate"
      else if bool_decide (Q2Qc (2 # 10) <= strength_ratio)%Qc then "Weak"
      else "Very Weak"
  | None => "Unknown"
  end.

(** ** Screening filters *)

Module Screen.

(** [ScreeningFilters]; [None] is Python's [None]. *)
Record ScreeningFilters : Type := {
  strength_levels : option (list string);
  min_score : option Z;
  max_score : option Z;
  min_adx : option Z;
  rsi_min : option Z;
  rsi_max : option Z;
  volume_surge_min : option Z;
  breakout_type : option string;
  market_cap : option (list string);
  sectors : option (list string);
  min_price : option Qc;
  max_price : option Qc
}.

(** The defaults of the class. *)
Definition default_filters : ScreeningFilters :=
  {| strength_levels := None; min_score := Some 40; max_score := Some 120;
     min_adx := Some 20; rsi_min := Some 45; rsi_max := Some 80;
     volume_surge_min := Some 100; breakout_type := None;
     market_cap := None; sectors := None;
     min_price := None; max_price := None |}.

(** The fields of a result dictionary that the filters and the sort read;
    [adx] and [rsi] are [None] when the indicator is missing. *)
Record StockResult : Type := {
  symbol : string;
  sector : string;
  price : Qc;
  total_score : Z;
  classification : string;
  adx : option Qc;
  rsi : option Qc
}.

Definition ofZ (z : Z) : Qc := Q2Qc (inject_Z z).

(** Truth value of an optional integer, of an optional float and of an
    optional list: [None], zero and the empty list are false. *)
Definition truthy_Z (o : option Z) : bool :=
  match o with Some z => negb (bool_decide (z = 0)) | None => false end.
Definition truthy_Qc (o : option Qc) : bool :=
  match o with Some q => negb (bool_decide (q = 0%Qc)) | None => false end.
Definition truthy_list {A} (o : option (list A)) : bool :=
  match o with Some (_ :: _) => true | _ => false end.

(** [if flt: rs = [r for r in rs if keep r]] *)
Definition filter_if (flt : bool) (keep : StockResult → bool)
    (rs : list StockResult) : list StockResult :=
  if flt then List.filter keep rs else rs.

Definition in_list (x : string) (o : option (list string)) : bool :=
  bool_decide (x ∈ default [] o).

(** [x or d] *)
Definition or_default (o : option Z) (d : Z) : Z :=
  if truthy_Z o then default 0 o else d.

Definition apply_filters (f : ScreeningFilters) (results : list StockResult)
  : list StockResult :=
  let rs := results in
  let rs := filter_if (truthy_Z (min_score f))
              (λ r, bool_decide (default 0 (min_score f) ≤ total_score r)) rs in
  let rs := filter_if (truthy_Z (max_score f))
              (λ r, bool_decide (total_score r ≤ default 0 (max_score f))) rs in
  let rs := filter_if (truthy_list (strength_levels f))
              (λ r, in_list (classification r) (strength_levels f)) rs in
  let rs := filter_if (truthy_Z (min_adx f))
              (λ r, truthy_Qc (adx r) &&
                    bool_decide (ofZ (default 0%Z (min_adx f))
                                 <= default 0%Qc (adx r))%Qc) rs in
  let rs := filter_if (truthy_Z (rsi_min f) || truthy_Z (rsi_max f))
              (λ r, truthy_Qc (rsi r) &&
                    (bool_decide (ofZ (or_default (rsi_min f) 0%Z)
                                  <= default 0%Qc (rsi r))%Qc &&
                     bool_decide (default 0%Qc (rsi r)
                                  <= ofZ (or_default (rsi_max f) 100%Z))%Qc))
              rs in
  let rs := filter_if (truthy_list (sectors f))
              (λ r, in_list (sector r) (sectors f)) rs in
  let rs := filter_if (truthy_Qc (min_price f))
              (λ r, bool_decide (default 0%Qc (min_price f) <= price r)%Qc)
              rs in
  let rs := filter_if (truthy_Qc (max_price f))
              (λ r, bool_decide (price r <= default 0%Qc (max_price f))%Qc)
              rs in
  rs.

(** [rs.sort(key=lambda x: x['total_score'], reverse=True)]: a stable sort,
    the highest score first, results of equal score in their order. *)
Fixpoint insert_by_score (x : StockResult) (l : list StockResult)
  : list StockResult :=
  match l with
  | [] => [x]
  | y :: r =>
      if bool_decide (total_score x < total_score y)
      then y :: insert_by_score x r
      else x :: l
  end.

Definition sort_by_score (l : list StockResult) : list StockResult :=
  foldr insert_by_score [] l.

(** The filtering and sorting part of [screen_stocks]. *)
Definition screen (f : ScreeningFilters) (results : list StockResult)
  : list StockResult :=
  sort_by_score (apply_filters f results).

(** What a result has to satisfy to be kept, in one predicate. *)
Definition passes (f : ScreeningFilters) (r : StockResult) : Prop :=
  (∀ lo, min_score f = Some lo → lo ≠ 0 → lo ≤ total_score r) ∧
  (∀ hi, max_score f = Some hi → hi ≠ 0 → total_score r ≤ hi) ∧
  (∀ ls, strength_levels f = Some ls → ls ≠ [] → classification r ∈ ls) ∧
  (∀ a, min_adx f = Some a → a ≠ 0 →
     ∃ x, adx r = Some x ∧ x ≠ 0%Qc ∧ (ofZ a <= x)%Qc) ∧
  (truthy_Z (rsi_min f) || truthy_Z (rsi_max f) = true →
     ∃ x, rsi r = Some x ∧ x ≠ 0%Qc ∧
          (ofZ (or_default (rsi_min f) 0%Z) <= x)%Qc ∧
          (x <= ofZ (or_default (rsi_max f) 100%Z))%Qc) ∧
  (∀ ss, sectors f = Some ss → ss ≠ [] → sector r ∈ ss) ∧
  (∀ lo, min_price f = Some lo → lo ≠ 0%Qc → (lo <= price r)%Qc) ∧
  (∀ hi, max_price f = Some hi → hi ≠ 0%Qc → (price r <= hi)%Qc).

End Screen.

(** ** Definitions used in the further statements *)

(** Rank of a classification label, from "Weak" (0) to "Exceptional" (5). *)
Definition label_rank (label : string) : Z :=
  if bool_decide (label = "Exceptional") then 5
  else if bool_decide (label = "Very High") then 4
  else if bool_decide (label = "High") then 3
  else if bool_decide (label = "Medium") then 2
  else if bool_decide (label = "Low") then 1
  else 0.

(** A value that is missing or a number between [lo] and [hi]. *)
Definition nan_or_within (lo hi : Z) (x : num) : Prop :=
  x = NaN ∨
  ∃ q : Qc, x = Fin q ∧
            (Q2Qc (inject_Z lo) <= q)%Qc ∧ (q <= Q2Qc (inject_Z hi))%Qc.

(** Sample series: [n] flat bars at price [c], then a bar one below and a
    bar two above. *)
Definition pullback_series (n : nat) (c : Qc) (v : Z) : PriceSeries :=
  flat_series n c v ++
  [{| date := Z.of_nat n; open := c - 1; high := c - 1; low := c - 1;
      close := c - 1; volume := v |};
   {| date := Z.of_nat n + 1; open := c + 2; high := c + 2; low := c + 2;
      close := c + 2; volume := v |}]%Qc.

(** Sample results for the screening functions. *)
Definition sample_result (name : string) (score : Z) (a r : Z)
  : Screen.StockResult :=
  {| Screen.symbol := name; Screen.sector := "IT";
     Screen.price := Q2Qc 100; Screen.total_score := score;
     Screen.classification := (classify score).1;
     Screen.adx := Some (Screen.ofZ a); Screen.rsi := Some (Screen.ofZ r) |}.

Definition sample_results : list Screen.StockResult :=
  [sample_result "TCS.NS" 62 30 60; sample_result "INFY.NS" 88 35 65;
   sample_result "WIPRO.NS" 62 25 50; sample_result "HCLTECH.NS" 35 40 70;
   sample_result "TECHM.NS" 70 10 55].

(** Warm-up of a column.  [warms_at k xs]: the entries of [xs] before index
    [k] are missing and the entries from index [k] on are numbers.
    [missing_before k xs]: the entries of [xs] before index [k] are
    missing (later ones may be missing as well). *)
Definition warms_at (k : nat) (xs : pd.Series) : Prop :=
  ∀ (i : nat) (x : num),
    xs !! i = Some x → ((i < k)%nat → x = NaN) ∧ ((k ≤ i)%nat → finite x).

Definition missing_before (k : nat) (xs : pd.Series) : Prop :=
  ∀ (i : nat) (x : num), xs !! i = Some x → (i < k)%nat → x = NaN.

(** * Properties *)

(** ** The scoring monad *)

Lemma bind_get {A B} (o : option A) (k : A → Score B) (s : Z) :
  (get o ≫= k) s = match o with Some a => k a s | None => (None, s) end.
Proof. by destruct o. Qed.

Lemma bind_add {B} (p : Z) (k : unit → Score B) (s : Z) :
  (add p ≫= k) s = k tt (s + p).
Proof. done. Qed.

Lemma within_ret {A} (a : A) : within 0 (mret a : Score A).
Proof. intros s. simpl. lia. Qed.

Lemma within_add p h : 0 ≤ p ≤ h → within h (add p).
Proof. intros Hp s. simpl. lia. Qed.

Lemma within_weaken {A} h h' (m : Score A) :
  h ≤ h' → within h m → within h' m.
Proof. intros Hh Hm s. specialize (Hm s). lia. Qed.

Lemma within_get_bind {A B} h (o : option A) (k : A → Score B) :
  0 ≤ h → (∀ a, within h (k a)) → within h (get o ≫= k).
Proof.
  intros Hh Hk s. rewrite bind_get. destruct o as [a|]; [apply Hk|].
  simpl. lia.
Qed.

Lemma within_add_bind {B} p hp h (k : unit → Score B) :
  0 ≤ p ≤ hp → within h (k tt) → within (hp + h) (add p ≫= k).
Proof.
  intros Hp Hk s. rewrite bind_add. specialize (Hk (s + p)). lia.
Qed.

Lemma try_except_within h (body : Score unit) :
  within h body → 0 ≤ try_except body ≤ h.
Proof. intros Hb. specialize (Hb 0). unfold try_except. lia. Qed.

(** ** Points of the sub-rules *)

Ltac points := intros; repeat case_match; lia.

Lemma price_position_range c e s l : 0 ≤ price_position c e s l ≤ 12.
Proof. unfold price_position. points. Qed.
Lemma ma_slopes_range e s l : 0 ≤ ma_slopes e s l ≤ 8.
Proof. unfold ma_slopes. points. Qed.
Lemma ma_divergence_range e s l : 0 ≤ ma_divergence e s l ≤ 5.
Proof. unfold ma_divergence. points. Qed.
Lemma adx_points_range a : 0 ≤ adx_points a ≤ 10.
Proof. unfold adx_points. points. Qed.
Lemma di_spread_points_range d r : 0 ≤ di_spread_points d r ≤ 5.
Proof. unfold di_spread_points. points. Qed.
Lemma rsi_points_range r : 0 ≤ rsi_points r ≤ 8.
Proof. unfold rsi_points. points. Qed.
Lemma roc_points_range r : 0 ≤ roc_points r ≤ 4.
Proof. unfold roc_points. points. Qed.
Lemma macd_points_range m s h hm : 0 ≤ macd_points m s h hm ≤ 8.
Proof. unfold macd_points. points. Qed.
Lemma volume_surge_range v : 0 ≤ volume_surge v ≤ 8.
Proof. unfold volume_surge. points. Qed.
Lemma obv_points_range o e h : 0 ≤ obv_points o e h ≤ 6.
Proof. unfold obv_points. points. Qed.
Lemma volume_price_confirmation_range v p :
  0 ≤ volume_price_confirmation v p ≤ 6.
Proof. unfold volume_price_confirmation. points. Qed.
Lemma weekly_momentum_range closes : 0 ≤ weekly_momentum closes ≤ 10.
Proof. unfold weekly_momentum. points. Qed.
Lemma breakout_quality_range c h52 h4 h2 v :
  0 ≤ breakout_quality c h52 h4 h2 v ≤ 8.
Proof. unfold breakout_quality. points. Qed.
Lemma bollinger_position_range b : 0 ≤ bollinger_position b ≤ 6.
Proof. unfold bollinger_position. points. Qed.
Lemma atr_points_range a p : 0 ≤ atr_points a p ≤ 4.
Proof. unfold atr_points. points. Qed.
Lemma ichimoku_points_range c t k : 0 ≤ ichimoku_points c t k ≤ 5.
Proof. unfold ichimoku_points. points. Qed.

Lemma support_resistance_within polyfit lows highs :
  within 7 (support_resistance polyfit lows highs).
Proof.
  unfold support_resistance. case_decide.
  - apply within_get_bind; [lia|]. intros a.
    case_match; apply within_add; lia.
  - eapply within_weaken; [|apply within_ret]. lia.
Qed.

(** ** Range of the six category scores *)

Section Categories.
Variable polyfit : list num → option num.
Variable df : AugmentedSeries.

Ltac reads := repeat (apply within_get_bind; [lia|intros ?]).

Lemma score_trend_alignment_range : 0 ≤ score_trend_alignment df ≤ 25.
Proof.
  apply try_except_within. unfold trend_alignment. reads.
  apply (within_add_bind _ 12 13); [apply price_position_range|]. reads.
  apply (within_add_bind _ 8 5); [apply ma_slopes_range|].
  apply within_add, ma_divergence_range.
Qed.

Lemma score_momentum_strength_range : 0 ≤ score_momentum_strength df ≤ 35.
Proof.
  apply try_except_within. unfold momentum_strength. reads.
  apply (within_add_bind _ 10 25); [apply adx_points_range|]. reads.
  apply (within_add_bind _ 5 20); [apply di_spread_points_range|]. reads.
  apply (within_add_bind _ 8 12); [apply rsi_points_range|]. reads.
  apply (within_add_bind _ 4 8); [apply roc_points_range|]. reads.
  apply within_add, macd_points_range.
Qed.

Lemma score_volume_liquidity_range : 0 ≤ score_volume_liquidity df ≤ 20.
Proof.
  apply try_except_within. unfold volume_liquidity. reads.
  apply (within_add_bind _ 8 12); [apply volume_surge_range|]. reads.
  apply (within_add_bind _ 6 6); [apply obv_points_range|].
  apply within_add, volume_price_confirmation_range.
Qed.

Lemma score_price_action_breakouts_range :
  0 ≤ score_price_action_breakouts polyfit df ≤ 25.
Proof.
  apply try_except_within. unfold price_action_breakouts. reads.
  apply (within_add_bind _ 10 15); [apply weekly_momentum_range|]. reads.
  apply (within_add_bind _ 8 7); [apply breakout_quality_range|].
  apply support_resistance_within.
Qed.

Lemma score_volatility_risk_range : 0 ≤ score_volatility_risk df ≤ 10.
Proof.
  apply try_except_within. unfold volatility_risk. reads.
  apply (within_add_bind _ 6 4); [apply bollinger_position_range|]. reads.
  apply within_add, atr_points_range.
Qed.

Lemma score_ichimoku_range : 0 ≤ score_ichimoku df ≤ 5.
Proof.
  apply try_except_within. unfold ichimoku. reads.
  apply within_add, ichimoku_points_range.
Qed.

End Categories.

(** ** Score result *)

(** C1. For every augmented series, whatever its content, each of the six
    category scores of the result lies between 0 and the cap of its
    category (25, 35, 20, 25, 10, 5), and [total_score] is the sum of the
    six, hence between 0 and 120. *)
Theorem category_scores_within_caps
    (polyfit : list num → option num) (df : AugmentedSeries) :
  let r := calculate_total_score polyfit df in
  ∃ a b c d e f : Z,
    category_scores r =
      list_to_map [("Ichimoku Cloud", f); ("Volatility & Risk", e);
                   ("Price Action & Breakouts", d); ("Volume & Liquidity", c);
                   ("Momentum & Strength", b); ("Trend Alignment", a)] ∧
    0 ≤ a ≤ 25 ∧ 0 ≤ b ≤ 35 ∧ 0 ≤ c ≤ 20 ∧
    0 ≤ d ≤ 25 ∧ 0 ≤ e ≤ 10 ∧ 0 ≤ f ≤ 5 ∧
    total_score r = a + b + c + d + e + f ∧
    0 ≤ total_score r ≤ 120.
Proof.
  intros r.
  pose proof (score_trend_alignment_range df).
  pose proof (score_momentum_strength_range df).
  pose proof (score_volume_liquidity_range df).
  pose proof (score_price_action_breakouts_range polyfit df).
  pose proof (score_volatility_risk_range df).
  pose proof (score_ichimoku_range df).
  exists (score_trend_alignment df), (score_momentum_strength df),
    (score_volume_liquidity df), (score_price_action_breakouts polyfit df),
    (score_volatility_risk df), (score_ichimoku df).
  repeat split; try done; subst r; simpl; lia.
Qed.

(** C6. A total score between 0 and 120 is labelled "Exceptional" from 100,
    "Very High" from 85, "High" from 70, "Medium" from 55, "Low" from 40 and
    "Weak" below; each tier includes its lower bound, and the label of a
    result is the label of its total. *)
Theorem classification_thresholds (s : Z) :
  0 ≤ s ≤ 120 →
  (100 ≤ s → (classify s).1 = "Exceptional") ∧
  (85 ≤ s < 100 → (classify s).1 = "Very High") ∧
  (70 ≤ s < 85 → (classify s).1 = "High") ∧
  (55 ≤ s < 70 → (classify s).1 = "Medium") ∧
  (40 ≤ s < 55 → (classify s).1 = "Low") ∧
  (s < 40 → (classify s).1 = "Weak") ∧
  ∀ polyfit df,
    total_score (calculate_total_score polyfit df) = s →
    classification (calculate_total_score polyfit df) = (classify s).1.
Proof.
  intros _.
  repeat split; try (by intros polyfit df <-);
    unfold classify; intros; repeat case_decide; try done; lia.
Qed.

Lemma classification_thresholds_witness :
  (classify 100).1 = "Exceptional" ∧ (classify 99).1 = "Very High".
Proof.
  split.
  - apply (classification_thresholds 100); lia.
  - apply (classification_thresholds 99); lia.
Defined.

(** ** Missing values in the sub-rules *)

Lemma nle_nan_l a : nle NaN a = false.
Proof. done. Qed.
Lemma nle_nan_r a : nle a NaN = false.
Proof. by destruct a. Qed.
Lemma nlt_nan_l a : nlt NaN a = false.
Proof. done. Qed.
Lemma nlt_nan_r a : nlt a NaN = false.
Proof. by destruct a. Qed.

Lemma price_position_nan c e s l :
  e = NaN ∨ s = NaN ∨ l = NaN → price_position c e s l = 0.
Proof.
  unfold price_position. intros [-> | [-> | ->]]; simpl;
    rewrite ?andb_false_r; done.
Qed.

Lemma ma_divergence_nan e s l :
  e = NaN ∨ s = NaN ∨ l = NaN → ma_divergence e s l = 0.
Proof.
  unfold ma_divergence. intros [-> | [-> | ->]]; simpl;
    rewrite ?andb_false_r; done.
Qed.



Lemma atr_points_nan a p : a = NaN ∨ p = NaN → atr_points a p = 0.
Proof.
  unfold atr_points. intros [-> | ->]; simpl; rewrite ?andb_false_r; done.
Qed.

Lemma ichimoku_points_nan c t k :
  t = NaN ∨ k = NaN → ichimoku_points c t k = 0.
Proof.
  unfold ichimoku_points. intros [-> | ->]; simpl;
    rewrite ?andb_false_r; done.
Qed.

Lemma volume_price_confirmation_nan :
  volume_price_confirmation NaN NaN = 0.
Proof. done. Qed.


(** A missing rolling high never passes the proximity test, so the
    [pd.notna] guards of the breakout tiers change nothing. *)
Lemma notna_nge c h k :
  notna h && nge c (nmul h k) = nge c (nmul h k).
Proof. by destruct h. Qed.

(** ** Breakout proximity *)

(** C8. The breakout sub-rule reads the rolling highs of the bar before the
    last one and the close and volume ratio of the last bar, and adds the
    points of the first tier that holds: 8 when the close is at least 0.995
    times the 52-week high and the volume ratio is above 150, else 7 when
    the close is at least 0.995 times the 4-week high, else 5 when it is at
    least 0.995 times the 2-week high, else 0. *)
Theorem breakout_proximity_tiers
    (polyfit : list num → option num) (df : AugmentedSeries)
    (current high_52w high_4w high_2w vol_ratio : num) :
  pd.iloc (Close df) (-1) = Some current →
  pd.iloc (High_52W df) (-2) = Some high_52w →
  pd.iloc (High_4W df) (-2) = Some high_4w →
  pd.iloc (High_2W df) (-2) = Some high_2w →
  pd.iloc (Vol_Ratio df) (-1) = Some vol_ratio →
  let near h := nge current (nmul h (dec 995 1000)) in
  let points :=
    if near high_52w && ngt vol_ratio (Z2num 150) then 8
    else if near high_4w then 7
    else if near high_2w then 5
    else 0 in
  ∀ s : Z,
    price_action_breakouts polyfit df s =
    (add (weekly_momentum (Close df));;
     add points;;
     support_resistance polyfit (pd.iloc_from (Low df) (-20))
                                (pd.iloc_from (High df) (-20))) s.
Proof.
  intros Hc H52 H4 H2 Hv near points s.
  unfold price_action_breakouts.
  rewrite Hc, bind_get, !bind_add, H52, bind_get, H4, bind_get, H2, bind_get,
    Hv, bind_get, !bind_add.
  replace (breakout_quality current high_52w high_4w high_2w vol_ratio)
    with points; [done|].
  unfold points, near, breakout_quality. by rewrite !notna_nge.
Qed.

Lemma breakout_proximity_tiers_witness :
  (price_action_breakouts lstsq_slope
     (calculate_all_indicators sqrt6 (flat_series 30 (Q2Qc 100) 1000)) 0).2
  = 10.
Proof.
  erewrite breakout_proximity_tiers by (vm_compute; reflexivity).
  vm_compute. reflexivity.
Defined.

(** ** Failure semantics of the scoring engine *)

Lemma adx_points_nan : adx_points NaN = 0.
Proof. done. Qed.
Lemma rsi_points_nan : rsi_points NaN = 0.
Proof. done. Qed.
Lemma roc_points_nan : roc_points NaN = 0.
Proof. done. Qed.
Lemma volume_surge_nan : volume_surge NaN = 0.
Proof. done. Qed.
Lemma bollinger_position_nan : bollinger_position NaN = 0.
Proof. done. Qed.

(** A lookup in an empty column raises. *)
Lemma iloc_nil {A} (k : Z) : pd.iloc (@nil A) k = None.
Proof. unfold pd.iloc. simpl. repeat case_decide; done || lia. Qed.





(** ** Exponential moving average *)

Lemma Q2Qc_inject_Z_ne_0 (z : Z) : z ≠ 0 → Q2Qc (inject_Z z) ≠ 0%Qc.
Proof.
  intros Hz Heq. apply Q2Qc_eq_iff in Heq.
  unfold Qeq in Heq. simpl in Heq. lia.
Qed.

Lemma Q2Qc_inject_Z_pos (z : Z) : 0 < z → (0 < Q2Qc (inject_Z z))%Qc.
Proof.
  intros Hz. unfold Qclt. simpl. rewrite !Qred_correct.
  unfold Qlt. simpl. lia.
Qed.

Lemma ewm_alpha_fin (p : nat) : pd.ewm_alpha p = Fin (alpha p).
Proof.
  unfold pd.ewm_alpha, Z2num, ndiv, alpha.
  case_decide as Hz; [|done].
  apply Q2Qc_inject_Z_ne_0 in Hz; [done|lia].
Qed.

Lemma ewm_from_fin (a prev : Qc) (xs : list Qc) :
  pd.ewm_from (Fin a) (Fin prev) (Fin <$> xs) = Fin <$> ewm_q a prev xs.
Proof.
  revert prev. induction xs as [|x xs IH]; intros prev; [done|].
  simpl. f_equal. apply IH.
Qed.

Lemma length_ewm_q a prev xs : length (ewm_q a prev xs) = length xs.
Proof.
  revert prev. induction xs as [|x xs IH]; intros prev; simpl; [done|].
  by rewrite IH.
Qed.

(** The step of the recursion, with the previous output either the seed
    (index 0) or the output at the index before. *)
Lemma ewm_q_step a prev xs i c y :
  xs !! S i = Some c → (prev :: ewm_q a prev xs) !! S i = Some y →
  ewm_q a prev xs !! S i = Some ((1 - a) * y + a * c)%Qc.
Proof.
  revert prev xs y. induction i as [|i IH]; intros prev xs y.
  - destruct xs as [|x0 [|x1 xs]]; simpl; try done.
    by intros [= <-] [= <-].
  - destruct xs as [|x0 xs]; simpl; [done|].
    intros Hc Hy. by apply (IH _ xs).
Qed.

(** C7. For a non-empty close series and a period [p >= 1], the EMA column
    is defined at every index, starts at the first close, and satisfies
    [EMA[i] = alpha * close[i] + (1 - alpha) * EMA[i-1]] for [i > 0], with
    [alpha = 2 / (p + 1)]. *)
Theorem ema_seeded_recursion (close : list Qc) (p : nat) :
  (1 ≤ p)%nat → close ≠ [] →
  ∃ ema : list Qc,
    calculate_ema (Fin <$> close) p = Fin <$> ema ∧
    length ema = length close ∧
    ema !! 0%nat = close !! 0%nat ∧
    ∀ (i : nat) (c y : Qc),
      close !! S i = Some c → ema !! i = Some y →
      ema !! S i = Some (alpha p * c + (1 - alpha p) * y)%Qc.
Proof.
  intros _ Hne. destruct close as [|x0 xs]; [done|].
  exists (x0 :: ewm_q (alpha p) x0 xs).
  unfold calculate_ema, pd.ewm_mean. simpl.
  rewrite ewm_alpha_fin, ewm_from_fin.
  split; [done|]. split; [by rewrite length_ewm_q|]. split; [done|].
  intros i c y Hc Hy.
  rewrite Qcplus_comm.
  destruct i as [|i]; simpl in *.
  - destruct xs as [|x1 xs]; simpl in *; [done|]. congruence.
  - by apply ewm_q_step.
Qed.

Lemma ema_seeded_recursion_witness :
  ∃ ema : list Qc,
    calculate_ema (Fin <$> [Q2Qc 10; Q2Qc 13; Q2Qc 16]) 2 = Fin <$> ema ∧
    length ema = 3%nat ∧
    ema !! 0%nat = Some (Q2Qc 10) ∧
    ∀ (i : nat) (c y : Qc),
      [Q2Qc 10; Q2Qc 13; Q2Qc 16] !! S i = Some c → ema !! i = Some y →
      ema !! S i = Some (alpha 2 * c + (1 - alpha 2) * y)%Qc.
Proof.
  apply (ema_seeded_recursion [Q2Qc 10; Q2Qc 13; Q2Qc 16] 2); [lia|done].
Defined.

(** ** Series operations: lengths and entries *)

Section SeriesLemmas.
Local Open Scope nat_scope.

Lemma length_shift k xs : length (pd.shift k xs) = length xs.
Proof.
  unfold pd.shift. rewrite length_take, length_app, length_replicate. lia.
Qed.

Lemma length_diff k xs : length (pd.diff k xs) = length xs.
Proof. unfold pd.diff. rewrite length_zip_with, length_shift. lia. Qed.

Lemma length_pct_change k xs : length (pd.pct_change k xs) = length xs.
Proof. unfold pd.pct_change. rewrite length_zip_with, length_shift. lia. Qed.

Lemma length_rolling w agg xs : length (pd.rolling w agg xs) = length xs.
Proof. unfold pd.rolling. by rewrite length_fmap, length_seq. Qed.

Lemma length_ewm_from a prev xs : length (pd.ewm_from a prev xs) = length xs.
Proof.
  revert prev. induction xs as [|x xs IH]; intros prev; simpl; [done|].
  by rewrite IH.
Qed.

Lemma length_ewm_mean p xs : length (pd.ewm_mean p xs) = length xs.
Proof. destruct xs; simpl; [done|]. by rewrite length_ewm_from. Qed.

Lemma length_cumsum_from acc xs :
  length (pd.cumsum_from acc xs) = length xs.
Proof.
  revert acc. induction xs as [|x xs IH]; intros acc; simpl; [done|].
  by rewrite IH.
Qed.

Lemma length_fillna v xs : length (pd.fillna v xs) = length xs.
Proof. unfold pd.fillna. by rewrite length_fmap. Qed.

Lemma lookup_shift k xs i :
  i < length xs →
  pd.shift k xs !! i = if decide (i < k) then Some NaN else xs !! (i - k).
Proof.
  intros Hi. unfold pd.shift. rewrite lookup_take_lt by done.
  case_decide.
  - rewrite lookup_app_l by (rewrite length_replicate; lia).
    by apply lookup_replicate_2.
  - rewrite lookup_app_r by (rewrite length_replicate; lia).
    by rewrite length_replicate.
Qed.

Lemma lookup_rolling w agg xs i :
  i < length xs →
  pd.rolling w agg xs !! i =
  Some (if decide (w ≤ S i) then agg (pd.window w i xs) else NaN).
Proof.
  intros Hi. unfold pd.rolling.
  by rewrite list_lookup_fmap, lookup_seq_lt.
Qed.

Lemma lookup_rolling_early w agg xs i :
  i < length xs → S i < w → pd.rolling w agg xs !! i = Some NaN.
Proof. intros Hi Hw. rewrite lookup_rolling by done. case_decide; [lia|done]. Qed.

Lemma lookup_window {A} w i (xs : list A) j :
  w ≤ S i → j < w → pd.window w i xs !! j = xs !! (S i - w + j).
Proof.
  intros Hw Hj. unfold pd.window.
  by rewrite lookup_take_lt, lookup_drop by done.
Qed.

Lemma length_window {A} w i (xs : list A) :
  w ≤ S i → i < length xs → length (pd.window w i xs) = w.
Proof.
  intros Hw Hi. unfold pd.window. rewrite length_take, length_drop. lia.
Qed.

(** *** Lookups from the end *)

Lemma iloc_last {A} (xs : list A) :
  pd.iloc xs (-1) = if decide (xs = []) then None else xs !! (length xs - 1).
Proof.
  unfold pd.iloc. destruct xs as [|x xs]; [done|]. cbv zeta.
  rewrite (decide_True (P := (-1 < 0)%Z)) by lia.
  rewrite decide_True by (simpl length; lia).
  rewrite decide_False by done. f_equal. simpl length. lia.
Qed.

Lemma iloc_last_Some {A} (xs : list A) (x : A) :
  0 < length xs → xs !! (length xs - 1) = Some x → pd.iloc xs (-1) = Some x.
Proof.
  intros Hn Hx. rewrite iloc_last. case_decide as He; [|done].
  subst xs. simpl in Hn. lia.
Qed.

Lemma iloc_last_is_Some {A} (xs : list A) :
  0 < length xs → ∃ x, pd.iloc xs (-1) = Some x.
Proof.
  intros Hn. destruct (lookup_lt_is_Some_2 xs (length xs - 1)) as [x Hx];
    [lia|]. exists x. by apply iloc_last_Some.
Qed.

(** *** Series that are constant from an index on *)

Lemma const_from_weaken {A} k k' (v : A) xs :
  k ≤ k' → const_from k v xs → const_from k' v xs.
Proof. intros Hk Hc j Hj Hl. apply Hc; lia. Qed.

Lemma const_from_replicate {A} n (v : A) : const_from 0 v (replicate n v).
Proof.
  intros j _ Hj. rewrite length_replicate in Hj. by apply lookup_replicate_2.
Qed.

Lemma const_from_0 {A} (v : A) xs :
  const_from 0 v xs → xs = replicate (length xs) v.
Proof.
  intros Hc. apply list_eq. intros j.
  destruct (decide (j < length xs)).
  - rewrite Hc by lia. by rewrite lookup_replicate_2.
  - rewrite lookup_ge_None_2 by lia.
    symmetry. apply lookup_ge_None_2. rewrite length_replicate. lia.
Qed.

Lemma const_from_fmap {A B} (f : A → B) k v xs :
  const_from k v xs → const_from k (f v) (f <$> xs).
Proof.
  intros Hc j Hj Hl. rewrite length_fmap in Hl.
  by rewrite list_lookup_fmap, Hc.
Qed.

Lemma const_from_zip_with {A B C} (f : A → B → C) k1 k2 a b xs ys :
  const_from k1 a xs → const_from k2 b ys →
  const_from (k1 `max` k2) (f a b) (zip_with f xs ys).
Proof.
  intros Ha Hb j Hj Hl. rewrite length_zip_with in Hl.
  rewrite lookup_zip_with, Ha, Hb by lia. done.
Qed.

Lemma const_from_shift k m v xs :
  const_from m v xs → const_from (m + k) v (pd.shift k xs).
Proof.
  intros Hc j Hj Hl. rewrite length_shift in Hl.
  rewrite lookup_shift by done. rewrite decide_False by lia.
  apply Hc; lia.
Qed.

Lemma window_const {A} w i k (v : A) xs :
  const_from k v xs → w ≤ S i → k + w ≤ S i → i < length xs →
  pd.window w i xs = replicate w v.
Proof.
  intros Hc Hw Hk Hi. apply list_eq. intros j.
  destruct (decide (j < w)).
  - rewrite lookup_window, lookup_replicate_2 by done. apply Hc; lia.
  - rewrite !lookup_ge_None_2; [done| |].
    + rewrite length_replicate. lia.
    + rewrite length_window by done. lia.
Qed.

Lemma const_from_rolling w agg k v xs :
  0 < w → const_from k v xs →
  const_from (k + w - 1) (agg (replicate w v)) (pd.rolling w agg xs).
Proof.
  intros Hw Hc j Hj Hl. rewrite length_rolling in Hl.
  rewrite lookup_rolling by done. rewrite decide_True by lia.
  by rewrite (window_const w j k v) by (done || lia).
Qed.

Lemma iloc_last_const {A} k (v : A) xs :
  const_from k v xs → k < length xs → pd.iloc xs (-1) = Some v.
Proof.
  intros Hc Hk. apply iloc_last_Some; [lia|]. apply Hc; lia.
Qed.

End SeriesLemmas.

(** ** Flat series *)

Lemma const_from_eq {A} k (v v' : A) xs :
  const_from k v xs → v = v' → const_from k v' xs.
Proof. by intros H <-. Qed.

Lemma const_from_le {A} k k' (v : A) xs :
  const_from k v xs → (k ≤ k')%nat → const_from k' v xs.
Proof. intros H Hk. by apply (const_from_weaken k). Qed.

Lemma nsub_diag (c : Qc) : nsub (Fin c) (Fin c) = Fin 0%Qc.
Proof. unfold nsub, nneg, nadd. by rewrite Qcplus_opp_r. Qed.

Lemma fmap_const_col {A} (f : Bar → A) (v : A) (s : PriceSeries) :
  (∀ b, b ∈ s → f b = v) → f <$> s = replicate (length s) v.
Proof.
  induction s as [|b s IH]; intros Hf; [done|]. simpl. f_equal.
  - apply Hf. left.
  - apply IH. intros b' Hb'. apply Hf. by right.
Qed.

Lemma ewm_from_replicate a n (c : Qc) :
  pd.ewm_from (Fin a) (Fin c) (replicate n (Fin c)) = replicate n (Fin c).
Proof.
  induction n as [|n IH]; [done|]. cbn [replicate pd.ewm_from].
  replace (nadd (nmul (nsub (Fin 1%Qc) (Fin a)) (Fin c)) (nmul (Fin a) (Fin c)))
    with (Fin c); [by rewrite IH|].
  unfold nsub, nneg, nmul, nadd. f_equal. ring.
Qed.

Lemma ewm_mean_replicate p n (c : Qc) :
  pd.ewm_mean p (replicate n (Fin c)) = replicate n (Fin c).
Proof.
  destruct n as [|n]; [done|]. simpl.
  by rewrite ewm_alpha_fin, ewm_from_replicate.
Qed.

Section Flat.
Variable fsqrt : Qc → Qc.
Variables (c : Qc) (v : Z) (s : PriceSeries).
Hypothesis c_pos : (0 < c)%Qc.
Hypothesis flat_s : flat c v s = true.

Let n := length s.
Let px : pd.Series := replicate n (Fin c).

Lemma s_flat (b : Bar) :
  b ∈ s → close b = c ∧ high b = c ∧ low b = c ∧ volume b = v.
Proof.
  intros Hb. unfold flat in flat_s.
  rewrite forallb_forall in flat_s. apply list_elem_of_In in Hb.
  apply flat_s in Hb. by apply bool_decide_eq_true in Hb.
Qed.

Lemma flat_close : col close s = px.
Proof.
  unfold col. apply fmap_const_col. intros b Hb. simpl.
  by destruct (s_flat b Hb) as (-> & _).
Qed.
Lemma flat_high : col high s = px.
Proof.
  unfold col. apply fmap_const_col. intros b Hb. simpl.
  by destruct (s_flat b Hb) as (_ & -> & _).
Qed.
Lemma flat_low : col low s = px.
Proof.
  unfold col. apply fmap_const_col. intros b Hb. simpl.
  by destruct (s_flat b Hb) as (_ & _ & -> & _).
Qed.
Lemma flat_volume : col_volume s = replicate n (Z2num v).
Proof.
  unfold col_volume. apply fmap_const_col. intros b Hb. simpl.
  by destruct (s_flat b Hb) as (_ & _ & _ & ->).
Qed.

Lemma flat_px : const_from 0 (Fin c) px.
Proof. apply const_from_replicate. Qed.

Lemma flat_delta : const_from 1 (Fin 0%Qc) (pd.diff 1 px).
Proof.
  unfold pd.diff.
  pose proof (const_from_zip_with nsub _ _ _ _ _ _ flat_px
                (const_from_shift 1 _ _ _ flat_px)) as H.
  by rewrite nsub_diag in H.
Qed.

Lemma flat_rsi : const_from 14 NaN (calculate_rsi px 14).
Proof.
  unfold calculate_rsi, rsi_gain, rsi_loss, rolling_mean.
  pose proof flat_delta as Hd.
  pose proof (const_from_rolling 14 pd.win_mean _ _ _ ltac:(lia)
    (const_from_fmap (λ d, if ngt d (Z2num 0) then d else Z2num 0)
       _ _ _ Hd)) as Hg.
  pose proof (const_from_rolling 14 pd.win_mean _ _ _ ltac:(lia)
    (const_from_fmap nneg _ _ _
       (const_from_fmap (λ d, if nlt d (Z2num 0) then d else Z2num 0)
          _ _ _ Hd))) as Hl.
  pose proof (const_from_zip_with ndiv _ _ _ _ _ _ Hg Hl) as Hrs.
  apply (const_from_fmap
    (λ r, nsub (Z2num 100) (ndiv (Z2num 100) (nadd (Z2num 1) r)))) in Hrs.
  eapply const_from_eq; [exact Hrs|]. vm_compute. reflexivity.
Qed.

Lemma flat_roc : const_from 10 (Fin 0%Qc) (calculate_roc px 10).
Proof.
  unfold calculate_roc.
  pose proof (const_from_zip_with
    (λ c p, nmul (ndiv (nsub c p) p) (Z2num 100)) _ _ _ _ _ _ flat_px
    (const_from_shift 10 _ _ _ flat_px)) as H.
  eapply const_from_eq; [exact H|]. cbv beta.
  rewrite nsub_diag. unfold ndiv.
  rewrite decide_False
    by (intros Hc; by apply (Qclt_not_eq _ _ c_pos)).
  unfold nmul. f_equal; unfold Qcdiv; ring.
Qed.

Lemma flat_macd :
  (calculate_macd px).1.1 = replicate n (Fin 0%Qc) ∧
  (calculate_macd px).1.2 = replicate n (Fin 0%Qc) ∧
  (calculate_macd px).2 = replicate n (Fin 0%Qc).
Proof.
  unfold calculate_macd, calculate_ema. simpl. unfold px.
  rewrite !ewm_mean_replicate, zip_with_replicate, nsub_diag.
  rewrite !ewm_mean_replicate, zip_with_replicate, nsub_diag. done.
Qed.

Lemma flat_true_range : const_from 1 (Fin 0%Qc) (true_range px px px).
Proof.
  unfold true_range.
  pose proof (const_from_zip_with nsub _ _ _ _ _ _ flat_px flat_px) as H1.
  rewrite nsub_diag in H1.
  pose proof (const_from_zip_with nsub _ _ _ _ _ _ flat_px
                (const_from_shift 1 _ _ _ flat_px)) as H2.
  rewrite nsub_diag in H2. apply (const_from_fmap nabs) in H2.
  pose proof (const_from_zip_with nanmax2 _ _ _ _ _ _
    (const_from_zip_with nanmax2 _ _ _ _ _ _ H1 H2) H2) as H.
  eapply const_from_eq; [exact H|]. compute_done.
Qed.

Lemma flat_adx :
  const_from 27 NaN (calculate_adx px px px 14).1.1 ∧
  const_from 14 NaN (calculate_adx px px px 14).1.2 ∧
  const_from 14 NaN (calculate_adx px px px 14).2.
Proof.
  unfold calculate_adx, rolling_mean. simpl.
  pose proof flat_delta as Hd.
  pose proof (const_from_fmap nneg _ _ _ Hd) as Hld.
  pose proof (const_from_rolling 14 pd.win_mean _ _ _ ltac:(lia)
    (const_from_zip_with
       (λ h l, if ngt h l && ngt h (Z2num 0) then h else Z2num 0)
       _ _ _ _ _ _ Hd Hld)) as Hp.
  pose proof (const_from_rolling 14 pd.win_mean _ _ _ ltac:(lia)
    (const_from_zip_with
       (λ h l, if ngt l h && ngt l (Z2num 0) then l else Z2num 0)
       _ _ _ _ _ _ Hd Hld)) as Hm.
  pose proof (const_from_rolling 14 pd.win_mean _ _ _ ltac:(lia)
    flat_true_range) as Ha.
  pose proof (const_from_fmap (nmul (Z2num 100)) _ _ _
    (const_from_zip_with ndiv _ _ _ _ _ _ Hp Ha)) as Hpd.
  pose proof (const_from_fmap (nmul (Z2num 100)) _ _ _
    (const_from_zip_with ndiv _ _ _ _ _ _ Hm Ha)) as Hmd.
  pose proof (const_from_rolling 14 pd.win_mean _ _ _ ltac:(lia)
    (const_from_zip_with
       (λ p m, ndiv (nmul (Z2num 100) (nabs (nsub p m))) (nadd p m))
       _ _ _ _ _ _ Hpd Hmd)) as Hx.
  split; [|split].
  - eapply const_from_eq; [exact Hx|]. vm_compute. reflexivity.
  - eapply const_from_eq; [exact Hpd|]. vm_compute. reflexivity.
  - eapply const_from_eq; [exact Hmd|]. vm_compute. reflexivity.
Qed.

End Flat.

(** ** The columns of the engine are aligned *)

Lemma length_col f s : length (col f s) = length s.
Proof. unfold col. by rewrite length_fmap. Qed.
Lemma length_col_volume s : length (col_volume s) = length s.
Proof. unfold col_volume. by rewrite length_fmap. Qed.
Lemma length_cumsum xs : length (pd.cumsum xs) = length xs.
Proof. apply length_cumsum_from. Qed.

Ltac unfold_engine :=
  cbv beta iota zeta delta
    [calculate_all_indicators calculate_macd calculate_adx
     calculate_bollinger_bands fst snd
     Open High Low Close Volume EMA_20 SMA_50 SMA_200
     EMA_20_slope SMA_50_slope SMA_200_slope RSI ROC
     MACD MACD_Signal MACD_Hist Hist_Momentum
     ADX Plus_DI Minus_DI DI_Spread ADX_Rising
     Vol_SMA_20 Vol_SMA_50 Vol_Ratio OBV OBV_EMA
     BB_Upper BB_Middle BB_Lower BB_Position
     ATR ATR_Percent High_52W High_4W High_2W].

Ltac series_length :=
  unfold_engine;
  unfold slope, calculate_ema, calculate_sma, calculate_rsi, rsi_gain,
    rsi_loss, calculate_atr, calculate_obv, calculate_roc, true_range,
    rolling_mean, rolling_max, rolling_std;
  repeat first
    [ rewrite length_zip_with | rewrite length_fmap | rewrite length_shift
    | rewrite length_diff | rewrite length_pct_change
    | rewrite length_rolling | rewrite length_ewm_mean
    | rewrite length_cumsum | rewrite length_fillna
    | rewrite length_col | rewrite length_col_volume ];
  lia.

Lemma engine_aligned (fsqrt : Qc → Qc) (s : PriceSeries) :
  aligned (length s) (calculate_all_indicators fsqrt s).
Proof.
  split; [|series_length].
  unfold columns. repeat (apply Forall_cons; split; [series_length|]).
  apply Forall_nil. done.
Qed.

(** ** Flat series: momentum and the volume-price sub-rule *)

Lemma ndiv_diag_not_above_1 (m : num) : ngt (ndiv m m) (Z2num 1) = false.
Proof.
  destruct m as [| |q]; try done. unfold ndiv.
  destruct (decide (q = 0%Qc)) as [Hq|Hq]; [done|].
  unfold Qcdiv. rewrite Qcmult_inv_r by done.
  apply bool_decide_eq_false. apply Qcle_not_lt, Qcle_refl.
Qed.

Lemma trend_ratio_flat (x : num) :
  ngt (trend_ratio (replicate 260 x)) (Z2num 1) = false.
Proof.
  unfold trend_ratio, pd.iloc_from, pd.iloc_range.
  rewrite !length_replicate, !drop_replicate, take_replicate.
  apply ndiv_diag_not_above_1.
Qed.

Section FlatScores.
Variable fsqrt : Qc → Qc.
Variables (c : Qc) (v : Z) (s : PriceSeries).
Hypothesis c_pos : (0 < c)%Qc.
Hypothesis flat_s : flat c v s = true.
Hypothesis length_s : length s = 260%nat.

Lemma flat_momentum :
  score_momentum_strength (calculate_all_indicators fsqrt s) = 0.
Proof.
  set (df := calculate_all_indicators fsqrt s).
  assert (pd.iloc (ADX df) (-1) = Some NaN) as Hadx.
  { apply (iloc_last_const 27); [|subst df; series_length].
    change (ADX df) with
      (calculate_adx (col high s) (col low s) (col close s) 14).1.1.
    rewrite (flat_high c v s flat_s), (flat_low c v s flat_s),
      (flat_close c v s flat_s).
    apply flat_adx. }
  assert (pd.iloc (DI_Spread df) (-1) = Some NaN) as Hdi.
  { apply (iloc_last_const 14); [|subst df; series_length].
    change (DI_Spread df) with
      (zip_with nsub
         (calculate_adx (col high s) (col low s) (col close s) 14).1.2
         (calculate_adx (col high s) (col low s) (col close s) 14).2).
    rewrite (flat_high c v s flat_s), (flat_low c v s flat_s),
      (flat_close c v s flat_s).
    destruct (flat_adx c s) as (_ & Hp & Hm).
    apply (const_from_zip_with nsub _ _ _ _ _ _ Hp Hm). }
  assert (pd.iloc (RSI df) (-1) = Some NaN) as Hrsi.
  { apply (iloc_last_const 14); [|subst df; series_length].
    change (RSI df) with (calculate_rsi (col close s) 14).
    rewrite (flat_close c v s flat_s). apply flat_rsi. }
  assert (pd.iloc (ROC df) (-1) = Some (Fin 0%Qc)) as Hroc.
  { apply (iloc_last_const 10); [|subst df; series_length].
    change (ROC df) with (calculate_roc (col close s) 10).
    rewrite (flat_close c v s flat_s). by apply flat_roc. }
  destruct (flat_macd c s) as (Hm1 & Hm2 & _).
  assert (pd.iloc (MACD df) (-1) = Some (Fin 0%Qc)) as Hmacd.
  { apply (iloc_last_const 0); [|subst df; series_length].
    change (MACD df) with (calculate_macd (col close s)).1.1.
    rewrite (flat_close c v s flat_s), Hm1. apply const_from_replicate. }
  assert (pd.iloc (MACD_Signal df) (-1) = Some (Fin 0%Qc)) as Hsig.
  { apply (iloc_last_const 0); [|subst df; series_length].
    change (MACD_Signal df) with (calculate_macd (col close s)).1.2.
    rewrite (flat_close c v s flat_s), Hm2. apply const_from_replicate. }
  destruct (iloc_last_is_Some (ADX_Rising df)) as [r Hr];
    [subst df; series_length|].
  destruct (iloc_last_is_Some (MACD_Hist df)) as [h Hh];
    [subst df; series_length|].
  destruct (iloc_last_is_Some (Hist_Momentum df)) as [hm Hhm];
    [subst df; series_length|].
  unfold score_momentum_strength, try_except, momentum_strength.
  rewrite Hadx, bind_get, bind_add, Hdi, bind_get, Hr, bind_get, bind_add,
    Hrsi, bind_get, bind_add, Hroc, bind_get, bind_add, Hmacd, bind_get,
    Hsig, bind_get, Hh, bind_get, Hhm, bind_get.
  vm_compute. reflexivity.
Qed.

Lemma flat_confirmation :
  let df := calculate_all_indicators fsqrt s in
  volume_price_confirmation (trend_ratio (Volume df)) (trend_ratio (Close df))
  = 0.
Proof.
  intros df.
  change (Volume df) with (col_volume s).
  change (Close df) with (col close s).
  rewrite (flat_volume c v s flat_s), (flat_close c v s flat_s), length_s.
  unfold volume_price_confirmation. by rewrite !trend_ratio_flat.
Qed.

Lemma flat_volume_liquidity :
  let df := calculate_all_indicators fsqrt s in
  ∃ vol_ratio obv obv_ema : num, ∀ s0 : Z,
    volume_liquidity df s0 =
    (add (volume_surge vol_ratio);;
     add (obv_points obv obv_ema (pd.max (pd.iloc_from (OBV df) (-50))));;
     add 0) s0.
Proof.
  intros df.
  destruct (iloc_last_is_Some (Vol_Ratio df)) as [vr Hvr];
    [subst df; series_length|].
  destruct (iloc_last_is_Some (OBV df)) as [obv Hobv];
    [subst df; series_length|].
  destruct (iloc_last_is_Some (OBV_EMA df)) as [ema Hema];
    [subst df; series_length|].
  exists vr, obv, ema. intros s0. unfold volume_liquidity.
  pose proof flat_confirmation as Hc. cbv zeta in Hc. fold df in Hc.
  rewrite Hvr, bind_get, !bind_add, Hobv, bind_get, Hema, bind_get.
  cbv zeta. rewrite !bind_add, Hc. done.
Qed.

End FlatScores.

(** C9. On a flat series of 260 bars (the same close, high and low on every
    bar, and the same volume) the Momentum and Strength category scores 0,
    and the volume-price sub-rule of Volume and Liquidity, which compares
    the 10-day means of volume and close with the 10-day means before, adds
    0. *)
Theorem flat_series_momentum_zero
    (fsqrt : Qc → Qc) (c : Qc) (v : Z) (s : PriceSeries) :
  (0 < c)%Qc → flat c v s = true → length s = 260%nat →
  let df := calculate_all_indicators fsqrt s in
  score_momentum_strength df = 0 ∧
  volume_price_confirmation (trend_ratio (Volume df)) (trend_ratio (Close df))
  = 0 ∧
  ∃ vol_ratio obv obv_ema : num, ∀ s0 : Z,
    volume_liquidity df s0 =
    (add (volume_surge vol_ratio);;
     add (obv_points obv obv_ema (pd.max (pd.iloc_from (OBV df) (-50))));;
     add 0) s0.
Proof.
  intros Hc Hf Hn df. split; [by apply (flat_momentum fsqrt c v)|].
  split; [by apply (flat_confirmation fsqrt c v)|].
  by apply (flat_volume_liquidity fsqrt c v).
Qed.

Lemma flat_series_momentum_zero_witness :
  score_momentum_strength
    (calculate_all_indicators sqrt6 (flat_series 260 (Q2Qc 100) 1000)) = 0.
Proof.
  apply (flat_series_momentum_zero sqrt6 (Q2Qc 100) 1000
           (flat_series 260 (Q2Qc 100) 1000));
    [compute_done | vm_compute; reflexivity | vm_compute; reflexivity].
Defined.

(** ** Finite values *)

Lemma positive_finite x : positive x → finite x.
Proof. intros (q & -> & _). by exists q. Qed.
Lemma positive_nonneg x : positive x → nonneg x.
Proof. intros (q & -> & Hq). exists q. split; [done|]. by apply Qclt_le_weak. Qed.
Lemma nonneg_finite x : nonneg x → finite x.
Proof. intros (q & -> & _). by exists q. Qed.
Lemma finite_no_inf x : finite x → no_inf x.
Proof. by right. Qed.
Lemma finite_Z2num z : finite (Z2num z).
Proof. by eexists. Qed.

Lemma finite_nadd a b : finite a → finite b → finite (nadd a b).
Proof. intros [p ->] [q ->]. by eexists. Qed.
Lemma finite_nneg a : finite a → finite (nneg a).
Proof. intros [p ->]. by eexists. Qed.
Lemma finite_nsub a b : finite a → finite b → finite (nsub a b).
Proof. intros [p ->] [q ->]. by eexists. Qed.
Lemma finite_nmul a b : finite a → finite b → finite (nmul a b).
Proof. intros [p ->] [q ->]. by eexists. Qed.
Lemma finite_nabs a : finite a → finite (nabs a).
Proof. intros [p ->]. by eexists. Qed.
Lemma finite_ndiv a b : finite a → positive b → finite (ndiv a b).
Proof.
  intros [p ->] (q & -> & Hq). unfold ndiv.
  rewrite decide_False; [by eexists|].
  intros ->. by apply (Qclt_not_eq _ _ Hq).
Qed.

Lemma nonneg_nadd a b : nonneg a → nonneg b → nonneg (nadd a b).
Proof.
  intros (p & -> & Hp) (q & -> & Hq). eexists. split; [done|].
  by apply Qcplus_nonneg_nonneg.
Qed.
Lemma positive_nadd a b : positive a → nonneg b → positive (nadd a b).
Proof.
  intros (p & -> & Hp) (q & -> & Hq). eexists. split; [done|].
  by apply Qcplus_pos_nonneg.
Qed.
Lemma positive_nmul a b : positive a → positive b → positive (nmul a b).
Proof.
  intros (p & -> & Hp) (q & -> & Hq). eexists. split; [done|].
  by apply Qcmult_pos_pos.
Qed.
Lemma nonneg_nmul a b : nonneg a → nonneg b → nonneg (nmul a b).
Proof.
  intros (p & -> & Hp) (q & -> & Hq). eexists. split; [done|].
  by apply Qcmult_nonneg_nonneg.
Qed.
Lemma positive_ndiv a b : positive a → positive b → positive (ndiv a b).
Proof.
  intros (p & -> & Hp) (q & -> & Hq). unfold ndiv.
  rewrite decide_False by (intros ->; by apply (Qclt_not_eq _ _ Hq)).
  eexists. split; [done|]. unfold Qcdiv.
  apply Qcmult_pos_pos; [done|by apply Qcinv_pos].
Qed.
Lemma nonneg_ndiv a b : nonneg a → positive b → nonneg (ndiv a b).
Proof.
  intros (p & -> & Hp) (q & -> & Hq). unfold ndiv.
  rewrite decide_False by (intros ->; by apply (Qclt_not_eq _ _ Hq)).
  eexists. split; [done|]. unfold Qcdiv.
  apply Qcmult_nonneg_nonneg; [done|]. by apply Qclt_le_weak, Qcinv_pos.
Qed.

Lemma positive_Z2num z : 0 < z → positive (Z2num z).
Proof. intros Hz. eexists. split; [done|]. by apply Q2Qc_inject_Z_pos. Qed.

(** *** Sums and window statistics *)

Lemma nsum_finite ws : Forall finite ws → finite (pd.nsum ws).
Proof.
  induction 1 as [|x ws Hx _ IH]; [by eexists|].
  by apply finite_nadd.
Qed.

Lemma nsum_nonneg ws : Forall nonneg ws → nonneg (pd.nsum ws).
Proof.
  induction 1 as [|x ws Hx _ IH].
  - eexists. split; [done|]. apply Qcle_refl.
  - by apply nonneg_nadd.
Qed.

Lemma nsum_positive ws : Forall positive ws → ws ≠ [] → positive (pd.nsum ws).
Proof.
  intros Hws Hne. destruct Hws as [|x ws Hx Hws]; [done|].
  apply positive_nadd; [done|].
  apply nsum_nonneg. eapply Forall_impl; [exact Hws|]. apply positive_nonneg.
Qed.

Lemma count_positive ws : ws ≠ [] → positive (pd.count ws).
Proof.
  intros Hne. apply positive_Z2num. destruct ws; [done|]. simpl length. lia.
Qed.

Lemma win_mean_finite ws : Forall finite ws → ws ≠ [] → finite (pd.win_mean ws).
Proof.
  intros Hws Hne. apply finite_ndiv; [by apply nsum_finite|].
  by apply count_positive.
Qed.

Lemma win_mean_nonneg ws : Forall nonneg ws → ws ≠ [] → nonneg (pd.win_mean ws).
Proof.
  intros Hws Hne. apply nonneg_ndiv; [by apply nsum_nonneg|].
  by apply count_positive.
Qed.

Lemma win_mean_positive ws :
  Forall positive ws → ws ≠ [] → positive (pd.win_mean ws).
Proof.
  intros Hws Hne. apply positive_ndiv; [by apply nsum_positive|].
  by apply count_positive.
Qed.

Lemma finite_nmax2 a b : finite a → finite b → finite (nmax2 a b).
Proof. intros [p ->] [q ->]. unfold nmax2. case_match; by eexists. Qed.

Lemma win_max_finite ws : Forall finite ws → ws ≠ [] → finite (pd.win_max ws).
Proof.
  intros Hws Hne. destruct Hws as [|x ws Hx Hws]; [done|]. simpl.
  clear Hne. revert x Hx. induction Hws as [|y ws Hy _ IH]; intros x Hx.
  - done.
  - simpl. apply IH. by apply finite_nmax2.
Qed.

Lemma Q2Qc_inject_Z_pred (z : Z) :
  (Q2Qc (inject_Z z) + - 1)%Qc = Q2Qc (inject_Z (z - 1)).
Proof.
  apply Qc_is_canon. unfold Qcplus, Qcopp, Q2Qc. simpl.
  rewrite !Qred_correct. unfold Qeq. simpl. lia.
Qed.

Lemma win_var_finite ws :
  Forall finite ws → (2 ≤ length ws)%nat → finite (pd.win_var ws).
Proof.
  intros Hws Hlen. unfold pd.win_var.
  assert (finite (pd.win_mean ws)) as Hm.
  { apply win_mean_finite; [done|]. intros ->. simpl in Hlen. lia. }
  assert (finite (pd.nsum ((λ x, nmul (nsub x (pd.win_mean ws))
                                     (nsub x (pd.win_mean ws))) <$> ws))) as Hs.
  { apply nsum_finite, Forall_fmap. eapply Forall_impl; [exact Hws|].
    intros x Hx. simpl. by apply finite_nmul; apply finite_nsub. }
  destruct Hs as [p ->]. unfold pd.count, Z2num, nsub, nneg, nadd, ndiv.
  rewrite Q2Qc_inject_Z_pred.
  rewrite decide_False; [by eexists|].
  apply Q2Qc_inject_Z_ne_0. lia.
Qed.

Lemma nsqrt_finite fsqrt x : finite x → finite (nsqrt fsqrt x).
Proof. intros [q ->]. unfold nsqrt. case_match; by eexists. Qed.

(** *** Series of finite values *)

Lemma Forall_zip_with_2 {A B C} (P : A → Prop) (Q : B → Prop) (R : C → Prop)
    (f : A → B → C) (xs : list A) (ys : list B) :
  (∀ a b, P a → Q b → R (f a b)) →
  Forall P xs → Forall Q ys → Forall R (zip_with f xs ys).
Proof.
  intros Hf Hxs. revert ys.
  induction Hxs as [|x xs Hx _ IH]; intros ys Hys; [by apply Forall_nil|].
  destruct Hys as [|y ys Hy Hys]; [by apply Forall_nil|].
  simpl. apply Forall_cons. split; [by apply Hf|by apply IH].
Qed.

Lemma window_Forall {A} (P : A → Prop) w i xs :
  Forall P xs → Forall P (pd.window w i xs).
Proof. intros H. unfold pd.window. by apply Forall_take, Forall_drop. Qed.

Lemma window_nonempty {A} w i (xs : list A) :
  (0 < w)%nat → (w ≤ S i)%nat → (i < length xs)%nat → pd.window w i xs ≠ [].
Proof.
  intros Hw Hi Hl Heq. apply (f_equal length) in Heq.
  rewrite length_window in Heq by done. simpl in Heq. lia.
Qed.

(** An entry of a rolling statistic past the warm-up, in terms of the
    statistic of its window. *)
Lemma rolling_at (P Q : num → Prop) (agg : list num → num) w xs i :
  (∀ ws, Forall P ws → length ws = w → Q (agg ws)) →
  Forall P xs → (w ≤ S i)%nat → (i < length xs)%nat →
  ∃ x, pd.rolling w agg xs !! i = Some x ∧ Q x.
Proof.
  intros Hagg Hxs Hw Hi. eexists. split.
  - rewrite lookup_rolling by done. by rewrite decide_True.
  - apply Hagg; [by apply window_Forall|by apply length_window].
Qed.

Lemma shift_no_inf k xs : Forall finite xs → Forall no_inf (pd.shift k xs).
Proof.
  intros Hxs. unfold pd.shift. apply Forall_take, Forall_app. split.
  - apply Forall_replicate. by left.
  - eapply Forall_impl; [exact Hxs|]. apply finite_no_inf.
Qed.

Lemma diff_no_inf k xs : Forall finite xs → Forall no_inf (pd.diff k xs).
Proof.
  intros Hxs. unfold pd.diff.
  apply (Forall_zip_with_2 finite no_inf); [|done|by apply shift_no_inf].
  intros a b [p ->] [->|[q ->]]; [by left|right; by eexists].
Qed.

Lemma col_finite f s : Forall finite (col f s).
Proof. unfold col. apply Forall_fmap, Forall_true. intros b. by eexists. Qed.

Lemma col_volume_finite s : Forall finite (col_volume s).
Proof.
  unfold col_volume. apply Forall_fmap, Forall_true. intros b. by eexists.
Qed.

Lemma lookup_zip_with_Some' {A B C} (f : A → B → C)
    (xs : list A) (ys : list B) (i : nat) a b :
  xs !! i = Some a → ys !! i = Some b → zip_with f xs ys !! i = Some (f a b).
Proof. intros Ha Hb. by rewrite lookup_zip_with, Ha, Hb. Qed.

Lemma lookup_fmap_Some' {A B} (f : A → B) (xs : list A) (i : nat) a :
  xs !! i = Some a → (f <$> xs) !! i = Some (f a).
Proof. intros Ha. by rewrite list_lookup_fmap, Ha. Qed.

(** ** RSI: zero average loss *)

Lemma Qcopp_0 : (- 0)%Qc = 0%Qc.
Proof. ring. Qed.

Lemma rsi_gain_input_nonneg d :
  no_inf d → nonneg (if ngt d (Z2num 0) then d else Z2num 0).
Proof.
  intros [->|[q ->]].
  - eexists. split; [done|]. apply Qcle_refl.
  - unfold ngt, nlt, Z2num. case_bool_decide as Hq.
    + eexists. split; [done|]. by apply Qclt_le_weak.
    + eexists. split; [done|]. apply Qcle_refl.
Qed.

Lemma nneg_0 : nneg (Z2num 0) = Fin 0%Qc.
Proof. compute_done. Qed.

Lemma rsi_loss_input_nonneg d :
  no_inf d → nonneg (nneg (if nlt d (Z2num 0) then d else Z2num 0)).
Proof.
  assert (nonneg (Fin 0%Qc)) as H0.
  { eexists. split; [done|]. apply Qcle_refl. }
  intros [->|[q ->]].
  - change (nonneg (nneg (Z2num 0))). by rewrite nneg_0.
  - destruct (nlt (Fin q) (Z2num 0)) eqn:Hq.
    + apply bool_decide_eq_true in Hq. change (q < 0)%Qc in Hq.
      eexists. split; [done|].
      apply Qclt_le_weak, Qcopp_le_compat in Hq.
      by rewrite Qcopp_0 in Hq.
    + by rewrite nneg_0.
Qed.

Lemma rsi_gain_nonneg (close : pd.Series) (p i : nat) :
  Forall finite close → (0 < p)%nat → (p ≤ S i)%nat → (i < length close)%nat →
  ∃ g, rsi_gain close p !! i = Some g ∧ nonneg g.
Proof.
  intros Hc Hp Hi Hl. unfold rsi_gain, rolling_mean.
  apply (rolling_at nonneg nonneg).
  - intros ws Hws Hlen. apply win_mean_nonneg; [done|].
    intros ->. simpl in Hlen. lia.
  - apply Forall_fmap. eapply Forall_impl; [by apply diff_no_inf|].
    intros d Hd. by apply rsi_gain_input_nonneg.
  - done.
  - by rewrite length_fmap, length_diff.
Qed.

Lemma rsi_lookup (close : pd.Series) (p i : nat) (g l : num) :
  rsi_gain close p !! i = Some g → rsi_loss close p !! i = Some l →
  calculate_rsi close p !! i =
  Some (nsub (Z2num 100) (ndiv (Z2num 100) (nadd (Z2num 1) (ndiv g l)))).
Proof.
  intros Hg Hl. unfold calculate_rsi.
  by rewrite list_lookup_fmap, (lookup_zip_with_Some' _ _ _ _ _ _ Hg Hl).
Qed.

(** The claim of C3 fails on a flat series: at index 19 of twenty equal
    closes the average loss is zero and the RSI is missing, not 100. *)
Lemma rsi_flat_is_nan :
  let close := col close (flat_series 20 (Q2Qc 100) 1000) in
  rsi_loss close 14 !! 19%nat = Some (Fin 0%Qc) ∧
  calculate_rsi close 14 !! 19%nat = Some NaN.
Proof. split; compute_done. Qed.

(** C3, amended. At an index with 14 samples of lookback where the average
    loss is zero, the average gain is a non-negative number, and the RSI is
    100 when that gain is positive (the ratio is infinite and
    [100 - 100 / (1 + RS)] evaluates to 100, without a guard) and missing
    when the gain is zero as well. *)
Theorem rsi_zero_loss (s : PriceSeries) (i : nat) :
  (13 ≤ i)%nat → (i < length s)%nat →
  rsi_loss (col close s) 14 !! i = Some (Fin 0%Qc) →
  ∃ g : Qc,
    rsi_gain (col close s) 14 !! i = Some (Fin g) ∧ (0 <= g)%Qc ∧
    ((0 < g)%Qc → calculate_rsi (col close s) 14 !! i = Some (Z2num 100)) ∧
    (g = 0%Qc → calculate_rsi (col close s) 14 !! i = Some NaN).
Proof.
  intros Hi Hl Hloss.
  destruct (rsi_gain_nonneg (col close s) 14 i) as (x & Hg & g & -> & Hg0);
    [apply col_finite|lia|lia|by rewrite length_col|].
  exists g. split; [done|]. split; [done|].
  rewrite (rsi_lookup _ _ _ _ _ Hg Hloss). split.
  - intros Hpos. unfold ndiv at 2.
    rewrite decide_True by done.
    rewrite decide_False by (intros ->; by apply (Qclt_not_eq _ _ Hpos)).
    unfold qneg. rewrite bool_decide_eq_false_2
      by (by apply Qcle_not_lt, Qclt_le_weak).
    compute_done.
  - intros ->. compute_done.
Qed.

Lemma rsi_zero_loss_witness :
  ∃ g : Qc,
    rsi_gain (col close (step_series 19 (Q2Qc 100) (Q2Qc 110) 1000)) 14 !! 19%nat = Some (Fin g) ∧
    (0 <= g)%Qc ∧
    ((0 < g)%Qc →
     calculate_rsi (col close (step_series 19 (Q2Qc 100) (Q2Qc 110) 1000)) 14 !! 19%nat
     = Some (Z2num 100)) ∧
    (g = 0%Qc →
     calculate_rsi (col close (step_series 19 (Q2Qc 100) (Q2Qc 110) 1000)) 14 !! 19%nat = Some NaN).
Proof.
  apply (rsi_zero_loss (step_series 19 (Q2Qc 100) (Q2Qc 110) 1000) 19);
    [lia | vm_compute; lia | compute_done].
Defined.

(** ** Price position with a short history *)

Lemma engine_empty (fsqrt : Qc → Qc) :
  ∀ s0 : Z, trend_alignment (calculate_all_indicators fsqrt []) s0 = (None, s0).
Proof. done. Qed.

(** C10. The price-position sub-rule of Trend Alignment adds 0 as soon as
    one of EMA20, SMA50 and SMA200 is missing at the last index.  For a
    series of fewer than 200 bars SMA200 is missing there, so the sub-rule
    adds 0 whatever the close and SMA50 are (and so does the spacing
    sub-rule): the category body reduces to the slope sub-rule. *)
Theorem price_position_short_history
    (fsqrt : Qc → Qc) (s : PriceSeries) :
  (length s < 200)%nat →
  let df := calculate_all_indicators fsqrt s in
  (∀ c e m l : num, e = NaN ∨ m = NaN ∨ l = NaN → price_position c e m l = 0) ∧
  (∀ current ema20 sma50 sma200 : num,
     pd.iloc (Close df) (-1) = Some current →
     pd.iloc (EMA_20 df) (-1) = Some ema20 →
     pd.iloc (SMA_50 df) (-1) = Some sma50 →
     pd.iloc (SMA_200 df) (-1) = Some sma200 →
     sma200 = NaN ∧ price_position current ema20 sma50 sma200 = 0) ∧
  (∀ s0 : Z,
     trend_alignment df s0 =
     (add 0;;
      s_ema20 ← get (pd.iloc (EMA_20_slope df) (-1));
      s_sma50 ← get (pd.iloc (SMA_50_slope df) (-1));
      s_sma200 ← get (pd.iloc (SMA_200_slope df) (-1));
      add (ma_slopes s_ema20 s_sma50 s_sma200);;
      add 0) s0).
Proof.
  intros Hlen df.
  assert (∀ x, pd.iloc (SMA_200 df) (-1) = Some x → x = NaN) as Hnan.
  { intros x. rewrite iloc_last. case_decide; [done|].
    change (SMA_200 df) with (pd.rolling 200 pd.win_mean (col close s)).
    rewrite length_rolling, length_col.
    destruct (decide (length s = 0%nat)) as [Hz|Hz].
    { apply length_zero_iff_nil in Hz. by subst s. }
    rewrite lookup_rolling_early by (rewrite ?length_col; lia). congruence. }
  split; [apply price_position_nan|]. split.
  { intros current ema20 sma50 sma200 _ _ _ H200.
    apply Hnan in H200 as ->. split; [done|].
    apply price_position_nan. auto. }
  intros s0.
  destruct (decide (length s = 0%nat)) as [Hz|Hz].
  { apply length_zero_iff_nil in Hz. subst s df.
    rewrite engine_empty, bind_add.
    change (EMA_20_slope (calculate_all_indicators fsqrt [])) with (@nil num).
    rewrite iloc_nil, bind_get. f_equal. lia. }
  destruct (iloc_last_is_Some (Close df)) as [current Hc];
    [subst df; series_length|].
  destruct (iloc_last_is_Some (EMA_20 df)) as [ema20 He];
    [subst df; series_length|].
  destruct (iloc_last_is_Some (SMA_50 df)) as [sma50 H50];
    [subst df; series_length|].
  destruct (iloc_last_is_Some (SMA_200 df)) as [sma200 H200];
    [subst df; series_length|].
  pose proof (Hnan _ H200) as ->.
  unfold trend_alignment.
  rewrite Hc, bind_get, He, bind_get, H50, bind_get, H200, bind_get.
  rewrite (price_position_nan current ema20 sma50 NaN) by auto.
  rewrite (ma_divergence_nan ema20 sma50 NaN) by auto. done.
Qed.

Lemma price_position_short_history_witness :
  let df := calculate_all_indicators sqrt6 (step_series 59 (Q2Qc 100) (Q2Qc 110) 1000) in
  ∃ current ema20 sma50 sma200 : num,
    pd.iloc (Close df) (-1) = Some current ∧
    pd.iloc (EMA_20 df) (-1) = Some ema20 ∧
    pd.iloc (SMA_50 df) (-1) = Some sma50 ∧
    pd.iloc (SMA_200 df) (-1) = Some sma200 ∧
    ngt current sma50 = true ∧
    price_position current ema20 sma50 sma200 = 0.
Proof.
  intros df.
  assert (length (step_series 59 (Q2Qc 100) (Q2Qc 110) 1000) < 200)%nat
    as Hlen by (vm_compute; lia).
  destruct (price_position_short_history sqrt6
              (step_series 59 (Q2Qc 100) (Q2Qc 110) 1000) Hlen)
    as (_ & Hpos & _).
  eexists _, _, _, _.
  split; [vm_compute; reflexivity|].
  split; [vm_compute; reflexivity|].
  split; [vm_compute; reflexivity|].
  split; [vm_compute; reflexivity|].
  split; [vm_compute; reflexivity|].
  eapply Hpos; vm_compute; reflexivity.
Defined.

(** ** Entries of derived series *)

Section HoldsAt.
Local Open Scope nat_scope.
Implicit Types (P Q R : num → Prop) (xs ys : pd.Series) (i k w : nat).

Lemma holds_at_Forall P xs i :
  Forall P xs → i < length xs → holds_at P xs i.
Proof.
  intros HP Hi. destruct (lookup_lt_is_Some_2 xs i Hi) as [x Hx].
  exists x. split; [done|]. by eapply Forall_lookup_1.
Qed.

Lemma holds_at_impl P Q xs i :
  (∀ x, P x → Q x) → holds_at P xs i → holds_at Q xs i.
Proof. intros HPQ (x & Hx & HP). exists x. auto. Qed.

Lemma holds_at_zip_with P Q R (f : num → num → num) xs ys i :
  (∀ a b, P a → Q b → R (f a b)) →
  holds_at P xs i → holds_at Q ys i → holds_at R (zip_with f xs ys) i.
Proof.
  intros Hf (a & Ha & HPa) (b & Hb & HQb). exists (f a b).
  split; [by apply lookup_zip_with_Some'|by apply Hf].
Qed.

Lemma holds_at_fmap P Q (f : num → num) xs i :
  (∀ a, P a → Q (f a)) → holds_at P xs i → holds_at Q (f <$> xs) i.
Proof.
  intros Hf (a & Ha & HPa). exists (f a).
  split; [by apply lookup_fmap_Some'|by apply Hf].
Qed.

Lemma holds_at_shift P k xs i :
  k ≤ i → i < length xs → holds_at P xs (i - k) → holds_at P (pd.shift k xs) i.
Proof.
  intros Hk Hi (a & Ha & HPa). exists a. split; [|done].
  rewrite lookup_shift by done. by rewrite decide_False by lia.
Qed.

Lemma holds_at_rolling P Q (agg : list num → num) w xs i :
  (∀ ws, Forall P ws → length ws = w → Q (agg ws)) →
  Forall P xs → w ≤ S i → i < length xs →
  holds_at Q (pd.rolling w agg xs) i.
Proof. apply rolling_at. Qed.


End HoldsAt.

(** *** Window statistics of finite values *)

Lemma mean_of_finite w ws :
  (0 < w)%nat → Forall finite ws → length ws = w → finite (pd.win_mean ws).
Proof.
  intros Hw Hws Hl. apply win_mean_finite; [done|].
  intros ->. simpl in Hl. lia.
Qed.

Lemma mean_of_positive w ws :
  (0 < w)%nat → Forall positive ws → length ws = w →
  positive (pd.win_mean ws).
Proof.
  intros Hw Hws Hl. apply win_mean_positive; [done|].
  intros ->. simpl in Hl. lia.
Qed.

Lemma max_of_finite w ws :
  (0 < w)%nat → Forall finite ws → length ws = w → finite (pd.win_max ws).
Proof.
  intros Hw Hws Hl. apply win_max_finite; [done|].
  intros ->. simpl in Hl. lia.
Qed.

Lemma std_of_finite fsqrt w ws :
  (2 ≤ w)%nat → Forall finite ws → length ws = w →
  finite (nsqrt fsqrt (pd.win_var ws)).
Proof.
  intros Hw Hws Hl. apply nsqrt_finite, win_var_finite; [done|lia].
Qed.

(** *** Exponential smoothing of finite and of positive values *)

Lemma alpha_pos (p : nat) : (0 < alpha p)%Qc.
Proof.
  unfold alpha, Qcdiv. apply Qcmult_pos_pos.
  - by apply Q2Qc_inject_Z_pos.
  - apply Qcinv_pos, Q2Qc_inject_Z_pos. lia.
Qed.

Lemma Q2Qc_inject_Z_le (a b : Z) :
  a ≤ b → (Q2Qc (inject_Z a) <= Q2Qc (inject_Z b))%Qc.
Proof.
  intros Hab. unfold Qcle. simpl. rewrite !Qred_correct.
  unfold Qle. simpl. lia.
Qed.

Lemma alpha_le_1 (p : nat) : (1 ≤ p)%nat → (alpha p <= 1)%Qc.
Proof.
  intros Hp. unfold alpha.
  assert (0 < Q2Qc (inject_Z (Z.of_nat p + 1)))%Qc as Hd
    by (apply Q2Qc_inject_Z_pos; lia).
  apply (Qcmult_lt_0_le_reg_r _ _ _ Hd).
  rewrite Qcmult_1_l. unfold Qcdiv.
  rewrite <- Qcmult_assoc, Qcmult_inv_l, Qcmult_1_r
    by (intros Heq; rewrite Heq in Hd; by apply (Qclt_not_eq _ _ Hd)).
  apply Q2Qc_inject_Z_le. lia.
Qed.

Lemma ewm_from_finite a prev xs :
  finite a → finite prev → Forall finite xs →
  Forall finite (pd.ewm_from a prev xs).
Proof.
  intros Ha Hp Hxs. revert prev Hp.
  induction Hxs as [|x xs Hx _ IH]; intros prev Hp; [by apply Forall_nil|].
  cbn [pd.ewm_from]. apply Forall_cons. split.
  - apply finite_nadd; apply finite_nmul; try done.
    apply finite_nsub; [by eexists|done].
  - apply IH. apply finite_nadd; apply finite_nmul; try done.
    apply finite_nsub; [by eexists|done].
Qed.

Lemma ewm_mean_finite p xs :
  Forall finite xs → Forall finite (pd.ewm_mean p xs).
Proof.
  intros Hxs. destruct Hxs as [|x xs Hx Hxs]; [by apply Forall_nil|].
  simpl. apply Forall_cons. split; [done|].
  apply ewm_from_finite; try done. rewrite ewm_alpha_fin. by eexists.
Qed.

Lemma ewm_step_positive (a : Qc) prev x :
  (0 < a)%Qc → (a <= 1)%Qc → positive prev → positive x →
  positive (nadd (nmul (nsub (Fin 1%Qc) (Fin a)) prev) (nmul (Fin a) x)).
Proof.
  intros Ha Ha1 (p & -> & Hp) (q & -> & Hq). eexists. split; [done|].
  apply Qcplus_nonneg_pos.
  - apply Qcmult_nonneg_nonneg; [|by apply Qclt_le_weak].
    by apply Qcle_minus_iff in Ha1.
  - by apply Qcmult_pos_pos.
Qed.

Lemma ewm_from_positive (a : Qc) prev xs :
  (0 < a)%Qc → (a <= 1)%Qc → positive prev → Forall positive xs →
  Forall positive (pd.ewm_from (Fin a) prev xs).
Proof.
  intros Ha Ha1 Hp Hxs. revert prev Hp.
  induction Hxs as [|x xs Hx _ IH]; intros prev Hp; [by apply Forall_nil|].
  cbn [pd.ewm_from]. apply Forall_cons. split.
  - by apply ewm_step_positive.
  - apply IH. by apply ewm_step_positive.
Qed.

Lemma ewm_mean_positive p xs :
  (1 ≤ p)%nat → Forall positive xs → Forall positive (pd.ewm_mean p xs).
Proof.
  intros Hp Hxs. destruct Hxs as [|x xs Hx Hxs]; [by apply Forall_nil|].
  simpl. apply Forall_cons. split; [done|]. rewrite ewm_alpha_fin.
  apply ewm_from_positive; try done; [apply alpha_pos|by apply alpha_le_1].
Qed.

(** ** Failure semantics of the indicator engine *)

(** The claim of C4 fails on a series that breaks every invariant (dates
    going back, a high below the low, a negative volume) and on the empty
    series: the engine returns an aligned frame for both. *)
Lemma engine_accepts_invalid_input :
  let bad : PriceSeries :=
    [{| date := 5; open := Q2Qc 5; high := Q2Qc 1; low := Q2Qc 9;
        close := Q2Qc 5; volume := -3 |};
     {| date := 2; open := Q2Qc 5; high := Q2Qc 5; low := Q2Qc 5;
        close := Q2Qc 5; volume := 10 |}] in
  valid_series bad = false ∧
  (∃ df, TechnicalEngine_run sqrt6 bad = Ok df ∧ aligned 2 df) ∧
  (∃ df, TechnicalEngine_run sqrt6 [] = Ok df ∧ aligned 0 df).
Proof.
  intros bad. split; [vm_compute; reflexivity|]. split.
  - eexists. split; [reflexivity|]. apply (engine_aligned sqrt6 bad).
  - eexists. split; [reflexivity|]. apply (engine_aligned sqrt6 []).
Qed.

(** ** Indicators of a warmed-up valid series *)

Lemma valid_bar_positive (b : Bar) :
  valid_bar b = true →
  (0 < high b)%Qc ∧ (0 < low b)%Qc ∧ (0 < close b)%Qc.
Proof.
  unfold valid_bar. intros H.
  repeat (apply andb_prop in H as [H ?]).
  repeat match goal with
         | H : bool_decide _ = true |- _ => apply bool_decide_eq_true in H
         end.
  done.
Qed.

Lemma valid_col_positive (f : Bar → Qc) (s : PriceSeries) :
  (∀ b, valid_bar b = true → (0 < f b)%Qc) →
  valid_series s = true → Forall positive (col f s).
Proof.
  intros Hf Hs. unfold valid_series in Hs. apply andb_prop in Hs as [Hs _].
  rewrite forallb_forall in Hs.
  unfold col. apply Forall_fmap, Forall_forall. intros b Hb.
  exists (f b). split; [done|]. apply Hf, Hs. by apply list_elem_of_In.
Qed.

Lemma finite_nanmax2 a b : finite a → no_inf b → finite (nanmax2 a b).
Proof.
  intros [p ->] [->|[q ->]]; [by eexists|].
  unfold nanmax2. case_match; by eexists.
Qed.

Lemma true_range_finite high low close :
  Forall finite high → Forall finite low → Forall finite close →
  Forall finite (true_range high low close).
Proof.
  intros Hh Hl Hc. unfold true_range.
  assert (∀ xs, Forall finite xs →
            Forall no_inf (nabs <$> zip_with nsub xs (pd.shift 1 close)))
    as Habs.
  { intros xs Hxs. apply Forall_fmap.
    apply (Forall_zip_with_2 finite no_inf); [|done|by apply shift_no_inf].
    intros a b [p ->] [->|[q ->]]; [by left|right; by eexists]. }
  apply (Forall_zip_with_2 finite no_inf); [apply finite_nanmax2| |by apply Habs].
  apply (Forall_zip_with_2 finite no_inf); [apply finite_nanmax2| |by apply Habs].
  apply (Forall_zip_with_2 finite finite); [apply finite_nsub|done..].
Qed.

Lemma cumsum_from_finite acc xs :
  finite acc → Forall finite xs → Forall finite (pd.cumsum_from acc xs).
Proof.
  intros Ha Hxs. revert acc Ha.
  induction Hxs as [|x xs Hx _ IH]; intros acc Ha; [by apply Forall_nil|].
  cbn [pd.cumsum_from]. apply Forall_cons.
  split; [by apply finite_nadd|]. apply IH. by apply finite_nadd.
Qed.

Lemma obv_finite close volume :
  Forall finite close → Forall finite volume →
  Forall finite (calculate_obv close volume).
Proof.
  intros Hc Hv. unfold calculate_obv, pd.cumsum.
  apply cumsum_from_finite; [by eexists|].
  unfold pd.fillna. apply Forall_fmap.
  eapply Forall_impl.
  - apply (Forall_zip_with_2 no_inf finite no_inf nmul); [| |exact Hv].
    + intros a b [->|[p ->]] [q ->]; [by left|right; by eexists].
    + apply Forall_fmap. eapply Forall_impl; [by apply diff_no_inf|].
      intros d [->|[q ->]]; [by left|]. right. simpl.
      unfold nsign. repeat case_match; by eexists.
  - intros x [->|[q ->]]; simpl; by eexists.
Qed.

Lemma macd_finite close :
  Forall finite close →
  Forall finite (calculate_macd close).1.1 ∧
  Forall finite (calculate_macd close).1.2 ∧
  Forall finite (calculate_macd close).2.
Proof.
  intros Hc. unfold calculate_macd, calculate_ema. simpl.
  assert (Forall finite
            (zip_with nsub (pd.ewm_mean 12 close) (pd.ewm_mean 26 close)))
    as Hm.
  { apply (Forall_zip_with_2 finite finite); [apply finite_nsub|..];
      by apply ewm_mean_finite. }
  pose proof (ewm_mean_finite 9 _ Hm) as Hs.
  split; [done|]. split; [done|].
  by apply (Forall_zip_with_2 finite finite); [apply finite_nsub|..].
Qed.

Section HoldsAtColumns.
Local Open Scope nat_scope.

Lemma slope_finite_at xs i :
  5 ≤ i → i < length xs →
  holds_at finite xs i → holds_at positive xs (i - 5) →
  holds_at finite (slope xs) i.
Proof.
  intros H5 Hi Hx Hp. unfold slope, pd.pct_change.
  apply (holds_at_fmap finite finite);
    [intros a Ha; apply finite_nmul; [done|apply finite_Z2num]|].
  apply (holds_at_zip_with finite positive finite); [|done|].
  - intros a b Ha Hb. apply finite_nsub; [by apply finite_ndiv|by eexists].
  - by apply holds_at_shift.
Qed.

Lemma roc_finite_at close i k :
  k ≤ i → i < length close → Forall positive close →
  holds_at finite (calculate_roc close k) i.
Proof.
  intros Hk Hi Hc. unfold calculate_roc.
  apply (holds_at_zip_with positive positive finite).
  - intros a b Ha Hb. apply finite_nmul; [|apply finite_Z2num].
    apply finite_ndiv; [|done].
    apply finite_nsub; by apply positive_finite.
  - by apply holds_at_Forall.
  - apply holds_at_shift; [done..|]. apply holds_at_Forall; [done|lia].
Qed.


Lemma rolling_mean_finite_at w xs i :
  0 < w → w ≤ S i → i < length xs → Forall finite xs →
  holds_at finite (rolling_mean w xs) i.
Proof.
  intros Hw Hi Hl Hxs. unfold rolling_mean.
  apply (holds_at_rolling finite finite); [|done..].
  intros ws. by apply mean_of_finite.
Qed.

Lemma rolling_mean_positive_at w xs i :
  0 < w → w ≤ S i → i < length xs → Forall positive xs →
  holds_at positive (rolling_mean w xs) i.
Proof.
  intros Hw Hi Hl Hxs. unfold rolling_mean.
  apply (holds_at_rolling positive positive); [|done..].
  intros ws. by apply mean_of_positive.
Qed.



End HoldsAtColumns.

Section Warm.
Variable fsqrt : Qc → Qc.
Variable s : PriceSeries.
Hypothesis valid_s : valid_series s = true.
Hypothesis long_s : (252 ≤ length s)%nat.

Local Abbreviation df := (calculate_all_indicators fsqrt s).

Lemma high_positive : Forall positive (col high s).
Proof.
  apply valid_col_positive; [|done]. intros b Hb.
  by apply valid_bar_positive in Hb as (? & _ & _).
Qed.
Lemma low_positive : Forall positive (col low s).
Proof.
  apply valid_col_positive; [|done]. intros b Hb.
  by apply valid_bar_positive in Hb as (_ & ? & _).
Qed.









(** *** The ratio fields *)

Lemma iloc_last_lookup {A} (xs : list A) (x : A) :
  pd.iloc xs (-1) = Some x → xs !! (length xs - 1)%nat = Some x.
Proof. rewrite iloc_last. by case_decide. Qed.










End Warm.




(** * Further properties *)

(** Linear arithmetic over canonical rationals, through [Q]. *)
Lemma this_Q2Qc_inject_Z (z : Z) : this (Q2Qc (inject_Z z)) = inject_Z z.
Proof. simpl. apply Qred_identity. simpl. apply Z.gcd_1_r. Qed.

Ltac qc_lra :=
  unfold Z2num, Screen.ofZ in *;
  repeat match goal with
         | H : bool_decide _ = true |- _ => apply bool_decide_eq_true in H
         | H : bool_decide _ = false |- _ => apply bool_decide_eq_false in H
         end;
  unfold Qcle, Qclt in *;
  rewrite ?this_Q2Qc_inject_Z in *;
  unfold inject_Z in *;
  lra.

(** ** Classification *)

(** X1. The label never goes down when the total goes up. *)
Theorem classification_monotone (s1 s2 : Z) :
  s1 ≤ s2 → label_rank (classify s1).1 ≤ label_rank (classify s2).1.
Proof.
  intros Hs. unfold classify.
  repeat case_decide; try lia; vm_compute; congruence.
Qed.

Lemma classification_monotone_witness :
  label_rank (classify 54).1 ≤ label_rank (classify 55).1.
Proof. apply classification_monotone. lia. Defined.

(** ** RSI bands *)

(** X2. The four RSI bands overlap and the first match wins, so that the
    points are 8 on [60, 70], 6 on [55, 60), 4 on [50, 55), 2 on [45, 50)
    and 0 elsewhere, in particular above 70. *)
Theorem rsi_points_bands (q : Qc) :
  let at_least (z : Z) := (Q2Qc (inject_Z z) <= q)%Qc in
  let below (z : Z) := (q < Q2Qc (inject_Z z))%Qc in
  (rsi_points (Fin q) = 8 ↔ at_least 60 ∧ (q <= Q2Qc (inject_Z 70))%Qc) ∧
  (rsi_points (Fin q) = 6 ↔ at_least 55 ∧ below 60) ∧
  (rsi_points (Fin q) = 4 ↔ at_least 50 ∧ below 55) ∧
  (rsi_points (Fin q) = 2 ↔ at_least 45 ∧ below 50) ∧
  (rsi_points (Fin q) = 0 ↔ below 45 ∨ (Q2Qc (inject_Z 70) < q)%Qc).
Proof.
  intros at_least below.
  unfold at_least, below, rsi_points, between, nle, notna, Z2num.
  cbv beta iota.
  destruct (bool_decide (Q2Qc (inject_Z 60) <= q)%Qc) eqn:H60;
  destruct (bool_decide (q <= Q2Qc (inject_Z 70))%Qc) eqn:H70;
  destruct (bool_decide (Q2Qc (inject_Z 55) <= q)%Qc) eqn:H55;
  destruct (bool_decide (q <= Q2Qc (inject_Z 65))%Qc) eqn:H65;
  destruct (bool_decide (Q2Qc (inject_Z 50) <= q)%Qc) eqn:H50;
  destruct (bool_decide (q <= Q2Qc (inject_Z 60))%Qc) eqn:H60';
  destruct (bool_decide (Q2Qc (inject_Z 45) <= q)%Qc) eqn:H45;
  destruct (bool_decide (q <= Q2Qc (inject_Z 55))%Qc) eqn:H55';
  cbn [andb];
  try (exfalso; qc_lra);
  repeat split; intros; try done; try qc_lra;
  try (destruct_and?; destruct_or?; exfalso; qc_lra).
Qed.

Lemma rsi_points_bands_witness :
  rsi_points (Z2num 72) = 0 ∧ rsi_points (Z2num 60) = 8.
Proof.
  split.
  - apply (rsi_points_bands (Q2Qc (inject_Z 72))). right. compute_done.
  - apply (rsi_points_bands (Q2Qc (inject_Z 60))). split; compute_done.
Defined.

(** ** Trend alignment: full alignment earns spacing points *)

Lemma ngt_Fin_inv (a : num) (q : Qc) :
  ngt a (Fin q) = true → a = Inf false ∨ ∃ p : Qc, a = Fin p ∧ (q < p)%Qc.
Proof.
  unfold ngt, nlt. destruct a as [|[|]|p]; try done; [by left|].
  intros H. right. exists p. split; [done|]. by apply bool_decide_eq_true in H.
Qed.

(** X3. When the price-position sub-rule gives its 12 points and SMA50 is
    positive, the spacing sub-rule gives at least 3: a fully aligned stock
    scores at least 15 on these two sub-rules. *)
Theorem full_alignment_earns_spacing (c e m l : num) :
  price_position c e m l = 12 → positive m → 3 ≤ ma_divergence e m l.
Proof.
  intros H12 (qm & -> & Hm). unfold price_position in H12.
  destruct (notna e && notna (Fin qm) && notna l) eqn:Hn; [|done].
  destruct (ngt c e && ngt e (Fin qm) && ngt (Fin qm) l) eqn:Ha;
    [|repeat case_match; done].
  apply andb_prop in Ha as [Ha Hml]. apply andb_prop in Ha as [Hce Hem].
  unfold ma_divergence. rewrite Hn, Hem, Hml. cbn [andb].
  apply ngt_Fin_inv in Hem as [->|(qe & -> & Hem)].
  { by destruct c as [|[|]|]. }
  assert (ngt (nmul (ndiv (nsub (Fin qe) (Fin qm)) (Fin qm)) (Z2num 100))
              (Z2num 0) = true) as Hs.
  { unfold ndiv, nsub, nneg, nadd.
    rewrite decide_False by (intros ->; by apply (Qclt_not_eq _ _ Hm)).
    apply bool_decide_eq_true. unfold Qcdiv.
    apply Qcmult_pos_pos; [|by apply Q2Qc_inject_Z_pos].
    apply Qcmult_pos_pos; [|by apply Qcinv_pos].
    by apply Qclt_minus_iff in Hem. }
  rewrite Hs. case_match; lia.
Qed.

Lemma full_alignment_earns_spacing_witness :
  3 ≤ ma_divergence (Z2num 102) (Z2num 101) (Z2num 100).
Proof.
  apply (full_alignment_earns_spacing (Z2num 103));
    [vm_compute; reflexivity|by apply positive_Z2num].
Defined.

(** ** Weekly momentum needs history *)

Lemma length_every_aux {A} (fuel : nat) (xs : list A) :
  (5 * length (pd.every_aux fuel 5 xs) ≤ length xs + 4)%nat.
Proof.
  revert xs. induction fuel as [|fuel IH]; intros xs; [simpl; lia|].
  destruct xs as [|x xs]; [simpl; lia|].
  cbn [pd.every_aux]. specialize (IH (drop 5 (x :: xs))).
  rewrite length_drop in IH. simpl length in *. lia.
Qed.

Lemma rises_le_length (l : list num) : rises l ≤ Z.of_nat (length l - 1).
Proof.
  induction l as [|a [|b r] IH]; [done..|].
  change (rises (a :: b :: r))
    with (if ngt a b then 1 + rises (b :: r) else 0).
  cbn [length] in *. case_match; lia.
Qed.

(** X4. The weekly-momentum sub-rule samples every fifth close of the last
    35: it cannot give points with fewer than 6 closes, nor its 10 points
    with fewer than 26. *)
Theorem weekly_momentum_needs_history (closes : pd.Series) :
  (0 < weekly_momentum closes → (6 ≤ length closes)%nat) ∧
  (weekly_momentum closes = 10 → (26 ≤ length closes)%nat).
Proof.
  unfold weekly_momentum.
  set (wc := pd.every 5 (pd.iloc_from closes (-35))).
  assert (5 * length wc ≤ length closes + 4)%nat as Hwc.
  { unfold wc, pd.every.
    pose proof (length_every_aux (length (pd.iloc_from closes (-35)))
                  (pd.iloc_from closes (-35))) as H.
    assert (length (pd.iloc_from closes (-35)) ≤ length closes)%nat
      by (unfold pd.iloc_from; rewrite length_drop; lia).
    lia. }
  pose proof (rises_le_length (reverse wc)) as Hr.
  rewrite length_reverse in Hr.
  split; intros H; repeat case_decide; try lia.
Qed.

Lemma weekly_momentum_needs_history_witness :
  weekly_momentum (Z2num <$> seqZ 1 26) = 10 ∧
  (26 ≤ length (Z2num <$> seqZ 1 26))%nat.
Proof.
  split; [vm_compute; reflexivity|].
  apply (weekly_momentum_needs_history (Z2num <$> seqZ 1 26)).
  vm_compute; reflexivity.
Defined.

(** ** The result cache *)

(** X5. A stored result is served again exactly while less than 3600
    seconds have passed since it was stored, whatever the cache held before;
    storing under one key leaves the answers for every other key alone. *)
Theorem cache_serves_for_one_hour {V} (t t' : Qc) (st : Cache.state V)
    (key key' : string) (data : V) :
  (Cache.get_cached_data t' (Cache.set_cached_data t st key data) key
   = Some data ↔ (t' - t < Q2Qc (inject_Z 3600))%Qc) ∧
  (Cache.get_cached_data t' (Cache.set_cached_data t st key data) key
   = None ↔ (Q2Qc (inject_Z 3600) <= t' - t)%Qc) ∧
  (key' ≠ key →
   Cache.get_cached_data t' (Cache.set_cached_data t st key data) key'
   = Cache.get_cached_data t' st key').
Proof.
  unfold Cache.get_cached_data, Cache.set_cached_data.
  cbn [Cache.cache Cache.cache_timestamps].
  rewrite !lookup_insert_eq. cbn [default].
  fold (@Cache.CACHE_DURATION). unfold Cache.CACHE_DURATION.
  split; [|split].
  - case_bool_decide; split; intros; done.
  - case_bool_decide as Hlt; split; intros Hx; try done.
    + by apply Qcle_not_lt in Hx.
    + by apply Qcnot_lt_le.
  - intros Hne. by rewrite !lookup_insert_ne.
Qed.

Lemma cache_serves_for_one_hour_witness :
  Cache.get_cached_data (Q2Qc (inject_Z 4000))
    (Cache.set_cached_data (Q2Qc (inject_Z 500))
       (Cache.set_cached_data 0%Qc Cache.empty "stock:TCS.NS" 1)
       "stock:INFY.NS" 2) "stock:TCS.NS"
  = Cache.get_cached_data (Q2Qc (inject_Z 4000))
      (Cache.set_cached_data 0%Qc Cache.empty "stock:TCS.NS" 1)
      "stock:TCS.NS".
Proof.
  pose proof (cache_serves_for_one_hour (Q2Qc (inject_Z 500))
                (Q2Qc (inject_Z 4000))
                (Cache.set_cached_data 0%Qc Cache.empty "stock:TCS.NS" 1)
                "stock:INFY.NS" "stock:TCS.NS" 2) as H.
  apply H. discriminate.
Defined.

(** ** Trading signals and trend strength *)

Lemma ngt_trans (a b c : num) :
  ngt a b = true → ngt b c = true → ngt a c = true.
Proof.
  unfold ngt, nlt.
  destruct a as [|[|]|p], b as [|[|]|q], c as [|[|]|r]; try done.
  intros H1%bool_decide_eq_true H2%bool_decide_eq_true.
  apply bool_decide_eq_true. by apply Qclt_trans with q.
Qed.

Ltac closed_elem :=
  match goal with
  | H : _ ∈ _ |- _ => exfalso; revert H; compute_done
  | |- _ ∈ _ => compute_done
  end.

Lemma signals_of_row (df : AugmentedSeries) (latest : LatestRow) (x : string) :
  last_row df = Some latest → x ≠ "No strong signals detected" →
  x ∈ generate_trading_signals df ↔ x ∈ row_signals latest.
Proof.
  intros Hrow Hx. unfold generate_trading_signals. rewrite Hrow.
  case_bool_decide as He; [|done].
  rewrite He. split; [|by intros ?%elem_of_nil].
  by intros ->%list_elem_of_singleton.
Qed.

Lemma row_signals_length (latest : LatestRow) : (length (row_signals latest) ≤ 5)%nat.
Proof.
  unfold row_signals. rewrite !length_app.
  repeat match goal with
         | |- context [length (if ?b then _ else _)] => destruct b
         end; simpl; lia.
Qed.

Lemma row_signals_not_default (latest : LatestRow) :
  "No strong signals detected" ∉ row_signals latest.
Proof.
  unfold row_signals. rewrite !elem_of_app.
  repeat match goal with
         | |- context [if ?b then _ else _] => destruct b
         end; intros H; decompose [or] H; closed_elem.
Qed.

(** X6. The signal list is never empty and has at most five entries; the
    entry "No strong signals detected" stands alone when it occurs, and it
    is the whole answer for a frame without rows. *)
Theorem trading_signals_shape (df : AugmentedSeries) :
  (1 ≤ length (generate_trading_signals df) ≤ 5)%nat ∧
  ("No strong signals detected" ∈ generate_trading_signals df
     → generate_trading_signals df = ["No strong signals detected"]) ∧
  (last_row df = None
     → generate_trading_signals df = ["No strong signals detected"]).
Proof.
  unfold generate_trading_signals.
  destruct (last_row df) as [latest|] eqn:Hrow.
  - case_bool_decide as He; [simpl; split; [lia|done]|].
    pose proof (row_signals_length latest) as Hlen.
    pose proof (row_signals_not_default latest) as Hnd.
    destruct (row_signals latest) as [|s r]; [done|].
    cbn [length] in *. split; [lia|]. split; [|done]. by intros ?.
  - rewrite bool_decide_eq_true_2 by done. simpl. split; [lia|done].
Qed.

Lemma trading_signals_shape_witness :
  generate_trading_signals (calculate_all_indicators sqrt6 [])
  = ["No strong signals detected"].
Proof.
  pose proof (trading_signals_shape (calculate_all_indicators sqrt6 []))
    as H.
  apply H. vm_compute. reflexivity.
Defined.

Lemma last_row_inv (df : AugmentedSeries) (latest : LatestRow) :
  last_row df = Some latest →
  pd.iloc (Close df) (-1) = Some (row_Close latest) ∧
  pd.iloc (EMA_20 df) (-1) = Some (row_EMA_20 latest) ∧
  pd.iloc (SMA_50 df) (-1) = Some (row_SMA_50 latest) ∧
  pd.iloc (SMA_200 df) (-1) = Some (row_SMA_200 latest) ∧
  pd.iloc (RSI df) (-1) = Some (row_RSI latest) ∧
  pd.iloc (ADX df) (-1) = Some (row_ADX latest) ∧
  pd.iloc (Vol_Ratio df) (-1) = Some (row_Vol_Ratio latest).
Proof.
  unfold last_row. intros H.
  repeat match type of H with
         | (mbind _ ?o) = Some _ => destruct o; [cbn [mbind option_bind] in H|done]
         end.
  by injection H as <-.
Qed.

Lemma last_row_aligned (df : AugmentedSeries) (n : nat) :
  aligned n df → (0 < n)%nat → is_Some (last_row df).
Proof.
  intros [Hcols _] Hn. unfold columns in Hcols.
  repeat match goal with
         | H : Forall _ (_ :: _) |- _ => apply Forall_cons in H as [? H]
         end.
  unfold last_row.
  repeat match goal with
         | |- is_Some (mbind _ (pd.iloc ?c (-1))) =>
             let x := fresh "x" in
             destruct (iloc_last_is_Some c) as [x ->];
             [lia|cbn [mbind option_bind]]
         end.
  done.
Qed.

Lemma last_row_engine (fsqrt : Qc → Qc) (ps : PriceSeries) :
  last_row (calculate_all_indicators fsqrt ps) = None ↔ ps = [].
Proof.
  split; [|by intros ->].
  intros H. destruct ps as [|b ps]; [done|].
  destruct (last_row_aligned _ _ (engine_aligned fsqrt (b :: ps))) as [r Hr];
    [simpl; lia|]. congruence.
Qed.

Lemma rolling_last_early (w : nat) agg (xs : pd.Series) (x : num) :
  (length xs < w)%nat → pd.iloc (pd.rolling w agg xs) (-1) = Some x → x = NaN.
Proof.
  intros Hw. rewrite iloc_last. case_decide as He; [done|].
  rewrite length_rolling. intros Hx.
  assert (length xs ≠ 0)%nat as Hz.
  { intros Hz. apply He. apply length_zero_iff_nil. by rewrite length_rolling. }
  rewrite lookup_rolling_early in Hx by lia. congruence.
Qed.

Lemma row_signals_uptrend (latest : LatestRow) :
  "Strong uptrend - all MAs aligned" ∈ row_signals latest ↔
  notna (row_SMA_50 latest) && notna (row_SMA_200 latest)
  && (ngt (row_Close latest) (row_SMA_50 latest)
      && ngt (row_SMA_50 latest) (row_SMA_200 latest)) = true.
Proof.
  unfold row_signals.
  repeat match goal with
         | |- context [if ?b then _ else _] => destruct b
         end; cbn [app]; split; intros H; first [done | closed_elem].
Qed.

Lemma row_signals_rsi_zone (latest : LatestRow) :
  "RSI in strong momentum zone" ∈ row_signals latest ↔
  notna (row_RSI latest)
  && between (Z2num 60) (row_RSI latest) (Z2num 70) = true.
Proof.
  unfold row_signals.
  repeat match goal with
         | |- context [if ?b then _ else _] => destruct b
         end; cbn [app]; split; intros H; first [done | closed_elem].
Qed.

Lemma row_signals_volume (latest : LatestRow) :
  "High volume surge detected" ∈ row_signals latest ↔
  notna (row_Vol_Ratio latest)
  && ngt (row_Vol_Ratio latest) (Z2num 150) = true.
Proof.
  unfold row_signals.
  repeat match goal with
         | |- context [if ?b then _ else _] => destruct b
         end; cbn [app]; split; intros H; first [done | closed_elem].
Qed.

Lemma row_signals_macd (latest : LatestRow) :
  "Bullish MACD crossover" ∈ row_signals latest ↔
  notna (row_MACD latest) && notna (row_MACD_Signal latest)
  && (ngt (row_MACD latest) (row_MACD_Signal latest)
      && ngt (row_MACD_Hist latest) (Z2num 0)) = true.
Proof.
  unfold row_signals.
  repeat match goal with
         | |- context [if ?b then _ else _] => destruct b
         end; cbn [app]; split; intros H; first [done | closed_elem].
Qed.

(** X7. On the same last row the signals agree with the points of the
    scoring rules: the RSI-zone signal is given exactly when the RSI rule
    gives its 8 points, the volume-surge signal exactly when the volume-surge
    rule gives 6 or more, the MACD signal exactly when the MACD rule gives 6
    or more, and the uptrend signal whenever the price-position rule gives
    10 or more. *)
Theorem signals_agree_with_scoring (df : AugmentedSeries) (latest : LatestRow) :
  last_row df = Some latest →
  ("RSI in strong momentum zone" ∈ generate_trading_signals df
     ↔ rsi_points (row_RSI latest) = 8) ∧
  ("High volume surge detected" ∈ generate_trading_signals df
     ↔ 6 ≤ volume_surge (row_Vol_Ratio latest)) ∧
  (∀ hist_mom : num,
     "Bullish MACD crossover" ∈ generate_trading_signals df
     ↔ 6 ≤ macd_points (row_MACD latest) (row_MACD_Signal latest)
             (row_MACD_Hist latest) hist_mom) ∧
  (10 ≤ price_position (row_Close latest) (row_EMA_20 latest)
          (row_SMA_50 latest) (row_SMA_200 latest)
     → "Strong uptrend - all MAs aligned" ∈ generate_trading_signals df).
Proof.
  intros Hrow. split; [|split; [|split]].
  - rewrite (signals_of_row df latest) by done.
    rewrite row_signals_rsi_zone. unfold rsi_points.
    destruct (notna (row_RSI latest)); [|done].
    destruct (between (Z2num 60) (row_RSI latest) (Z2num 70)); [done|].
    cbn [andb]. split; [done|]. by repeat case_match.
  - rewrite (signals_of_row df latest) by done.
    rewrite row_signals_volume. unfold volume_surge.
    destruct (notna (row_Vol_Ratio latest)); [|done]. cbn [andb].
    destruct (ngt (row_Vol_Ratio latest) (Z2num 200)) eqn:H200.
    { rewrite (ngt_trans _ (Z2num 200) (Z2num 150)) by done. done. }
    destruct (ngt (row_Vol_Ratio latest) (Z2num 150)); [done|].
    split; [done|]. repeat case_match; lia.
  - intros hist_mom. rewrite (signals_of_row df latest) by done.
    rewrite row_signals_macd. unfold macd_points.
    destruct (notna (row_MACD latest) && notna (row_MACD_Signal latest));
      [|done]. cbn [andb].
    destruct (ngt (row_MACD latest) (row_MACD_Signal latest)); [|done].
    destruct (ngt (row_MACD_Hist latest) (Z2num 0)); cbn [andb]; [|done].
    split; [|done]. intros _. case_match; lia.
  - rewrite (signals_of_row df latest) by done.
    rewrite row_signals_uptrend. unfold price_position.
    destruct (notna (row_EMA_20 latest)), (notna (row_SMA_50 latest)),
      (notna (row_SMA_200 latest)); cbn [andb]; try (intros; lia).
    destruct (ngt (row_SMA_50 latest) (row_SMA_200 latest)); cycle 1.
    { rewrite !andb_false_r. repeat case_match; intros; lia. }
    rewrite !andb_true_r.
    destruct (ngt (row_Close latest) (row_SMA_50 latest)) eqn:Hcm; [done|].
    destruct (ngt (row_Close latest) (row_EMA_20 latest)
              && ngt (row_EMA_20 latest) (row_SMA_50 latest)) eqn:Ht.
    { apply andb_prop in Ht as [H1 H2].
      by rewrite (ngt_trans _ _ _ H1 H2) in Hcm. }
    repeat case_match; intros; lia.
Qed.

Lemma signals_agree_with_scoring_witness :
  ∃ latest : LatestRow,
    last_row (calculate_all_indicators sqrt6 (flat_series 30 (Q2Qc 100) 1000))
    = Some latest ∧
    ("High volume surge detected"
       ∈ generate_trading_signals
           (calculate_all_indicators sqrt6 (flat_series 30 (Q2Qc 100) 1000))
     ↔ 6 ≤ volume_surge (row_Vol_Ratio latest)).
Proof.
  eexists. split; [vm_compute; reflexivity|].
  refine (proj1 (proj2 (signals_agree_with_scoring _ _ _))).
  vm_compute; reflexivity.
Defined.

Lemma strong_needs_alignment (latest : LatestRow) :
  (Q2Qc (6 # 10) <= trend_factors latest / Q2Qc 5)%Qc →
  notna (row_SMA_50 latest) && notna (row_SMA_200 latest)
  && (ngt (row_Close latest) (row_SMA_50 latest)
      && ngt (row_SMA_50 latest) (row_SMA_200 latest)) = true.
Proof.
  unfold trend_factors.
  destruct (notna (row_EMA_20 latest)), (notna (row_SMA_50 latest)),
    (notna (row_SMA_200 latest)); cbn [andb];
  destruct (ngt (row_SMA_50 latest) (row_SMA_200 latest));
  rewrite ?andb_true_r, ?andb_false_r;
  destruct (ngt (row_Close latest) (row_SMA_50 latest)) eqn:Hcm;
  try done;
  try (destruct (ngt (row_Close latest) (row_EMA_20 latest)
                 && ngt (row_EMA_20 latest) (row_SMA_50 latest)) eqn:Ht;
       [apply andb_prop in Ht as [H1 H2];
        by rewrite (ngt_trans _ _ _ H1 H2) in Hcm|]);
  destruct (notna (row_ADX latest)), (ngt (row_ADX latest) (Z2num 30)),
    (ngt (row_ADX latest) (Z2num 25)),
    (notna (row_RSI latest)
     && between (Z2num 55) (row_RSI latest) (Z2num 75)),
    (notna (row_Vol_Ratio latest)
     && ngt (row_Vol_Ratio latest) (Z2num 120));
  intros H; exfalso; revert H; by vm_compute.
Qed.

(** X8. A trend strength of "Very Strong" or "Strong" is only reported for
    a row with close > SMA50 > SMA200, so the signal list of the same frame
    then contains "Strong uptrend - all MAs aligned". *)
Theorem strong_trend_has_uptrend_signal (df : AugmentedSeries) :
  calculate_trend_strength df = "Very Strong"
  ∨ calculate_trend_strength df = "Strong" →
  "Strong uptrend - all MAs aligned" ∈ generate_trading_signals df.
Proof.
  unfold calculate_trend_strength.
  destruct (last_row df) as [latest|] eqn:Hrow; [|by intros [?|?]].
  cbv zeta. intros H.
  rewrite (signals_of_row df latest) by done.
  apply row_signals_uptrend, strong_needs_alignment.
  repeat case_bool_decide; try done; try (by destruct H).
  apply Qcle_trans with (Q2Qc (8 # 10)); [by vm_compute|done].
Qed.

Lemma strong_trend_has_uptrend_signal_witness :
  "Strong uptrend - all MAs aligned"
    ∈ generate_trading_signals
        (calculate_all_indicators sqrt6
           (pullback_series 200 (Q2Qc 100) 1000)).
Proof.
  apply strong_trend_has_uptrend_signal. right. vm_compute. reflexivity.
Defined.

Lemma weak_without_alignment (latest : LatestRow) :
  row_SMA_200 latest = NaN →
  (trend_factors latest / Q2Qc 5 < Q2Qc (6 # 10))%Qc.
Proof.
  intros Hl. apply Qcnot_le_lt. intros H%strong_needs_alignment.
  rewrite Hl in H. cbn [notna] in H. by rewrite andb_false_r in H.
Qed.

(** X9. On the output of the indicator engine the trend strength is
    "Unknown" only for the empty series, and a series of fewer than 200 bars
    (SMA200 still missing) is never rated "Very Strong" or "Strong". *)
Theorem trend_strength_short_history (fsqrt : Qc → Qc) (ps : PriceSeries) :
  (calculate_trend_strength (calculate_all_indicators fsqrt ps) = "Unknown"
     ↔ ps = []) ∧
  ((length ps < 200)%nat →
     calculate_trend_strength (calculate_all_indicators fsqrt ps)
       ≠ "Very Strong" ∧
     calculate_trend_strength (calculate_all_indicators fsqrt ps)
       ≠ "Strong").
Proof.
  unfold calculate_trend_strength.
  destruct (last_row (calculate_all_indicators fsqrt ps)) as [latest|]
    eqn:Hrow.
  - cbv zeta. split.
    + split; [repeat case_bool_decide; done|].
      intros Hps. apply (last_row_engine fsqrt) in Hps. congruence.
    + intros Hlen.
      assert (row_SMA_200 latest = NaN) as Hl.
      { apply last_row_inv in Hrow as (_ & _ & _ & H200 & _).
        apply (rolling_last_early 200 pd.win_mean (col close ps));
          [by rewrite length_col|exact H200]. }
      pose proof (weak_without_alignment latest Hl) as Hw.
      assert (¬ (Q2Qc (8 # 10) <= trend_factors latest / Q2Qc 5)%Qc) as H8.
      { intros H8. apply (Qclt_not_le _ _ Hw).
        apply Qcle_trans with (Q2Qc (8 # 10)); [by vm_compute|done]. }
      apply Qclt_not_le in Hw.
      rewrite (bool_decide_eq_false_2 _ H8), (bool_decide_eq_false_2 _ Hw).
      repeat case_bool_decide; done.
  - apply last_row_engine in Hrow as ->. split; [done|]. by intros _.
Qed.

Lemma trend_strength_short_history_witness :
  calculate_trend_strength
    (calculate_all_indicators sqrt6 (step_series 60 (Q2Qc 100) (Q2Qc 110) 1000))
  ≠ "Strong".
Proof.
  apply (trend_strength_short_history sqrt6
           (step_series 60 (Q2Qc 100) (Q2Qc 110) 1000)).
  vm_compute. lia.
Defined.

(** ** Screening: filters and ranking *)

Lemma elem_of_List_filter {A} (k : A → bool) (l : list A) (x : A) :
  x ∈ List.filter k l ↔ x ∈ l ∧ k x = true.
Proof. rewrite !list_elem_of_In. apply filter_In. Qed.

Lemma elem_of_filter_if (flt : bool) keep rs (r : Screen.StockResult) :
  r ∈ Screen.filter_if flt keep rs ↔ r ∈ rs ∧ (flt = true → keep r = true).
Proof.
  destruct flt; cbn [Screen.filter_if]; rewrite ?elem_of_List_filter.
  - split; intros [? ?]; auto.
  - split; [by intros ?|by intros [? _]].
Qed.

Lemma sublist_List_filter {A} (k : A → bool) (l : list A) :
  List.filter k l `sublist_of` l.
Proof.
  induction l as [|x l IH]; cbn [List.filter]; [done|].
  destruct (k x); by constructor.
Qed.

Lemma sublist_filter_if (flt : bool) keep rs :
  Screen.filter_if flt keep rs `sublist_of` rs.
Proof. destruct flt; [apply sublist_List_filter|done]. Qed.

Lemma apply_filters_sublist f rs : Screen.apply_filters f rs `sublist_of` rs.
Proof.
  unfold Screen.apply_filters. cbv zeta.
  repeat (etrans; [apply sublist_filter_if|]). done.
Qed.

Lemma insert_by_score_perm x l : Screen.insert_by_score x l ≡ₚ x :: l.
Proof.
  induction l as [|y r IH]; cbn [Screen.insert_by_score]; [done|].
  case_bool_decide; [|done]. rewrite IH. apply Permutation_swap.
Qed.

Lemma sort_by_score_perm l : Screen.sort_by_score l ≡ₚ l.
Proof.
  induction l as [|x l IH]; [done|].
  cbn [Screen.sort_by_score foldr]. rewrite insert_by_score_perm.
  by f_equiv.
Qed.

Local Abbreviation by_score :=
  (λ a b : Screen.StockResult, Screen.total_score b ≤ Screen.total_score a).

Lemma insert_by_score_sorted x l :
  StronglySorted by_score l → StronglySorted by_score (Screen.insert_by_score x l).
Proof.
  induction 1 as [|y r Hs IH Hy]; cbn [Screen.insert_by_score].
  { repeat constructor. }
  case_bool_decide as Hlt.
  - constructor; [done|]. rewrite insert_by_score_perm.
    constructor; [lia|done].
  - constructor; [by constructor|]. constructor; [lia|].
    eapply Forall_impl; [exact Hy|]. cbv beta. intros; lia.
Qed.

Lemma sort_by_score_sorted l : StronglySorted by_score (Screen.sort_by_score l).
Proof.
  induction l as [|x l IH]; [constructor|].
  cbn [Screen.sort_by_score foldr]. by apply insert_by_score_sorted.
Qed.

Lemma StronglySorted_lookup_lt {A} (R : A → A → Prop) (l : list A)
    (i j : nat) (a b : A) :
  StronglySorted R l → (i < j)%nat → l !! i = Some a → l !! j = Some b →
  R a b.
Proof.
  intros Hs. revert i j. induction Hs as [|x l Hs IH Hx]; intros i j Hij Ha Hb.
  { by rewrite lookup_nil in Ha. }
  destruct j as [|j]; [lia|]. cbn in Hb. destruct i as [|i].
  - injection Ha as <-. rewrite Forall_forall in Hx. apply Hx.
    by eapply list_elem_of_lookup_2.
  - apply (IH i j); [lia|done..].
Qed.

Lemma filter_insert_by_score (s : Z) x l :
  filter (λ r, Screen.total_score r = s) (Screen.insert_by_score x l)
  = filter (λ r, Screen.total_score r = s) (x :: l).
Proof.
  induction l as [|y r IH]; cbn [Screen.insert_by_score]; [done|].
  case_bool_decide as Hlt; [|done].
  rewrite filter_cons, IH, !filter_cons.
  repeat case_decide; try done; lia.
Qed.

Lemma filter_sort_by_score (s : Z) l :
  filter (λ r, Screen.total_score r = s) (Screen.sort_by_score l)
  = filter (λ r, Screen.total_score r = s) l.
Proof.
  induction l as [|x l IH]; [done|].
  cbn [Screen.sort_by_score foldr]. rewrite filter_insert_by_score.
  rewrite !filter_cons. fold (Screen.sort_by_score l). by rewrite IH.
Qed.

(** X10. The screened list is ranked: a result never stands before one
    with a higher total score, and results of equal score keep the order
    they had in the input (for each score, the results with that score form
    a subsequence of the input). *)
Theorem screen_ranks_by_score (f : Screen.ScreeningFilters)
    (rs : list Screen.StockResult) :
  (∀ (i j : nat) (a b : Screen.StockResult),
     (i < j)%nat →
     Screen.screen f rs !! i = Some a → Screen.screen f rs !! j = Some b →
     Screen.total_score b ≤ Screen.total_score a) ∧
  (∀ s : Z,
     filter (λ r, Screen.total_score r = s) (Screen.screen f rs)
       `sublist_of` rs).
Proof.
  unfold Screen.screen. split.
  - intros i j a b Hij Ha Hb.
    exact (StronglySorted_lookup_lt by_score _ i j a b
             (sort_by_score_sorted _) Hij Ha Hb).
  - intros s. rewrite filter_sort_by_score.
    etrans; [apply sublist_filter|]. apply apply_filters_sublist.
Qed.

Lemma screen_ranks_by_score_witness :
  Screen.total_score (sample_result "TCS.NS" 62 30 60)
  ≤ Screen.total_score (sample_result "INFY.NS" 88 35 65).
Proof.
  apply (proj1 (screen_ranks_by_score Screen.default_filters sample_results)
           0%nat 1%nat); [lia|vm_compute; reflexivity..].
Defined.

Lemma truthy_Z_spec (o : option Z) (P : Z → Prop) :
  (∀ z, o = Some z → z ≠ 0 → P z)
  ↔ (Screen.truthy_Z o = true → P (default 0 o)).
Proof.
  destruct o as [z|]; cbn [Screen.truthy_Z default].
  - rewrite negb_true_iff, bool_decide_eq_false. split.
    + intros H Hz. by apply H.
    + intros H z' [= <-] Hz. by apply H.
  - split; [done|]. intros _ z. done.
Qed.

Lemma truthy_Qc_spec (o : option Qc) (P : Qc → Prop) :
  (∀ q, o = Some q → q ≠ 0%Qc → P q)
  ↔ (Screen.truthy_Qc o = true → P (default 0%Qc o)).
Proof.
  destruct o as [q|]; cbn [Screen.truthy_Qc default].
  - rewrite negb_true_iff, bool_decide_eq_false. split.
    + intros H Hq. by apply H.
    + intros H q' [= <-] Hq. by apply H.
  - split; [done|]. intros _ q. done.
Qed.

Lemma truthy_list_spec (o : option (list string)) (x : string) :
  (∀ ls, o = Some ls → ls ≠ [] → x ∈ ls)
  ↔ (Screen.truthy_list o = true → Screen.in_list x o = true).
Proof.
  unfold Screen.in_list. rewrite bool_decide_eq_true.
  destruct o as [[|y ls]|]; cbn [Screen.truthy_list default].
  - split; [done|]. by intros _ ls [= <-].
  - split; [intros H _; by apply H|]. intros H ls' [= <-] _. by apply H.
  - split; [done|]. by intros _ ls.
Qed.

Lemma indicator_spec (o : option Qc) (P : Qc → Prop) `{!Decision (P (default 0%Qc o))} :
  (∃ x, o = Some x ∧ x ≠ 0%Qc ∧ P x)
  ↔ Screen.truthy_Qc o && bool_decide (P (default 0%Qc o)) = true.
Proof.
  rewrite andb_true_iff, bool_decide_eq_true.
  destruct o as [q|]; cbn [Screen.truthy_Qc default].
  - rewrite negb_true_iff, bool_decide_eq_false. split.
    + by intros (x & [= <-] & Hx & HP).
    + intros [Hq HP]. by exists q.
  - split; [by intros (x & ? & _)|by intros [? _]].
Qed.

Lemma passes_iff (f : Screen.ScreeningFilters) (r : Screen.StockResult) :
  Screen.passes f r ↔
  (Screen.truthy_Z (Screen.min_score f) = true →
     bool_decide (default 0 (Screen.min_score f) ≤ Screen.total_score r)
     = true) ∧
  (Screen.truthy_Z (Screen.max_score f) = true →
     bool_decide (Screen.total_score r ≤ default 0 (Screen.max_score f))
     = true) ∧
  (Screen.truthy_list (Screen.strength_levels f) = true →
     Screen.in_list (Screen.classification r) (Screen.strength_levels f)
     = true) ∧
  (Screen.truthy_Z (Screen.min_adx f) = true →
     Screen.truthy_Qc (Screen.adx r) &&
     bool_decide (Screen.ofZ (default 0%Z (Screen.min_adx f))
                  <= default 0%Qc (Screen.adx r))%Qc = true) ∧
  (Screen.truthy_Z (Screen.rsi_min f) || Screen.truthy_Z (Screen.rsi_max f)
   = true →
     Screen.truthy_Qc (Screen.rsi r) &&
     (bool_decide (Screen.ofZ (Screen.or_default (Screen.rsi_min f) 0%Z)
                   <= default 0%Qc (Screen.rsi r))%Qc &&
      bool_decide (default 0%Qc (Screen.rsi r)
                   <= Screen.ofZ (Screen.or_default (Screen.rsi_max f) 100%Z))%Qc)
     = true) ∧
  (Screen.truthy_list (Screen.sectors f) = true →
     Screen.in_list (Screen.sector r) (Screen.sectors f) = true) ∧
  (Screen.truthy_Qc (Screen.min_price f) = true →
     bool_decide (default 0%Qc (Screen.min_price f) <= Screen.price r)%Qc
     = true) ∧
  (Screen.truthy_Qc (Screen.max_price f) = true →
     bool_decide (Screen.price r <= default 0%Qc (Screen.max_price f))%Qc
     = true).
Proof.
  unfold Screen.passes.
  rewrite (truthy_Z_spec (Screen.min_score f)
             (λ lo, lo ≤ Screen.total_score r)).
  rewrite (truthy_Z_spec (Screen.max_score f)
             (λ hi, Screen.total_score r ≤ hi)).
  rewrite (truthy_list_spec (Screen.strength_levels f)).
  rewrite (truthy_list_spec (Screen.sectors f)).
  rewrite (truthy_Qc_spec (Screen.min_price f)
             (λ lo, (lo <= Screen.price r)%Qc)).
  rewrite (truthy_Qc_spec (Screen.max_price f)
             (λ hi, (Screen.price r <= hi)%Qc)).
  rewrite (truthy_Z_spec (Screen.min_adx f)
             (λ a, ∃ x, Screen.adx r = Some x ∧ x ≠ 0%Qc
                        ∧ (Screen.ofZ a <= x)%Qc)).
  rewrite (indicator_spec (Screen.adx r)
             (λ x, (Screen.ofZ (default 0%Z (Screen.min_adx f)) <= x)%Qc)).
  rewrite (indicator_spec (Screen.rsi r)
             (λ x, (Screen.ofZ (Screen.or_default (Screen.rsi_min f) 0%Z) <= x)%Qc
                   ∧ (x <= Screen.ofZ
                             (Screen.or_default (Screen.rsi_max f) 100%Z))%Qc)).
  rewrite bool_decide_and. by rewrite !bool_decide_eq_true.
Qed.

(** X11. A result is in the screened list exactly when it is in the input
    and meets every active filter; a filter whose threshold is [None], zero
    or an empty list is inactive, an active ADX or RSI filter also drops
    results whose indicator is missing or zero, and [volume_surge_min],
    [breakout_type] and [market_cap] are never consulted.  With the default
    filters this means a score from 40 to 120, an ADX of at least 20 and an
    RSI from 45 to 80. *)
Theorem screen_keeps_what_passes (f : Screen.ScreeningFilters)
    (rs : list Screen.StockResult) (r : Screen.StockResult) :
  (r ∈ Screen.screen f rs ↔ r ∈ rs ∧ Screen.passes f r) ∧
  (r ∈ Screen.screen Screen.default_filters rs ↔
     r ∈ rs ∧ 40 ≤ Screen.total_score r ≤ 120 ∧
     (∃ a, Screen.adx r = Some a ∧ (Screen.ofZ 20 <= a)%Qc) ∧
     (∃ x, Screen.rsi r = Some x
           ∧ (Screen.ofZ 45 <= x)%Qc ∧ (x <= Screen.ofZ 80)%Qc)).
Proof.
  assert (∀ g, r ∈ Screen.screen g rs ↔ r ∈ rs ∧ Screen.passes g r) as Hall.
  { intros g. unfold Screen.screen. rewrite sort_by_score_perm.
    unfold Screen.apply_filters. cbv zeta.
    rewrite !elem_of_filter_if, passes_iff. tauto. }
  split; [apply Hall|]. rewrite Hall.
  apply and_iff_compat_l. unfold Screen.passes, Screen.default_filters.
  cbn [Screen.min_score Screen.max_score Screen.strength_levels
       Screen.min_adx Screen.rsi_min Screen.rsi_max Screen.sectors
       Screen.min_price Screen.max_price].
  split.
  - intros (H1 & H2 & _ & H4 & H5 & _).
    specialize (H1 40 eq_refl). specialize (H2 120 eq_refl).
    destruct (H4 20 eq_refl) as (a & Ha & _ & Ha20); [done|].
    destruct H5 as (x & Hx & _ & Hx45 & Hx80); [done|].
    split; [lia|]. split; [by exists a|by exists x].
  - intros (Hs & (a & Ha & Ha20) & (x & Hx & Hx45 & Hx80)).
    split; [intros lo [= <-] _; lia|]. split; [intros hi [= <-] _; lia|].
    split; [done|]. split.
    { intros a' [= <-] _. exists a. split; [done|]. split; [|done].
      intros ->. revert Ha20. by vm_compute. }
    split.
    { intros _. exists x. split; [done|]. split; [|done].
      intros ->. revert Hx45. by vm_compute. }
    done.
Qed.

Lemma screen_keeps_what_passes_witness :
  sample_result "TECHM.NS" 70 10 55
    ∉ Screen.screen Screen.default_filters sample_results.
Proof.
  intros H.
  apply (screen_keeps_what_passes Screen.default_filters sample_results) in H
    as (_ & _ & (a & [= <-] & Ha) & _).
  revert Ha. by vm_compute.
Defined.

(** ** The indicator engine: ranges and recurrences *)

Lemma Qcinv_le_1 (d : Qc) : (1 <= d)%Qc → (0 < / d)%Qc ∧ (/ d <= 1)%Qc.
Proof.
  intros Hd.
  assert (0 < d)%Qc as Hpos by (by apply Qclt_le_trans with 1%Qc).
  assert (0 < / d)%Qc as Hinv by (by apply Qcinv_pos).
  split; [done|].
  assert (d * / d = 1)%Qc as H1.
  { apply Qcmult_inv_r. intros ->. by apply (Qclt_not_eq _ _ Hpos). }
  rewrite <- H1. rewrite <- (Qcmult_1_l (/ d)) at 1.
  apply Qcmult_le_compat_r; [done|by apply Qclt_le_weak].
Qed.

Lemma rsi_value_range (g l : num) :
  nonneg g → nonneg l →
  nan_or_within 0 100
    (nsub (Z2num 100) (ndiv (Z2num 100) (nadd (Z2num 1) (ndiv g l)))).
Proof.
  intros (g' & -> & Hg) (l' & -> & Hl). unfold ndiv at 2.
  destruct (decide (l' = 0%Qc)) as [->|Hl0].
  - destruct (decide (g' = 0%Qc)) as [->|Hg0]; [by left|].
    right. unfold qneg.
    rewrite bool_decide_eq_false_2 by (by apply Qcle_not_lt).
    eexists. split; [vm_compute; reflexivity|]. split; by vm_compute.
  - right. unfold Z2num. cbn [nadd]. unfold ndiv.
    set (d := (Q2Qc (inject_Z 1) + g' / l')%Qc).
    assert (1 <= d)%Qc as Hd.
    { unfold d. rewrite <- (Qcplus_0_r 1) at 1.
      apply Qcplus_le_compat; [apply Qcle_refl|].
      unfold Qcdiv. apply Qcmult_nonneg_nonneg; [done|].
      apply Qclt_le_weak, Qcinv_pos.
      destruct (Qcle_lt_or_eq _ _ Hl) as [?|Heq]; [done|]. by subst l'. }
    destruct (Qcinv_le_1 d Hd) as [Hi0 Hi1].
    rewrite decide_False
      by (intros Hz; rewrite Hz in Hd; revert Hd; by vm_compute).
    cbn [nsub nneg nadd]. eexists. split; [done|].
    set (h := Q2Qc (inject_Z 100)). unfold Qcdiv.
    assert (0 <= h)%Qc as Hh by (by vm_compute).
    assert (h * / d <= h)%Qc as Hle.
    { rewrite <- (Qcmult_1_r h) at 2. rewrite !(Qcmult_comm h).
      by apply Qcmult_le_compat_r. }
    assert (0 <= h * / d)%Qc as Hge.
    { apply Qcmult_nonneg_nonneg; [done|by apply Qclt_le_weak]. }
    split.
    + change (Q2Qc (inject_Z 0)) with 0%Qc.
      apply Qcle_minus_iff in Hle. exact Hle.
    + apply Qcle_trans with (h + 0)%Qc;
        [|rewrite Qcplus_0_r; apply Qcle_refl].
      apply Qcplus_le_compat; [apply Qcle_refl|].
      apply Qcopp_le_compat in Hge. by rewrite Qcopp_0 in Hge.
Qed.

Lemma rsi_early_nan (close : pd.Series) (i : nat) (x : num) :
  (i < 13)%nat → calculate_rsi close 14 !! i = Some x → x = NaN.
Proof.
  intros Hi Hx.
  assert (i < length close)%nat as Hl.
  { apply lookup_lt_Some in Hx. unfold calculate_rsi in Hx.
    rewrite length_fmap, length_zip_with in Hx.
    unfold rsi_gain, rolling_mean in Hx.
    rewrite length_rolling, length_fmap, length_diff in Hx. lia. }
  assert (rsi_gain close 14 !! i = Some NaN) as Hg.
  { unfold rsi_gain, rolling_mean. apply lookup_rolling_early; [|lia].
    by rewrite length_fmap, length_diff. }
  assert (rsi_loss close 14 !! i = Some NaN) as Hlo.
  { unfold rsi_loss, rolling_mean. apply lookup_rolling_early; [|lia].
    by rewrite !length_fmap, length_diff. }
  rewrite (rsi_lookup _ _ _ _ _ Hg Hlo) in Hx. by injection Hx as <-.
Qed.

Lemma rsi_average_loss_nonneg (close : pd.Series) (p i : nat) :
  Forall finite close → (0 < p)%nat → (p ≤ S i)%nat → (i < length close)%nat →
  holds_at nonneg (rsi_loss close p) i.
Proof.
  intros Hc Hp Hi Hl. unfold rsi_loss, rolling_mean.
  apply (holds_at_rolling nonneg nonneg).
  - intros ws Hws Hlen. apply win_mean_nonneg; [done|].
    intros ->. simpl in Hlen. lia.
  - apply Forall_fmap, Forall_fmap.
    eapply Forall_impl; [by apply diff_no_inf|].
    intros d Hd. by apply rsi_loss_input_nonneg.
  - done.
  - by rewrite !length_fmap, length_diff.
Qed.

(** X12. Every entry of the RSI column is missing or a number between 0
    and 100, for any price series. *)
Theorem rsi_between_0_and_100
    (fsqrt : Qc → Qc) (s : PriceSeries) (i : nat) (x : num) :
  RSI (calculate_all_indicators fsqrt s) !! i = Some x →
  nan_or_within 0 100 x.
Proof.
  change (RSI (calculate_all_indicators fsqrt s))
    with (calculate_rsi (col close s) 14).
  intros Hx. destruct (decide (i < 13)%nat) as [Hi|Hi].
  { left. by apply (rsi_early_nan (col close s) i). }
  assert (i < length (col close s))%nat as Hl.
  { apply lookup_lt_Some in Hx. unfold calculate_rsi in Hx.
    rewrite length_fmap, length_zip_with in Hx.
    unfold rsi_gain, rolling_mean in Hx.
    rewrite length_rolling, length_fmap, length_diff in Hx. lia. }
  destruct (rsi_gain_nonneg (col close s) 14 i) as (g & Hg & Hg0);
    [apply col_finite|lia..|].
  destruct (rsi_average_loss_nonneg (col close s) 14 i) as (l & Hlo & Hl0);
    [apply col_finite|lia..|].
  rewrite (rsi_lookup _ _ _ _ _ Hg Hlo) in Hx. injection Hx as <-.
  by apply rsi_value_range.
Qed.

Lemma rsi_between_0_and_100_witness :
  nan_or_within 0 100 (Fin (Q2Qc 75)).
Proof.
  apply (rsi_between_0_and_100 sqrt6 (pullback_series 20 (Q2Qc 100) 1000) 21).
  vm_compute. reflexivity.
Defined.

Lemma cumsum_from_head (acc x : num) (xs : pd.Series) :
  pd.cumsum_from acc (x :: xs) !! 0%nat = Some (nadd acc x).
Proof. done. Qed.

Lemma cumsum_from_step (acc : num) (xs : pd.Series) (i : nat) (y x : num) :
  pd.cumsum_from acc xs !! i = Some y → xs !! S i = Some x →
  pd.cumsum_from acc xs !! S i = Some (nadd y x).
Proof.
  revert acc i. induction xs as [|a xs IH]; intros acc i Hy Hx; [done|].
  destruct i as [|i].
  - cbn in Hy. injection Hy as <-. destruct xs as [|b xs]; [done|].
    cbn in Hx. injection Hx as <-. done.
  - cbn [pd.cumsum_from]. cbv zeta. rewrite lookup_cons_ne_0 by done.
    cbn [pred]. apply IH; [exact Hy|exact Hx].
Qed.

Lemma Qclt_irrefl (q : Qc) : ¬ (q < q)%Qc.
Proof. intros H. by apply (Qclt_not_eq _ _ H). Qed.

Lemma Qclt_asym (p q : Qc) : (p < q)%Qc → ¬ (q < p)%Qc.
Proof. intros H1 H2. apply (Qclt_irrefl p). by apply Qclt_trans with q. Qed.

Lemma nsign_nsub (c c' : Qc) :
  nsign (nsub (Fin c') (Fin c))
  = if bool_decide (c < c')%Qc then Z2num 1
    else if bool_decide (c' < c)%Qc then Z2num (-1)
    else Fin 0%Qc.
Proof.
  unfold nsub, nneg, nadd, nsign, qneg.
  assert ((c' + - c < 0)%Qc ↔ (c' < c)%Qc) as Hlt.
  { unfold Qclt, Qcplus, Qcopp. cbn [this Q2Qc].
    rewrite !Qred_correct. split; intros H; lra. }
  assert ((c' + - c = 0)%Qc ↔ c' = c) as Heq.
  { split; intros H; [|subst; ring].
    replace c' with (c' + - c + c)%Qc by ring. rewrite H. ring. }
  destruct (Qc_dec c c') as [[Hc|Hc]|Hc].
  - rewrite (bool_decide_eq_true_2 _ Hc).
    rewrite bool_decide_eq_false_2
      by (rewrite Hlt; by apply Qclt_asym).
    rewrite decide_False; [done|].
    rewrite Heq. intros ->. by apply Qclt_irrefl in Hc.
  - rewrite (bool_decide_eq_false_2 (c < c')%Qc) by (by apply Qclt_asym).
    rewrite (bool_decide_eq_true_2 (c' < c)%Qc Hc).
    by rewrite bool_decide_eq_true_2 by (by apply Hlt).
  - subst c'.
    rewrite !(bool_decide_eq_false_2 (c < c)%Qc) by apply Qclt_irrefl.
    rewrite bool_decide_eq_false_2 by (rewrite Hlt; apply Qclt_irrefl).
    by rewrite decide_True by (by apply Heq).
Qed.

Lemma obv_increment (s : PriceSeries) (i : nat) (b b' : Bar) :
  s !! i = Some b → s !! S i = Some b' →
  pd.fillna (Z2num 0)
    (zip_with nmul (nsign <$> pd.diff 1 (col close s)) (col_volume s)) !! S i
  = Some (nmul (if bool_decide (close b < close b')%Qc then Z2num 1
                else if bool_decide (close b' < close b)%Qc then Z2num (-1)
                else Fin 0%Qc)
               (Z2num (volume b'))).
Proof.
  intros Hb Hb'.
  assert (S i < length s)%nat as Hl by (by eapply lookup_lt_Some).
  assert (col close s !! S i = Some (Fin (close b'))) as Hc'
    by (apply (lookup_fmap_Some' (Fin ∘ close) s), Hb').
  assert (pd.shift 1 (col close s) !! S i = Some (Fin (close b))) as Hc.
  { rewrite lookup_shift by (by rewrite length_col).
    rewrite decide_False by lia. replace (S i - 1)%nat with i by lia.
    apply (lookup_fmap_Some' (Fin ∘ close) s), Hb. }
  assert (col_volume s !! S i = Some (Z2num (volume b'))) as Hv
    by (apply (lookup_fmap_Some' (Z2num ∘ volume) s), Hb').
  unfold pd.fillna, pd.diff.
  erewrite lookup_fmap_Some'; cycle 1.
  { apply lookup_zip_with_Some'; [|exact Hv].
    apply lookup_fmap_Some'. apply lookup_zip_with_Some'; [exact Hc'|exact Hc]. }
  rewrite nsign_nsub. by repeat case_bool_decide.
Qed.

(** X13. On-balance volume is a running total: it is 0 on the first bar,
    and from one bar to the next it grows by the bar's volume when the
    close rose, falls by it when the close fell, and stays when the close
    is unchanged. *)
Theorem obv_running_total (fsqrt : Qc → Qc) (s : PriceSeries) :
  (s ≠ [] → OBV (calculate_all_indicators fsqrt s) !! 0%nat = Some (Fin 0%Qc)) ∧
  (∀ (i : nat) (b b' : Bar) (o : Qc),
     s !! i = Some b → s !! S i = Some b' →
     OBV (calculate_all_indicators fsqrt s) !! i = Some (Fin o) →
     OBV (calculate_all_indicators fsqrt s) !! S i
     = Some (Fin (if bool_decide (close b < close b')%Qc
                  then o + Q2Qc (inject_Z (volume b'))
                  else if bool_decide (close b' < close b)%Qc
                  then o - Q2Qc (inject_Z (volume b'))
                  else o)%Qc)).
Proof.
  change (OBV (calculate_all_indicators fsqrt s))
    with (calculate_obv (col close s) (col_volume s)).
  unfold calculate_obv, pd.cumsum. split.
  - intros Hs. destruct s as [|b s]; [done|]. vm_compute. reflexivity.
  - intros i b b' o Hb Hb' Ho.
    rewrite (cumsum_from_step _ _ _ _ _ Ho (obv_increment s i b b' Hb Hb')).
    f_equal. unfold Z2num.
    assert (Q2Qc (inject_Z (-1)) = (- (1))%Qc) as Hm1
      by (by apply Qc_is_canon).
    repeat case_bool_decide; cbn [nmul nadd]; f_equal;
      rewrite ?Hm1; change (Q2Qc (inject_Z 1)) with 1%Qc; ring.
Qed.

Lemma obv_running_total_witness :
  OBV (calculate_all_indicators sqrt6
         (step_series 3 (Q2Qc 100) (Q2Qc 110) 1000)) !! 3%nat
  = Some (Z2num 1000).
Proof.
  etrans.
  - apply (proj2 (obv_running_total sqrt6
                    (step_series 3 (Q2Qc 100) (Q2Qc 110) 1000)) 2%nat);
      vm_compute; reflexivity.
  - vm_compute. reflexivity.
Defined.

(** *** Rolling highs *)

Lemma foldl_nmax2_spec (x : Qc) (qs : list Qc) :
  ∃ m : Qc, foldl nmax2 (Fin x) (Fin <$> qs) = Fin m ∧ m ∈ x :: qs ∧
            ∀ q, q ∈ x :: qs → (q <= m)%Qc.
Proof.
  revert x. induction qs as [|w qs IH]; intros x.
  { exists x. split; [done|]. split; [by left|].
    intros q ->%list_elem_of_singleton. apply Qcle_refl. }
  cbn [fmap list_fmap foldl].
  assert (∃ x', nmax2 (Fin x) (Fin w) = Fin x' ∧ (x' = x ∨ x' = w)
                ∧ (x <= x')%Qc ∧ (w <= x')%Qc) as (x' & -> & Hx' & Hxx' & Hwx').
  { unfold nmax2, nlt. case_bool_decide as Hlt.
    - exists w. split; [done|]. split; [by right|].
      split; [by apply Qclt_le_weak|apply Qcle_refl].
    - exists x. split; [done|]. split; [by left|].
      split; [apply Qcle_refl|by apply Qcnot_lt_le]. }
  destruct (IH x') as (m & Hm & Hin & Hub). exists m. split; [exact Hm|].
  split.
  - apply elem_of_cons in Hin as [->|Hin].
    + destruct Hx' as [->| ->]; [by left|right; by left].
    + right. by right.
  - assert (x' <= m)%Qc as Hx'm by (apply Hub; by left).
    intros q [->|[->|Hq]%elem_of_cons]%elem_of_cons.
    + by apply Qcle_trans with x'.
    + by apply Qcle_trans with x'.
    + apply Hub. by right.
Qed.

Lemma Forall_finite_fmap (ws : list num) :
  Forall finite ws → ∃ qs : list Qc, ws = Fin <$> qs.
Proof.
  induction 1 as [|x ws [q ->] _ [qs ->]]; [by exists []|].
  by exists (q :: qs).
Qed.

Lemma win_max_spec (ws : list num) :
  Forall finite ws → ws ≠ [] →
  ∃ m : Qc, pd.win_max ws = Fin m ∧ Fin m ∈ ws ∧
            ∀ q, Fin q ∈ ws → (q <= m)%Qc.
Proof.
  intros [qs ->]%Forall_finite_fmap Hne.
  destruct qs as [|x qs]; [done|]. cbn [fmap list_fmap pd.win_max].
  destruct (foldl_nmax2_spec x qs) as (m & Hm & Hin & Hub).
  exists m. split; [exact Hm|]. split.
  - change (Fin m ∈ Fin <$> (x :: qs)). by apply list_elem_of_fmap_2.
  - intros q Hq. apply Hub.
    change (Fin q ∈ Fin <$> (x :: qs)) in Hq.
    apply list_elem_of_fmap in Hq as (q' & [= ->] & Hq'). exact Hq'.
Qed.

Lemma window_incl {A} (w1 w2 i : nat) (xs : list A) (y : A) :
  (w1 ≤ w2)%nat → (w2 ≤ S i)%nat → (i < length xs)%nat →
  y ∈ pd.window w1 i xs → y ∈ pd.window w2 i xs.
Proof.
  intros H12 H2 Hi [j Hj]%list_elem_of_lookup.
  assert (j < w1)%nat as Hjw.
  { apply lookup_lt_Some in Hj. rewrite length_window in Hj by lia. done. }
  rewrite lookup_window in Hj by lia.
  apply list_elem_of_lookup. exists (j + (w2 - w1))%nat.
  rewrite lookup_window by lia. rewrite <- Hj. f_equal. lia.
Qed.

Lemma window_last {A} (w i : nat) (xs : list A) (y : A) :
  (0 < w)%nat → (w ≤ S i)%nat → xs !! i = Some y → y ∈ pd.window w i xs.
Proof.
  intros Hw Hi Hy. apply list_elem_of_lookup. exists (w - 1)%nat.
  rewrite lookup_window by lia. rewrite <- Hy. f_equal. lia.
Qed.

Lemma rolling_max_nested (w1 w2 i : nat) (xs : pd.Series) (a b : num) :
  Forall finite xs → (0 < w1)%nat → (w1 ≤ w2)%nat → (w2 ≤ S i)%nat →
  rolling_max w1 xs !! i = Some a → rolling_max w2 xs !! i = Some b →
  nle a b = true.
Proof.
  intros Hxs H1 H12 H2 Ha Hb.
  assert (i < length xs)%nat as Hi.
  { apply lookup_lt_Some in Ha. unfold rolling_max in Ha.
    by rewrite length_rolling in Ha. }
  unfold rolling_max in Ha, Hb.
  rewrite lookup_rolling in Ha by done. rewrite lookup_rolling in Hb by done.
  rewrite decide_True in Ha by lia. rewrite decide_True in Hb by lia.
  injection Ha as <-. injection Hb as <-.
  destruct (win_max_spec (pd.window w1 i xs)) as (m1 & -> & Hin1 & _);
    [by apply window_Forall|apply window_nonempty; lia|].
  destruct (win_max_spec (pd.window w2 i xs)) as (m2 & -> & _ & Hub2);
    [by apply window_Forall|apply window_nonempty; lia|].
  apply bool_decide_eq_true, Hub2. by apply (window_incl w1 w2).
Qed.

Lemma rolling_max_above (w i : nat) (xs : pd.Series) (x a : num) :
  Forall finite xs → (0 < w)%nat → (w ≤ S i)%nat →
  xs !! i = Some x → rolling_max w xs !! i = Some a → nle x a = true.
Proof.
  intros Hxs Hw Hi Hx Ha.
  assert (i < length xs)%nat as Hl by (by eapply lookup_lt_Some).
  unfold rolling_max in Ha. rewrite lookup_rolling in Ha by done.
  rewrite decide_True in Ha by lia. injection Ha as <-.
  destruct (win_max_spec (pd.window w i xs)) as (m & -> & _ & Hub);
    [by apply window_Forall|apply window_nonempty; lia|].
  destruct (Forall_lookup_1 _ _ _ _ Hxs Hx) as [q ->].
  apply bool_decide_eq_true, Hub. by apply window_last.
Qed.

(** X14. The rolling highs are nested: wherever the windows are full, the
    bar's high is at most the 10-day high, which is at most the 20-day
    high, which is at most the 252-day high; on a valid series the close
    is at most the bar's high as well. *)
Theorem rolling_highs_nested
    (fsqrt : Qc → Qc) (s : PriceSeries) (i : nat) (c h h2 h4 h52 : num) :
  Close (calculate_all_indicators fsqrt s) !! i = Some c →
  High (calculate_all_indicators fsqrt s) !! i = Some h →
  High_2W (calculate_all_indicators fsqrt s) !! i = Some h2 →
  High_4W (calculate_all_indicators fsqrt s) !! i = Some h4 →
  High_52W (calculate_all_indicators fsqrt s) !! i = Some h52 →
  (valid_series s = true → nle c h = true) ∧
  ((9 ≤ i)%nat → nle h h2 = true) ∧
  ((19 ≤ i)%nat → nle h2 h4 = true) ∧
  ((251 ≤ i)%nat → nle h4 h52 = true).
Proof.
  change (Close (calculate_all_indicators fsqrt s)) with (col close s).
  change (High (calculate_all_indicators fsqrt s)) with (col high s).
  change (High_2W (calculate_all_indicators fsqrt s))
    with (rolling_max 10 (col high s)).
  change (High_4W (calculate_all_indicators fsqrt s))
    with (rolling_max 20 (col high s)).
  change (High_52W (calculate_all_indicators fsqrt s))
    with (rolling_max 252 (col high s)).
  intros Hc Hh H2 H4 H52.
  pose proof (col_finite high s) as Hfin.
  split; [|split; [|split]].
  - intros Hv. unfold col in Hc, Hh.
    apply list_lookup_fmap_Some in Hc as (b & -> & Hb).
    apply list_lookup_fmap_Some in Hh as (b' & -> & Hb').
    assert (b' = b) as -> by congruence.
    apply bool_decide_eq_true. cbn [compose].
    unfold valid_series in Hv. apply andb_prop in Hv as [Hv _].
    rewrite forallb_forall in Hv.
    assert (valid_bar b = true) as Hvb.
    { apply Hv, list_elem_of_In. by eapply list_elem_of_lookup_2. }
    unfold valid_bar in Hvb. repeat (apply andb_prop in Hvb as [Hvb ?]).
    by match goal with
       | H : bool_decide (close b <= high b)%Qc = true |- _ =>
           apply bool_decide_eq_true in H
       end.
  - intros Hi. apply (rolling_max_above 10 i (col high s)); [done|lia..|done|done].
  - intros Hi.
    apply (rolling_max_nested 10 20 i (col high s)); [done|lia..|done|done].
  - intros Hi.
    apply (rolling_max_nested 20 252 i (col high s)); [done|lia..|done|done].
Qed.

Lemma rolling_highs_nested_witness :
  nle (Fin (Q2Qc 100 - 1)) (Fin (Q2Qc 100)) = true.
Proof.
  refine (proj1 (proj2
    (rolling_highs_nested sqrt6 (pullback_series 20 (Q2Qc 100) 1000) 20
       (Fin (Q2Qc 100 - 1)) (Fin (Q2Qc 100 - 1)) (Fin (Q2Qc 100))
       (Fin (Q2Qc 100)) NaN _ _ _ _ _)) _);
    [vm_compute; reflexivity..|lia].
Defined.

(** *** Rate of change *)

Lemma roc_points_positive (r : num) :
  0 < roc_points r ↔ ngt r (Z2num 0) = true.
Proof.
  unfold roc_points. destruct (notna r) eqn:Hn; [|by destruct r].
  destruct (ngt r (Z2num 0)) eqn:H0.
  - split; [done|]. intros _. repeat case_match; lia.
  - assert (∀ k, 0 ≤ k → ngt r (Z2num k) = false) as Hk.
    { intros k Hk. destruct (ngt r (Z2num k)) eqn:Hrk; [|done].
      destruct (decide (k = 0)) as [->|Hne]; [congruence|].
      rewrite (ngt_trans r (Z2num k) (Z2num 0)) in H0; [done|done|].
      apply bool_decide_eq_true, Q2Qc_inject_Z_pos. lia. }
    rewrite !Hk by lia. done.
Qed.

Lemma roc_value_sign (c p : Qc) :
  (0 < p)%Qc →
  ngt (nmul (ndiv (nsub (Fin c) (Fin p)) (Fin p)) (Z2num 100)) (Z2num 0) = true
  ↔ (p < c)%Qc.
Proof.
  intros Hp. unfold nsub, nneg, nadd, ndiv.
  rewrite decide_False by (intros ->; by apply Qclt_irrefl in Hp).
  cbn [nmul Z2num ngt nlt]. rewrite bool_decide_eq_true.
  change (Q2Qc (inject_Z 0)) with 0%Qc. unfold Qcdiv.
  assert (0 < / p)%Qc as Hi by (by apply Qcinv_pos).
  assert (0 < Q2Qc (inject_Z 100))%Qc as Hh by (by apply Q2Qc_inject_Z_pos).
  split.
  - intros H. apply Qcnot_le_lt. intros Hle.
    apply (Qclt_not_le _ _ H).
    assert (0 <= (p + - c) * / p * Q2Qc (inject_Z 100))%Qc as Hn.
    { apply Qcmult_nonneg_nonneg; [|by apply Qclt_le_weak].
      apply Qcmult_nonneg_nonneg; [|by apply Qclt_le_weak].
      by apply Qcle_minus_iff in Hle. }
    apply Qcopp_le_compat in Hn. rewrite Qcopp_0 in Hn.
    replace ((c + - p) * / p * Q2Qc (inject_Z 100))%Qc
      with (- ((p + - c) * / p * Q2Qc (inject_Z 100)))%Qc by ring.
    exact Hn.
  - intros H. apply Qcmult_pos_pos; [|done].
    apply Qcmult_pos_pos; [|done]. by apply Qclt_minus_iff in H.
Qed.

(** X15. On a valid series the 10-bar rate of change is positive exactly
    when the close is above the close ten bars earlier, and that is exactly
    when the ROC rule gives points. *)
Theorem roc_points_iff_close_rose
    (fsqrt : Qc → Qc) (s : PriceSeries) (i : nat) (b0 b : Bar) (r : num) :
  valid_series s = true →
  s !! i = Some b0 → s !! (i + 10)%nat = Some b →
  ROC (calculate_all_indicators fsqrt s) !! (i + 10)%nat = Some r →
  (ngt r (Z2num 0) = true ↔ (close b0 < close b)%Qc) ∧
  (0 < roc_points r ↔ (close b0 < close b)%Qc).
Proof.
  change (ROC (calculate_all_indicators fsqrt s))
    with (calculate_roc (col close s) 10).
  intros Hv Hb0 Hb Hr.
  assert (i + 10 < length s)%nat as Hl by (by eapply lookup_lt_Some).
  assert (col close s !! (i + 10)%nat = Some (Fin (close b))) as Hc
    by (apply (lookup_fmap_Some' (Fin ∘ close) s), Hb).
  assert (pd.shift 10 (col close s) !! (i + 10)%nat = Some (Fin (close b0)))
    as Hp.
  { rewrite lookup_shift by (by rewrite length_col).
    rewrite decide_False by lia.
    replace (i + 10 - 10)%nat with i by lia.
    apply (lookup_fmap_Some' (Fin ∘ close) s), Hb0. }
  unfold calculate_roc in Hr.
  rewrite (lookup_zip_with_Some' _ _ _ _ _ _ Hc Hp) in Hr.
  injection Hr as <-.
  assert (0 < close b0)%Qc as Hpos.
  { pose proof (valid_col_positive close s) as Hall.
    unfold valid_series in Hv. apply andb_prop in Hv as [Hv _].
    rewrite forallb_forall in Hv.
    apply valid_bar_positive, Hv, list_elem_of_In.
    by eapply list_elem_of_lookup_2. }
  rewrite roc_points_positive. split; by apply roc_value_sign.
Qed.

Lemma roc_points_iff_close_rose_witness :
  0 < roc_points
        (nmul (ndiv (nsub (Fin (Q2Qc 110)) (Fin (Q2Qc 100))) (Fin (Q2Qc 100)))
              (Z2num 100))
  ↔ (Q2Qc 100 < Q2Qc 110)%Qc.
Proof.
  refine (proj2 (roc_points_iff_close_rose sqrt6
            (step_series 12 (Q2Qc 100) (Q2Qc 110) 1000) 2
            {| date := 2; open := Q2Qc 100; high := Q2Qc 100;
               low := Q2Qc 100; close := Q2Qc 100; volume := 1000 |}
            {| date := 12; open := Q2Qc 110; high := Q2Qc 110;
               low := Q2Qc 110; close := Q2Qc 110; volume := 1000 |}
            _ _ _ _ _));
    vm_compute; reflexivity.
Defined.

(** ** Scores with a short history *)

(** X16. The Ichimoku category gives 0 whenever the frame has fewer than
    26 rows: the 26-bar mean is still missing. *)
Theorem ichimoku_needs_26_bars (df : AugmentedSeries) :
  (length (Close df) < 26)%nat → score_ichimoku df = 0.
Proof.
  intros Hlen. unfold score_ichimoku, try_except, ichimoku.
  rewrite bind_get.
  destruct (pd.iloc (pd.rolling 9 pd.win_mean (Close df)) (-1)) as [t|];
    [|done].
  rewrite bind_get.
  destruct (pd.iloc (pd.rolling 26 pd.win_mean (Close df)) (-1)) as [k|]
    eqn:Hk; [|done].
  apply rolling_last_early in Hk as ->; [|done].
  rewrite bind_get. destruct (pd.iloc (Close df) (-1)) as [c|]; [|done].
  unfold add. cbn [snd]. rewrite ichimoku_points_nan by auto. done.
Qed.

Lemma ichimoku_needs_26_bars_witness :
  score_ichimoku
    (calculate_all_indicators sqrt6 (step_series 24 (Q2Qc 100) (Q2Qc 130) 1000))
  = 0.
Proof. apply ichimoku_needs_26_bars. vm_compute. lia. Defined.

Lemma iloc_from_end {A} (xs : list A) (k : nat) :
  (0 < k)%nat →
  pd.iloc xs (- Z.of_nat k)
  = if decide (k ≤ length xs)%nat then xs !! (length xs - k)%nat else None.
Proof.
  intros Hk. unfold pd.iloc. cbv zeta.
  rewrite (decide_True (P := (- Z.of_nat k < 0)%Z)) by lia.
  destruct (decide (k ≤ length xs)%nat) as [Hle|Hgt].
  - rewrite decide_True by lia. f_equal. lia.
  - by rewrite decide_False by lia.
Qed.

Lemma nsub_nan_r (a : num) : nsub a NaN = NaN.
Proof. by destruct a. Qed.

Lemma rolling_early_inv (w : nat) agg (xs : pd.Series) (i : nat) (x : num) :
  (S i < w)%nat → pd.rolling w agg xs !! i = Some x → x = NaN.
Proof.
  intros Hw Hx.
  assert (i < length xs)%nat as Hi.
  { apply lookup_lt_Some in Hx. by rewrite length_rolling in Hx. }
  rewrite lookup_rolling_early in Hx by done. congruence.
Qed.

Lemma bb_position_early (fsqrt : Qc → Qc) (s : PriceSeries) (i : nat) (x : num) :
  (i < 19)%nat →
  BB_Position (calculate_all_indicators fsqrt s) !! i = Some x → x = NaN.
Proof.
  intros Hi. unfold_engine.
  unfold calculate_sma, rolling_mean. intros Hx.
  apply list_lookup_fmap_Some in Hx as (y & -> & Hy).
  apply lookup_zip_with_Some in Hy as (a & b & -> & Ha & _).
  apply lookup_zip_with_Some in Ha as (c & l & -> & _ & Hl).
  apply lookup_zip_with_Some in Hl as (m & sd & -> & Hm & _).
  apply rolling_early_inv in Hm as ->; [|lia].
  cbn [nsub nadd nneg]. by rewrite nsub_nan_r.
Qed.

Lemma atr_percent_early (fsqrt : Qc → Qc) (s : PriceSeries) (i : nat) (x : num) :
  (i < 13)%nat →
  ATR_Percent (calculate_all_indicators fsqrt s) !! i = Some x → x = NaN.
Proof.
  intros Hi. unfold_engine.
  unfold calculate_atr, rolling_mean. intros Hx.
  apply list_lookup_fmap_Some in Hx as (y & -> & Hy).
  apply lookup_zip_with_Some in Hy as (a & b & -> & Ha & _).
  by apply rolling_early_inv in Ha as ->; [|lia].
Qed.

(** X17. On the engine's output for fewer than 20 bars the Volatility and
    Risk category gives 0: the Bollinger position is still missing, and
    the ATR of ten rows back is missing or out of range. *)
Theorem volatility_needs_20_bars (fsqrt : Qc → Qc) (s : PriceSeries) :
  (length s < 20)%nat →
  score_volatility_risk (calculate_all_indicators fsqrt s) = 0.
Proof.
  intros Hlen. unfold score_volatility_risk, try_except, volatility_risk.
  assert (length (BB_Position (calculate_all_indicators fsqrt s)) = length s)
    as Hbb by (by series_length).
  assert (length (ATR_Percent (calculate_all_indicators fsqrt s)) = length s)
    as Hatr by (by series_length).
  rewrite bind_get.
  destruct (pd.iloc (BB_Position _) (-1)) as [bb|] eqn:Hb; [|done].
  apply iloc_last_lookup in Hb.
  apply bb_position_early in Hb as ->; [|lia].
  rewrite bind_add, bind_get.
  destruct (pd.iloc (ATR_Percent _) (-1)) as [a|]; [|done].
  rewrite bind_get. change (-10) with (- Z.of_nat 10).
  rewrite iloc_from_end by lia. case_decide as H10; [|done].
  destruct (ATR_Percent _ !! _) as [p|] eqn:Hp; [|done].
  apply atr_percent_early in Hp as ->; [|lia].
  unfold add. cbn [snd]. by rewrite atr_points_nan by auto.
Qed.

Lemma volatility_needs_20_bars_witness :
  score_volatility_risk
    (calculate_all_indicators sqrt6 (step_series 18 (Q2Qc 100) (Q2Qc 130) 1000))
  = 0.
Proof. apply volatility_needs_20_bars. vm_compute. lia. Defined.

Lemma iloc_last_finite (xs : pd.Series) :
  Forall finite xs → xs ≠ [] → ∃ q : Qc, pd.iloc xs (-1) = Some (Fin q).
Proof.
  intros Hxs Hne. rewrite iloc_last, decide_False by done.
  destruct (lookup_lt_is_Some_2 xs (length xs - 1)) as [x Hx].
  { destruct xs; [done|]. simpl. lia. }
  destruct (Forall_lookup_1 _ _ _ _ Hxs Hx) as [q ->]. by exists q.
Qed.

(** X18. For every non-empty price series the Volume and Liquidity
    category gives at least 2 points: OBV and its EMA are always numbers, and
    the OBV rule gives 2 points even when OBV is below both its 50-bar high
    and its EMA. *)
Theorem volume_liquidity_at_least_2 (fsqrt : Qc → Qc) (s : PriceSeries) :
  s ≠ [] → 2 ≤ score_volume_liquidity (calculate_all_indicators fsqrt s).
Proof.
  intros Hne. unfold score_volume_liquidity, try_except, volume_liquidity.
  assert (0 < length s)%nat as Hlen by (destruct s; [done|simpl; lia]).
  destruct (iloc_last_is_Some (Vol_Ratio (calculate_all_indicators fsqrt s)))
    as [vr Hvr]; [series_length|].
  assert (Forall finite (OBV (calculate_all_indicators fsqrt s))) as Hobv
    by (apply obv_finite; [apply col_finite|apply col_volume_finite]).
  destruct (iloc_last_finite (OBV (calculate_all_indicators fsqrt s)))
    as [o Ho]; [done|..].
  { intros H. apply (f_equal length) in H. change (length []) with 0%nat in H.
    revert H. series_length. }
  destruct (iloc_last_finite (OBV_EMA (calculate_all_indicators fsqrt s)))
    as [e He]; [by apply ewm_mean_finite|..].
  { intros H. apply (f_equal length) in H. change (length []) with 0%nat in H.
    revert H. series_length. }
  rewrite bind_get, Hvr, bind_add, bind_get, Ho, bind_get, He.
  cbv zeta. rewrite bind_add. unfold add. cbn [snd].
  pose proof (volume_surge_range vr).
  pose proof (volume_price_confirmation_range
                (trend_ratio (Volume (calculate_all_indicators fsqrt s)))
                (trend_ratio (Close (calculate_all_indicators fsqrt s)))).
  assert (2 ≤ obv_points (Fin o) (Fin e)
                (pd.max (pd.iloc_from
                           (OBV (calculate_all_indicators fsqrt s)) (-50)))).
  { unfold obv_points. cbn [notna andb]. repeat case_match; lia. }
  lia.
Qed.

Lemma volume_liquidity_at_least_2_witness :
  2 ≤ score_volume_liquidity
        (calculate_all_indicators sqrt6 (flat_series 1 (Q2Qc 100) 0)).
Proof. apply volume_liquidity_at_least_2. discriminate. Defined.

Lemma ndiv_nan_r (a : num) : ndiv a NaN = NaN.
Proof. by destruct a. Qed.

Lemma slope_inv (xs : pd.Series) (i : nat) (x : num) :
  slope xs !! i = Some x →
  ∃ a b, xs !! i = Some a ∧ pd.shift 5 xs !! i = Some b ∧
         x = nmul (nsub (ndiv a b) (Fin 1%Qc)) (Z2num 100).
Proof.
  unfold slope, pd.pct_change. intros Hx.
  apply list_lookup_fmap_Some in Hx as (y & -> & Hy).
  apply lookup_zip_with_Some in Hy as (a & b & -> & Ha & Hb).
  by exists a, b.
Qed.

Lemma slope_early (xs : pd.Series) (i : nat) (x : num) :
  (i < 5)%nat → slope xs !! i = Some x → x = NaN.
Proof.
  intros Hi (a & b & Ha & Hb & ->)%slope_inv.
  rewrite lookup_shift in Hb by (by eapply lookup_lt_Some).
  rewrite decide_True in Hb by done. injection Hb as <-.
  by rewrite ndiv_nan_r.
Qed.

Lemma slope_rolling_early (w : nat) agg (xs : pd.Series) (i : nat) (x : num) :
  (S i < w + 5)%nat → slope (pd.rolling w agg xs) !! i = Some x → x = NaN.
Proof.
  intros Hi Hx. destruct (decide (i < 5)%nat) as [H5|H5].
  { by apply (slope_early (pd.rolling w agg xs) i). }
  apply slope_inv in Hx as (a & b & Ha & Hb & ->).
  rewrite lookup_shift in Hb by (by eapply lookup_lt_Some).
  rewrite decide_False in Hb by done.
  apply rolling_early_inv in Hb as ->; [|lia].
  by rewrite ndiv_nan_r.
Qed.

Lemma ma_slopes_short (e m l : num) :
  (l = NaN → ma_slopes e m l ≤ 6) ∧
  (m = NaN → ma_slopes e m l ≤ 3) ∧
  (e = NaN → ma_slopes e m l = 0).
Proof.
  unfold ma_slopes. cbn [forallb]. split; [|split]; intros ->.
  - cbn [notna andb]. rewrite !andb_false_r. repeat case_match; lia.
  - cbn [notna andb ngt nlt]. rewrite ?andb_false_r. cbn [andb].
    repeat case_match; lia.
  - done.
Qed.

(** X19. With a short history the Trend Alignment category is capped: on
    the engine's output it gives at most 6 of its 25 points for fewer than
    200 bars (only the slope rule can give points), at most 3 for fewer than
    55 bars, and 0 for fewer than 6 bars. *)
Theorem trend_alignment_short_history (fsqrt : Qc → Qc) (s : PriceSeries) :
  ((length s < 200)%nat →
     score_trend_alignment (calculate_all_indicators fsqrt s) ≤ 6) ∧
  ((length s < 55)%nat →
     score_trend_alignment (calculate_all_indicators fsqrt s) ≤ 3) ∧
  ((length s < 6)%nat →
     score_trend_alignment (calculate_all_indicators fsqrt s) = 0).
Proof.
  assert ((length s < 200)%nat →
          ∃ k, score_trend_alignment (calculate_all_indicators fsqrt s) = k ∧
               (k = 0 ∨ ∃ se sm sl,
                  pd.iloc (EMA_20_slope (calculate_all_indicators fsqrt s)) (-1)
                  = Some se ∧
                  pd.iloc (SMA_50_slope (calculate_all_indicators fsqrt s)) (-1)
                  = Some sm ∧
                  pd.iloc (SMA_200_slope (calculate_all_indicators fsqrt s)) (-1)
                  = Some sl ∧
                  k = ma_slopes se sm sl)) as Hshape.
  { intros Hlen. eexists. split; [reflexivity|].
    unfold score_trend_alignment, try_except, trend_alignment.
    rewrite bind_get. destruct (pd.iloc (Close _) (-1)) as [c|]; [|by left].
    rewrite bind_get. destruct (pd.iloc (EMA_20 _) (-1)) as [e|]; [|by left].
    rewrite bind_get. destruct (pd.iloc (SMA_50 _) (-1)) as [m|]; [|by left].
    rewrite bind_get.
    destruct (pd.iloc (SMA_200 _) (-1)) as [l|] eqn:Hl; [|by left].
    apply (rolling_last_early 200 pd.win_mean (col close s)) in Hl as ->;
      [|by rewrite length_col].
    rewrite bind_add, price_position_nan by auto.
    rewrite bind_get.
    destruct (pd.iloc (EMA_20_slope _) (-1)) as [se|]; [|by left].
    rewrite bind_get.
    destruct (pd.iloc (SMA_50_slope _) (-1)) as [sm|]; [|by left].
    rewrite bind_get.
    destruct (pd.iloc (SMA_200_slope _) (-1)) as [sl|]; [|by left].
    rewrite bind_add. unfold add. cbn [snd].
    rewrite ma_divergence_nan by auto.
    right. exists se, sm, sl. repeat split; try done. lia. }
  assert (length (EMA_20_slope (calculate_all_indicators fsqrt s)) = length s)
    as Hle by series_length.
  assert (length (SMA_50_slope (calculate_all_indicators fsqrt s)) = length s)
    as Hlm by series_length.
  assert (length (SMA_200_slope (calculate_all_indicators fsqrt s)) = length s)
    as Hll by series_length.
  split; [|split]; intros Hlen;
    (destruct Hshape as (k & -> & [->|(se & sm & sl & Hse & Hsm & Hsl & ->)]);
     [lia|lia|]).
  - apply iloc_last_lookup in Hsl. rewrite Hll in Hsl.
    apply (slope_rolling_early 200 pd.win_mean (col close s)) in Hsl as ->;
      [|lia].
    by apply ma_slopes_short.
  - apply iloc_last_lookup in Hsm. rewrite Hlm in Hsm.
    apply (slope_rolling_early 50 pd.win_mean (col close s)) in Hsm as ->;
      [|lia].
    by apply ma_slopes_short.
  - apply iloc_last_lookup in Hse. rewrite Hle in Hse.
    apply slope_early in Hse as ->; [|lia].
    by apply ma_slopes_short.
Qed.

Lemma trend_alignment_short_history_witness :
  score_trend_alignment
    (calculate_all_indicators sqrt6 (step_series 60 (Q2Qc 100) (Q2Qc 130) 1000))
  ≤ 6.
Proof.
  apply (trend_alignment_short_history sqrt6
           (step_series 60 (Q2Qc 100) (Q2Qc 130) 1000)).
  vm_compute. lia.
Defined.

Lemma breakout_quality_no_52w (c h4 h2 vr : num) :
  breakout_quality c NaN h4 h2 vr ≤ 7.
Proof. unfold breakout_quality. cbn [notna andb]. repeat case_match; lia. Qed.

Lemma row_signals_breakout (latest : LatestRow) :
  "Near 52-week high breakout" ∈ row_signals latest ↔
  notna (row_High_52W latest)
  && nge (row_Close latest) (nmul (row_High_52W latest) (dec 995 1000))
  = true.
Proof.
  unfold row_signals.
  repeat match goal with
         | |- context [if ?b then _ else _] => destruct b
         end; cbn [app]; split; intros H; first [done | closed_elem].
Qed.

Lemma last_row_high_52w (df : AugmentedSeries) (latest : LatestRow) :
  last_row df = Some latest →
  pd.iloc (High_52W df) (-1) = Some (row_High_52W latest).
Proof.
  unfold last_row. intros H.
  repeat match type of H with
         | (mbind _ ?o) = Some _ => destruct o; [cbn [mbind option_bind] in H|done]
         end.
  by injection H as <-.
Qed.

(** X20. The 52-week features need a year of bars.  On the engine's output
    for fewer than 252 bars the signal "Near 52-week high breakout" is never
    given, and for fewer than 253 bars the Price Action category gives at
    most 24 of its 25 points, since the 8-point breakout tier reads the
    52-week high of the row before the last. *)
Theorem year_high_needs_252_bars
    (fsqrt : Qc → Qc) (polyfit : list num → option num) (s : PriceSeries) :
  ((length s < 252)%nat →
     "Near 52-week high breakout"
       ∉ generate_trading_signals (calculate_all_indicators fsqrt s)) ∧
  ((length s < 253)%nat →
     score_price_action_breakouts polyfit (calculate_all_indicators fsqrt s)
     ≤ 24).
Proof.
  split; intros Hlen.
  - intros Hin.
    destruct (last_row (calculate_all_indicators fsqrt s)) as [latest|]
      eqn:Hrow; cycle 1.
    { unfold generate_trading_signals in Hin. rewrite Hrow in Hin.
      closed_elem. }
    rewrite (signals_of_row _ latest) in Hin by done.
    apply row_signals_breakout in Hin.
    apply last_row_high_52w in Hrow.
    apply (rolling_last_early 252 pd.win_max (col high s)) in Hrow;
      [|by rewrite length_col].
    by rewrite Hrow in Hin.
  - unfold score_price_action_breakouts, try_except, price_action_breakouts.
    pose proof (weekly_momentum_range
                  (Close (calculate_all_indicators fsqrt s))) as Hwm.
    rewrite bind_get.
    destruct (pd.iloc (Close _) (-1)) as [c|]; [|cbn [snd]; lia].
    rewrite bind_add, bind_get. change (-2) with (- Z.of_nat 2).
    rewrite !iloc_from_end by lia.
    assert (length (High_52W (calculate_all_indicators fsqrt s)) = length s)
      as H52 by series_length.
    rewrite H52. case_decide as H2; [|cbn [snd]; lia].
    destruct (High_52W _ !! _) as [h52|] eqn:Hh; [|cbn [snd]; lia].
    apply (rolling_early_inv 252 pd.win_max (col high s)) in Hh as ->; [|lia].
    rewrite bind_get. case_decide; [|cbn [snd]; lia].
    destruct (High_4W _ !! _) as [h4|]; [|cbn [snd]; lia].
    rewrite bind_get. case_decide; [|cbn [snd]; lia].
    destruct (High_2W _ !! _) as [h2|]; [|cbn [snd]; lia].
    rewrite bind_get. destruct (pd.iloc (Vol_Ratio _) (-1)) as [vr|]; [|cbn [snd]; lia].
    rewrite bind_add.
    pose proof (breakout_quality_no_52w c h4 h2 vr) as Hbq.
    pose proof (support_resistance_within polyfit
                  (pd.iloc_from (Low (calculate_all_indicators fsqrt s)) (-20))
                  (pd.iloc_from (High (calculate_all_indicators fsqrt s)) (-20))
                  (0 + weekly_momentum (Close (calculate_all_indicators fsqrt s))
                   + breakout_quality c NaN h4 h2 vr)) as Hsr.
    lia.
Qed.

Lemma year_high_needs_252_bars_witness :
  score_price_action_breakouts lstsq_slope
    (calculate_all_indicators sqrt6 (step_series 60 (Q2Qc 100) (Q2Qc 130) 1000))
  ≤ 24.
Proof.
  apply (year_high_needs_252_bars sqrt6 lstsq_slope
           (step_series 60 (Q2Qc 100) (Q2Qc 130) 1000)).
  vm_compute. lia.
Defined.

(** *** Volume ratio *)

Lemma rolling_Forall (P Q : num → Prop) (agg : list num → num) (w : nat)
    (xs : pd.Series) :
  Q NaN → (∀ ws, Forall P ws → length ws = w → Q (agg ws)) →
  Forall P xs → Forall Q (pd.rolling w agg xs).
Proof.
  intros Hnan Hagg Hxs. apply Forall_lookup. intros i x Hx.
  assert (i < length xs)%nat as Hi.
  { apply lookup_lt_Some in Hx. by rewrite length_rolling in Hx. }
  rewrite lookup_rolling in Hx by done. injection Hx as <-.
  case_decide as Hw; [|done].
  apply Hagg; [by apply window_Forall|by apply length_window].
Qed.

Lemma volume_surge_positive (vr : num) :
  0 < volume_surge vr ↔ ngt vr (Z2num 100) = true.
Proof.
  unfold volume_surge. destruct (notna vr) eqn:Hn; [|by destruct vr].
  destruct (ngt vr (Z2num 100)) eqn:H0.
  - split; [done|]. intros _. repeat case_match; lia.
  - assert (∀ k, 100 < k → ngt vr (Z2num k) = false) as Hk.
    { intros k Hk. destruct (ngt vr (Z2num k)) eqn:Hrk; [|done].
      rewrite (ngt_trans vr (Z2num k) (Z2num 100)) in H0; [done|done|].
      apply bool_decide_eq_true. unfold Qclt. cbn [this Q2Qc].
      rewrite !Qred_correct. unfold Qlt, inject_Z. cbn. lia. }
    rewrite !Hk by lia. done.
Qed.

Lemma vol_ratio_above_100 (v m : Qc) :
  (0 <= v)%Qc → (0 <= m)%Qc →
  ngt (nmul (ndiv (Fin v) (Fin m)) (Z2num 100)) (Z2num 100) = true
  ↔ (m < v)%Qc.
Proof.
  intros Hv Hm. unfold ndiv.
  destruct (decide (m = 0%Qc)) as [->|Hm0].
  - destruct (decide (v = 0%Qc)) as [->|Hv0].
    + split; [done|]. by intros ?%Qclt_irrefl.
    + assert (0 < v)%Qc as Hpos.
      { destruct (Qcle_lt_or_eq _ _ Hv) as [?|Heq]; [done|]. by subst v. }
      unfold qneg. rewrite bool_decide_eq_false_2 by (by apply Qcle_not_lt).
      split; [done|]. intros _. by vm_compute.
  - assert (0 < m)%Qc as Hpos.
    { destruct (Qcle_lt_or_eq _ _ Hm) as [?|Heq]; [done|]. by subst m. }
    assert (0 < / m)%Qc as Hi by (by apply Qcinv_pos).
    set (h := Q2Qc (inject_Z 100)).
    assert (0 < h)%Qc as Hh by (by vm_compute).
    cbn [nmul Z2num ngt nlt]. fold h. rewrite bool_decide_eq_true.
    unfold Qcdiv. split.
    + intros H. apply Qcnot_le_lt. intros Hle. apply (Qclt_not_le _ _ H).
      rewrite <- (Qcmult_1_l h) at 2.
      apply Qcmult_le_compat_r; [|by apply Qclt_le_weak].
      rewrite <- (Qcmult_inv_r m) by done.
      apply Qcmult_le_compat_r; [done|by apply Qclt_le_weak].
    + intros H. rewrite <- (Qcmult_1_l h) at 1.
      apply Qcmult_lt_compat_r; [done|].
      rewrite <- (Qcmult_inv_r m) by done.
      by apply Qcmult_lt_compat_r.
Qed.

Lemma valid_volume_nonneg (s : PriceSeries) :
  valid_series s = true → Forall nonneg (col_volume s).
Proof.
  intros Hv. unfold valid_series in Hv. apply andb_prop in Hv as [Hv _].
  rewrite forallb_forall in Hv.
  unfold col_volume. apply Forall_fmap, Forall_forall. intros b Hb.
  assert (valid_bar b = true) as Hvb by (by apply Hv, list_elem_of_In).
  unfold valid_bar in Hvb. repeat (apply andb_prop in Hvb as [Hvb ?]).
  match goal with
  | H : bool_decide (0 ≤ volume b) = true |- _ =>
      apply bool_decide_eq_true in H;
      exists (Q2Qc (inject_Z (volume b))); split; [done|];
      by apply (Q2Qc_inject_Z_le 0)
  end.
Qed.

(** X22. On a valid series the volume-surge rule gives points exactly
    when the bar's volume is above its 20-day average (the average includes
    the bar itself). *)
Theorem volume_surge_iff_above_average
    (fsqrt : Qc → Qc) (s : PriceSeries) (i : nat) (b : Bar) (m : Qc)
    (vr : num) :
  valid_series s = true →
  s !! i = Some b →
  Vol_SMA_20 (calculate_all_indicators fsqrt s) !! i = Some (Fin m) →
  Vol_Ratio (calculate_all_indicators fsqrt s) !! i = Some vr →
  0 < volume_surge vr ↔ (m < Q2Qc (inject_Z (volume b)))%Qc.
Proof.
  unfold_engine. intros Hv Hb Hm Hvr.
  assert (col_volume s !! i = Some (Z2num (volume b))) as Hvol
    by (apply (lookup_fmap_Some' (Z2num ∘ volume) s), Hb).
  erewrite lookup_fmap_Some' in Hvr;
    [|apply lookup_zip_with_Some'; [exact Hvol|exact Hm]].
  injection Hvr as <-.
  rewrite volume_surge_positive. unfold Z2num at 1.
  apply vol_ratio_above_100.
  - pose proof (valid_volume_nonneg s Hv) as Hall.
    destruct (Forall_lookup_1 _ _ _ _ Hall Hvol) as (q & [= <-] & Hq). done.
  - assert (Forall (λ x, x = NaN ∨ nonneg x) (rolling_mean 20 (col_volume s)))
      as Hall.
    { unfold rolling_mean.
      apply (rolling_Forall nonneg); [by left| |by apply valid_volume_nonneg].
      intros ws Hws Hlen. right. apply win_mean_nonneg; [done|].
      intros ->. simpl in Hlen. lia. }
    destruct (Forall_lookup_1 _ _ _ _ Hall Hm) as [?|(q & [= <-] & Hq)]; done.
Qed.

Lemma volume_surge_iff_above_average_witness :
  ∃ (m : Qc) (vr : num),
    Vol_SMA_20 (calculate_all_indicators sqrt6
                  (flat_series 25 (Q2Qc 100) 1000)) !! 24%nat = Some (Fin m) ∧
    Vol_Ratio (calculate_all_indicators sqrt6
                 (flat_series 25 (Q2Qc 100) 1000)) !! 24%nat = Some vr ∧
    (0 < volume_surge vr ↔ (m < Q2Qc (inject_Z 1000))%Qc).
Proof.
  eexists _, _. split; [vm_compute; reflexivity|].
  split; [vm_compute; reflexivity|].
  apply (volume_surge_iff_above_average sqrt6
           (flat_series 25 (Q2Qc 100) 1000) 24
           {| date := 24; open := Q2Qc 100; high := Q2Qc 100;
              low := Q2Qc 100; close := Q2Qc 100; volume := 1000 |});
    vm_compute; reflexivity.
Defined.

(** ** Weekly momentum and the latest closes *)

Lemma every_5_ignores_tail {A} (l t t' : list A) :
  length l = 31%nat → length t = 4%nat → length t' = 4%nat →
  pd.every 5 (l ++ t) = pd.every 5 (l ++ t').
Proof.
  intros Hl Ht Ht'. unfold pd.every. rewrite !length_app, Hl, Ht, Ht'.
  do 31 (destruct l as [|? l]; [discriminate Hl|]).
  destruct l; [|discriminate Hl].
  do 4 (destruct t as [|? t]; [discriminate Ht|]).
  destruct t; [|discriminate Ht].
  do 4 (destruct t' as [|? t']; [discriminate Ht'|]).
  destruct t'; [|discriminate Ht'].
  reflexivity.
Qed.

(** X24. With 35 or more closes the weekly-momentum rule samples the
    closes 35, 30, ..., 10 and 5 bars back: its points do not depend on the
    last four closes, the latest one included. *)
Theorem weekly_momentum_ignores_last_four (closes t t' : pd.Series) :
  (31 ≤ length closes)%nat → length t = 4%nat → length t' = 4%nat →
  weekly_momentum (closes ++ t) = weekly_momentum (closes ++ t').
Proof.
  intros Hl Ht Ht'. unfold weekly_momentum.
  assert (∀ u : pd.Series, length u = 4%nat →
            pd.iloc_from (closes ++ u) (-35)
            = drop (length closes - 31) closes ++ u) as Hdrop.
  { intros u Hu. unfold pd.iloc_from, pd.clamp.
    rewrite decide_True by lia. rewrite length_app, Hu.
    replace (Z.to_nat (Z.of_nat (length closes + 4) + -35))
      with (length closes - 31)%nat by lia.
    rewrite drop_app_le by lia. done. }
  rewrite !Hdrop by done.
  rewrite (every_5_ignores_tail _ t t'); [done| |done..].
  rewrite length_drop. lia.
Qed.

Lemma weekly_momentum_ignores_last_four_witness :
  weekly_momentum
    ((Z2num <$> seqZ 1 31) ++ [Z2num 1; Z2num 1; Z2num 1; Z2num 1])
  = weekly_momentum
      ((Z2num <$> seqZ 1 31) ++ [Z2num 90; Z2num 91; Z2num 92; Z2num 93]).
Proof.
  apply weekly_momentum_ignores_last_four; vm_compute; [lia|reflexivity..].
Defined.

(** ** Failure semantics of the indicator engine: warm-up of every column *)

Lemma warms_at_finite (xs : pd.Series) : Forall finite xs → warms_at 0 xs.
Proof.
  intros Hxs i x Hx. split; [lia|]. intros _.
  by eapply Forall_lookup_1.
Qed.

Lemma warms_at_missing (k : nat) (xs : pd.Series) :
  warms_at k xs → missing_before k xs.
Proof. intros H i x Hx. by apply H. Qed.

Lemma warms_at_rolling (w : nat) (agg : list num → num) (xs : pd.Series) :
  (0 < w)%nat → Forall finite xs →
  (∀ ws, Forall finite ws → length ws = w → finite (agg ws)) →
  warms_at (w - 1) (pd.rolling w agg xs).
Proof.
  intros Hw Hxs Hagg i x Hx.
  assert (i < length xs)%nat as Hi.
  { apply lookup_lt_Some in Hx. by rewrite length_rolling in Hx. }
  rewrite lookup_rolling in Hx by done. injection Hx as <-.
  split; intros Hk.
  - by rewrite decide_False by lia.
  - rewrite decide_True by lia.
    apply Hagg; [by apply window_Forall|apply length_window; [lia|done]].
Qed.

Lemma warms_at_zip_with (f : num → num → num) (k : nat) (xs ys : pd.Series) :
  (∀ b, f NaN b = NaN) →
  (∀ a b, finite a → finite b → finite (f a b)) →
  warms_at k xs → warms_at k ys → warms_at k (zip_with f xs ys).
Proof.
  intros Hnan Hfin Hxs Hys i z Hz.
  apply lookup_zip_with_Some in Hz as (a & b & -> & Ha & Hb).
  destruct (Hxs i a Ha) as [Ha1 Ha2]. destruct (Hys i b Hb) as [Hb1 Hb2].
  split; intros Hk.
  - by rewrite (Ha1 Hk).
  - apply Hfin; auto.
Qed.

Lemma warms_at_diff (k : nat) (xs : pd.Series) :
  Forall finite xs → warms_at k (pd.diff k xs).
Proof.
  intros Hxs i z Hz. unfold pd.diff in Hz.
  apply lookup_zip_with_Some in Hz as (a & b & -> & Ha & Hb).
  rewrite lookup_shift in Hb by (by eapply lookup_lt_Some).
  split; intros Hk.
  - rewrite decide_True in Hb by done. injection Hb as <-.
    apply nsub_nan_r.
  - rewrite decide_False in Hb by lia.
    apply finite_nsub; by eapply Forall_lookup_1.
Qed.

Lemma missing_before_fmap (f : num → num) (k : nat) (xs : pd.Series) :
  f NaN = NaN → missing_before k xs → missing_before k (f <$> xs).
Proof.
  intros Hf Hxs i y Hy Hk.
  apply list_lookup_fmap_Some in Hy as (x & -> & Hx).
  by rewrite (Hxs i x Hx Hk).
Qed.

Lemma missing_before_zip_with_l (f : num → num → num) (k : nat)
    (xs ys : pd.Series) :
  (∀ b, f NaN b = NaN) → missing_before k xs →
  missing_before k (zip_with f xs ys).
Proof.
  intros Hf Hxs i z Hz Hk.
  apply lookup_zip_with_Some in Hz as (a & b & -> & Ha & _).
  by rewrite (Hxs i a Ha Hk).
Qed.

Lemma missing_before_zip_with_r (f : num → num → num) (k : nat)
    (xs ys : pd.Series) :
  (∀ a, f a NaN = NaN) → missing_before k ys →
  missing_before k (zip_with f xs ys).
Proof.
  intros Hf Hys i z Hz Hk.
  apply lookup_zip_with_Some in Hz as (a & b & -> & _ & Hb).
  by rewrite (Hys i b Hb Hk).
Qed.

Lemma missing_before_rolling (w : nat) (agg : list num → num)
    (xs : pd.Series) :
  missing_before (w - 1) (pd.rolling w agg xs).
Proof.
  intros i x Hx Hk. apply (rolling_early_inv w agg xs i); [lia|done].
Qed.

Lemma missing_before_shift (k : nat) (xs : pd.Series) :
  missing_before k (pd.shift k xs).
Proof.
  intros i x Hx Hk.
  assert (i < length xs)%nat as Hi.
  { apply lookup_lt_Some in Hx. by rewrite length_shift in Hx. }
  rewrite lookup_shift in Hx by done.
  rewrite decide_True in Hx by done. by injection Hx as <-.
Qed.

Lemma nsum_nan (ws : list num) : NaN ∈ ws → pd.nsum ws = NaN.
Proof.
  induction ws as [|x ws IH]; [by intros ?%elem_of_nil|].
  intros [<-|Hin]%elem_of_cons; cbn [pd.nsum foldr]; [done|].
  fold (pd.nsum ws). rewrite (IH Hin). by destruct x.
Qed.

Lemma win_mean_nan (ws : list num) : NaN ∈ ws → pd.win_mean ws = NaN.
Proof. intros H. unfold pd.win_mean. by rewrite nsum_nan. Qed.

Lemma missing_before_rolling_mean (w k : nat) (xs : pd.Series) :
  (0 < w)%nat → missing_before k xs →
  missing_before (k + (w - 1)) (rolling_mean w xs).
Proof.
  intros Hw Hxs i x Hx Hk. unfold rolling_mean in Hx.
  assert (i < length xs)%nat as Hi.
  { apply lookup_lt_Some in Hx. by rewrite length_rolling in Hx. }
  rewrite lookup_rolling in Hx by done. injection Hx as <-.
  case_decide as Hfull; [|done].
  apply win_mean_nan.
  destruct (lookup_lt_is_Some_2 xs (S i - w)) as [y Hy]; [lia|].
  rewrite (Hxs _ y Hy) in Hy by lia.
  apply list_elem_of_lookup. exists 0%nat.
  rewrite lookup_window by lia. rewrite <- Hy. f_equal. lia.
Qed.

Lemma missing_before_diff (j k : nat) (xs : pd.Series) :
  missing_before k xs → missing_before (k + j) (pd.diff j xs).
Proof.
  intros Hxs i z Hz Hk. unfold pd.diff in Hz.
  apply lookup_zip_with_Some in Hz as (a & b & -> & Ha & Hb).
  rewrite lookup_shift in Hb by (by eapply lookup_lt_Some).
  case_decide as Hj.
  - injection Hb as <-. apply nsub_nan_r.
  - rewrite (Hxs _ b Hb) by lia. apply nsub_nan_r.
Qed.

Lemma missing_before_slope (xs : pd.Series) : missing_before 5 (slope xs).
Proof. intros i x Hx Hk. by apply (slope_early xs i). Qed.

Lemma missing_before_slope_rolling (w : nat) agg (xs : pd.Series) :
  missing_before (w + 4) (slope (pd.rolling w agg xs)).
Proof.
  intros i x Hx Hk. apply (slope_rolling_early w agg xs i); [lia|done].
Qed.

Lemma warms_at_intro (k : nat) (xs : pd.Series) :
  missing_before k xs →
  (∀ i, (k ≤ i)%nat → (i < length xs)%nat → holds_at finite xs i) →
  warms_at k xs.
Proof.
  intros Hm Hf i x Hx. split; [by apply Hm|]. intros Hk.
  destruct (Hf i Hk) as (y & Hy & Hfin); [by eapply lookup_lt_Some|].
  congruence.
Qed.

Lemma slope_warms_at (k : nat) (xs : pd.Series) :
  missing_before (k + 5) (slope xs) →
  (∀ i, (k ≤ i)%nat → (i < length xs)%nat → holds_at positive xs i) →
  warms_at (k + 5) (slope xs).
Proof.
  intros Hm Hp. apply warms_at_intro; [done|].
  intros i Hk Hi.
  assert (length (slope xs) = length xs) as Hl.
  { unfold slope. by rewrite length_fmap, length_pct_change. }
  rewrite Hl in Hi.
  apply slope_finite_at; [lia|done| |apply Hp; lia].
  eapply holds_at_impl; [apply positive_finite|]. apply Hp; lia.
Qed.

(** C4, amended. The indicator engine never fails: for every series, short,
    empty or breaking the invariants, it returns an augmented series whose
    columns have one entry per bar.  The raw columns and the recursive
    indicators (EMA, MACD, OBV) are numbers from the first bar on.  Every
    windowed indicator is missing wherever its lookback is insufficient:
    the moving averages, the bands, ATR, the rolling highs and the histogram
    momentum are missing exactly until their window is full and numbers
    from then on; the indicators that end in a ratio (slopes, RSI, ROC, ADX,
    +DI, -DI, DI spread, volume ratio, Bollinger position, ATR percent) are
    missing until theirs is full, and [ADX_Rising] is false until then.  On
    a valid series the slopes, ROC and ATR percent are numbers from there
    on. *)
Theorem engine_never_fails (fsqrt : Qc → Qc) (s : PriceSeries) :
  ∃ df : AugmentedSeries,
    TechnicalEngine_run fsqrt s = Ok df ∧
    aligned (length s) df ∧
    Forall (warms_at 0)
      [Open df; High df; Low df; Close df; Volume df;
       EMA_20 df; MACD df; MACD_Signal df; MACD_Hist df; OBV df; OBV_EMA df] ∧
    (warms_at 49 (SMA_50 df) ∧ warms_at 199 (SMA_200 df) ∧
     warms_at 3 (Hist_Momentum df) ∧
     warms_at 19 (Vol_SMA_20 df) ∧ warms_at 49 (Vol_SMA_50 df) ∧
     warms_at 19 (BB_Upper df) ∧ warms_at 19 (BB_Middle df) ∧
     warms_at 19 (BB_Lower df) ∧ warms_at 13 (ATR df) ∧
     warms_at 251 (High_52W df) ∧ warms_at 19 (High_4W df) ∧
     warms_at 9 (High_2W df)) ∧
    (missing_before 5 (EMA_20_slope df) ∧ missing_before 54 (SMA_50_slope df) ∧
     missing_before 204 (SMA_200_slope df) ∧
     missing_before 13 (RSI df) ∧ missing_before 10 (ROC df) ∧
     missing_before 26 (ADX df) ∧ missing_before 13 (Plus_DI df) ∧
     missing_before 13 (Minus_DI df) ∧ missing_before 13 (DI_Spread df) ∧
     missing_before 19 (Vol_Ratio df) ∧ missing_before 19 (BB_Position df) ∧
     missing_before 13 (ATR_Percent df)) ∧
    (∀ (i : nat) (b : bool),
       ADX_Rising df !! i = Some b → (i < 29)%nat → b = false) ∧
    (valid_series s = true →
     warms_at 5 (EMA_20_slope df) ∧ warms_at 54 (SMA_50_slope df) ∧
     warms_at 204 (SMA_200_slope df) ∧ warms_at 10 (ROC df) ∧
     warms_at 13 (ATR_Percent df)).
Proof.
  exists (calculate_all_indicators fsqrt s).
  split; [reflexivity|]. split; [apply engine_aligned|].
  pose proof (col_finite close s) as Hclose.
  pose proof (col_finite high s) as Hhigh.
  pose proof (col_finite low s) as Hlow.
  pose proof (col_volume_finite s) as Hvol.
  destruct (macd_finite (col close s) Hclose) as (Hmacd & Hsig & Hhist).
  assert (∀ w xs, (0 < w)%nat → Forall finite xs →
            warms_at (w - 1) (rolling_mean w xs)) as Hmean.
  { intros w xs Hw Hxs. apply warms_at_rolling; [done..|].
    intros ws. by apply mean_of_finite. }
  assert (∀ w xs, (0 < w)%nat → Forall finite xs →
            warms_at (w - 1) (rolling_max w xs)) as Hmax.
  { intros w xs Hw Hxs. apply warms_at_rolling; [done..|].
    intros ws. by apply max_of_finite. }
  assert (warms_at 19 (rolling_std fsqrt 20 (col close s))) as Hstd.
  { apply (warms_at_rolling 20); [lia|done|].
    intros ws. apply std_of_finite. lia. }
  assert (Forall finite (true_range (col high s) (col low s) (col close s)))
    as Htr by (by apply true_range_finite).
  assert (missing_before 13
            (rolling_mean 14
               (true_range (col high s) (col low s) (col close s)))) as Hatr.
  { apply (warms_at_missing 13), (Hmean 14%nat); [lia|done]. }
  assert (∀ dm, missing_before 13
            (nmul (Z2num 100) <$>
             zip_with ndiv (rolling_mean 14 dm)
               (rolling_mean 14
                  (true_range (col high s) (col low s) (col close s)))))
    as Hdi.
  { intros dm. apply missing_before_fmap; [done|].
    apply missing_before_zip_with_l; [done|].
    apply (missing_before_rolling 14). }
  assert (missing_before 26 (ADX (calculate_all_indicators fsqrt s)))
    as Hadx.
  { unfold_engine. apply (missing_before_rolling_mean 14 13); [lia|].
    apply missing_before_zip_with_l; [done|]. apply Hdi. }
  assert (missing_before 10 (ROC (calculate_all_indicators fsqrt s)))
    as Hroc.
  { unfold_engine. unfold calculate_roc.
    apply missing_before_zip_with_r; [|apply missing_before_shift].
    intros a. by rewrite nsub_nan_r. }
  split; [|split; [|split; [|split]]].
  - repeat (apply Forall_cons; split; [apply warms_at_finite|]);
      [apply col_finite|done..| | | | | | |apply Forall_nil; done].
    + by apply ewm_mean_finite.
    + exact Hmacd.
    + exact Hsig.
    + exact Hhist.
    + by apply obv_finite.
    + by apply ewm_mean_finite, obv_finite.
  - repeat match goal with |- _ ∧ _ => split end.
    + by apply (Hmean 50%nat); [lia|].
    + by apply (Hmean 200%nat); [lia|].
    + apply (warms_at_diff 3). exact Hhist.
    + by apply (Hmean 20%nat); [lia|].
    + by apply (Hmean 50%nat); [lia|].
    + unfold_engine. apply warms_at_zip_with; [done| |by apply (Hmean 20%nat); [lia|]|done].
      intros a b Ha Hb. apply finite_nadd; [done|].
      apply finite_nmul; [done|apply finite_Z2num].
    + by apply (Hmean 20%nat); [lia|].
    + unfold_engine. apply warms_at_zip_with; [done| |by apply (Hmean 20%nat); [lia|]|done].
      intros a b Ha Hb. apply finite_nsub; [done|].
      apply finite_nmul; [done|apply finite_Z2num].
    + by apply (Hmean 14%nat); [lia|].
    + by apply (Hmax 252%nat); [lia|].
    + by apply (Hmax 20%nat); [lia|].
    + by apply (Hmax 10%nat); [lia|].
  - repeat match goal with |- _ ∧ _ => split end.
    + apply missing_before_slope.
    + apply (missing_before_slope_rolling 50).
    + apply (missing_before_slope_rolling 200).
    + intros i x Hx Hi. by apply (rsi_early_nan (col close s) i).
    + exact Hroc.
    + exact Hadx.
    + apply Hdi.
    + apply Hdi.
    + unfold_engine. apply missing_before_zip_with_l; [done|apply Hdi].
    + unfold_engine. apply missing_before_fmap; [done|].
      apply missing_before_zip_with_r; [apply ndiv_nan_r|].
      apply (missing_before_rolling 20).
    + intros i x Hx Hi. by apply (bb_position_early fsqrt s i).
    + intros i x Hx Hi. by apply (atr_percent_early fsqrt s i).
  - intros i b Hb Hi.
    change (ADX_Rising (calculate_all_indicators fsqrt s))
      with ((λ d, ngt d (Z2num 0)) <$>
            pd.diff 3 (ADX (calculate_all_indicators fsqrt s))) in Hb.
    apply list_lookup_fmap_Some in Hb as (d & -> & Hd).
    by rewrite (missing_before_diff 3 26 _ Hadx i d Hd Hi).
  - intros Hv.
    assert (Forall positive (col close s)) as Hpos.
    { apply valid_col_positive; [|done]. intros b Hb.
      by apply valid_bar_positive in Hb as (_ & _ & ?). }
    repeat match goal with |- _ ∧ _ => split end.
    + apply (slope_warms_at 0); [apply missing_before_slope|].
      intros i _ Hi. apply holds_at_Forall; [|done].
      apply ewm_mean_positive; [lia|done].
    + apply (slope_warms_at 49);
        [apply (missing_before_slope_rolling 50)|].
      intros i Hk Hi. unfold_engine. unfold calculate_sma in *.
      unfold rolling_mean in Hi. rewrite length_rolling in Hi.
      apply rolling_mean_positive_at; [lia..|done|done].
    + apply (slope_warms_at 199);
        [apply (missing_before_slope_rolling 200)|].
      intros i Hk Hi. unfold_engine. unfold calculate_sma in *.
      unfold rolling_mean in Hi. rewrite length_rolling in Hi.
      apply rolling_mean_positive_at; [lia..|done|done].
    + apply warms_at_intro; [exact Hroc|].
      intros i Hk Hi. apply roc_finite_at; [done| |done].
      revert Hi. unfold_engine. unfold calculate_roc.
      rewrite length_zip_with, length_shift. lia.
    + apply warms_at_intro.
      { intros i x Hx Hi. by apply (atr_percent_early fsqrt s i). }
      intros i Hk Hi.
      assert (i < length s)%nat as Hi' by (revert Hi; series_length).
      unfold_engine. unfold calculate_atr.
      apply (holds_at_fmap finite finite);
        [intros a Ha; apply finite_nmul; [done|apply finite_Z2num]|].
      apply (holds_at_zip_with finite positive finite);
        [apply finite_ndiv| |].
      * apply rolling_mean_finite_at; [lia|lia| |done].
        unfold true_range.
        rewrite !length_zip_with, !length_fmap, !length_zip_with,
          !length_shift, !length_col. lia.
      * apply holds_at_Forall; [done|by rewrite length_col].
Qed.

Lemma engine_never_fails_witness :
  SMA_50 (calculate_all_indicators sqrt6 (flat_series 30 (Q2Qc 100) 1000))
    !! 29%nat = Some NaN ∧
  warms_at 10
    (ROC (calculate_all_indicators sqrt6 (flat_series 30 (Q2Qc 100) 1000))).
Proof.
  destruct (engine_never_fails sqrt6 (flat_series 30 (Q2Qc 100) 1000))
    as (df & Hrun & _ & _ & (Hsma & _) & _ & _ & Hvalid).
  injection Hrun as <-.
  destruct (lookup_lt_is_Some_2
              (SMA_50 (calculate_all_indicators sqrt6
                         (flat_series 30 (Q2Qc 100) 1000))) 29)
    as [x Hx]; [vm_compute; lia|].
  split; [|apply Hvalid; vm_compute; reflexivity].
  rewrite Hx. f_equal. apply (Hsma 29%nat x Hx). lia.
Defined.
